(** * mapa-clientes: the MyMaps CSV converter (tools/convert_mymaps_csv.py)

    A shallow embedding of the converter script and the proofs of the
    properties its specification states.

    Conventions of the embedding:
    - a Python [str] is the list of its Unicode code points ([list N]);
    - a Python value that reaches the utility functions is a [value]
      (a string, [None], the float NaN, or a float);
    - [float(...)] is modelled by the exact decimal value of its argument
      (a rational); the rounding to a binary64 is not represented;
    - [re.search] and [re.sub] are modelled by a backtracking matcher over the
      fragment of the [re] syntax the two patterns of the script use;
    - a pandas DataFrame is an ordered store of named columns, updated in
      place by [df[c] = ...];
    - the built-ins [str.lower], [str.upper] and the [repr] of a float belong
      to the Python runtime: the converter is parameterised by them. *)

From Stdlib Require Import String Ascii List NArith ZArith QArith Bool Lia.
Import ListNotations.

Local Open Scope N_scope.

(* ================================================================= *)
(** ** Python strings *)

Module PyStr.

Definition char := N.
Definition str := list char.

(** Code points of an ASCII literal. *)
Fixpoint lit (s : string) : str :=
  match s with
  | EmptyString => []
  | String a t => N_of_ascii a :: lit t
  end.

Fixpoint str_eqb (a b : str) : bool :=
  match a, b with
  | [], [] => true
  | x :: a', y :: b' => (x =? y) && str_eqb a' b'
  | _, _ => false
  end.

(** [c in s] for a one-character [c]. *)
Definition contains_char (c : char) (s : str) : bool :=
  existsb (N.eqb c) s.

(** [s.startswith(p)] *)
Fixpoint startswith (p s : str) : bool :=
  match p, s with
  | [], _ => true
  | x :: p', y :: s' => (x =? y) && startswith p' s'
  | _ :: _, [] => false
  end.

(** [p in s] for strings: [p] occurs somewhere in [s]. *)
Fixpoint contains (p s : str) : bool :=
  startswith p s ||
  match s with
  | [] => false
  | _ :: t => contains p t
  end.

(** [Py_UNICODE_ISSPACE]: the characters [str.strip()] removes and the
    class [\s] of a str pattern matches. *)
Definition isspace (c : char) : bool :=
  ((9 <=? c) && (c <=? 13)) || ((28 <=? c) && (c <=? 32)) ||
  (c =? 133) || (c =? 160) || (c =? 5760) ||
  ((8192 <=? c) && (c <=? 8202)) ||
  (c =? 8232) || (c =? 8233) || (c =? 8239) || (c =? 8287) || (c =? 12288).

Fixpoint lstrip_by (p : char -> bool) (s : str) : str :=
  match s with
  | [] => []
  | c :: t => if p c then lstrip_by p t else s
  end.

Definition rstrip_by (p : char -> bool) (s : str) : str :=
  rev (lstrip_by p (rev s)).

(** [s.strip(chars)], the set [chars] given as a predicate. *)
Definition strip_by (p : char -> bool) (s : str) : str :=
  rstrip_by p (lstrip_by p s).

(** [s.strip()] *)
Definition strip (s : str) : str := strip_by isspace s.

(** [sep.join(parts)] *)
Fixpoint join (sep : str) (parts : list str) : str :=
  match parts with
  | [] => []
  | [p] => p
  | p :: rest => p ++ sep ++ join sep rest
  end.

(** [s.split(sep)] for a non-empty [sep]: [cur] holds the current segment
    reversed. Every step consumes a character, so [length s] steps of fuel
    are never exhausted. *)
Fixpoint split_loop (fuel : nat) (sep s cur : str) : list str :=
  match fuel with
  | O => [rev cur]
  | S f =>
      match s with
      | [] => [rev cur]
      | c :: t =>
          if startswith sep s
          then rev cur :: split_loop f sep (skipn (length sep) s) []
          else split_loop f sep t (c :: cur)
      end
  end.

Definition split (sep s : str) : list str :=
  split_loop (length s) sep s [].

End PyStr.
Import PyStr.

(* ================================================================= *)
(** ** The fragment of [re] the script uses *)

Module Re.

(** Repetition is only ever applied to a one-character class in the two
    patterns of the script ([\s*], [\s+], [[\-0-9]+], [[0-9]+]). *)
Inductive regex : Type :=
| Eps                            (* the empty pattern *)
| Chr (c : char)                 (* a literal character *)
| Cls (p : char -> bool)         (* one character of a class *)
| Star (p : char -> bool)        (* greedy [cls*] *)
| Plus (p : char -> bool)        (* greedy [cls+] *)
| Opt (r : regex)                (* greedy [(?:r)?] *)
| Seq (r1 r2 : regex)
| Grp (n : nat) (r : regex).     (* capturing group number [n] *)

Definition captures := list (nat * str).

Fixpoint group (n : nat) (caps : captures) : option str :=
  match caps with
  | [] => None
  | (m, s) :: rest => if Nat.eqb m n then Some s else group n rest
  end.

(** Result of a successful match: the unconsumed rest and the groups. *)
Definition outcome := (str * captures)%type.
Definition cont := str -> captures -> option outcome.

(** Greedy repetition: take one more character when possible and fall
    back to stopping here when the rest of the pattern then fails. *)
Fixpoint star (p : char -> bool) (s : str) (caps : captures) (k : cont)
  : option outcome :=
  match s with
  | c :: t =>
      if p c then
        match star p t caps k with
        | Some r => Some r
        | None => k s caps
        end
      else k s caps
  | [] => k [] caps
  end.

(** Backtracking matcher in continuation-passing style. *)
Fixpoint run (r : regex) (s : str) (caps : captures) (k : cont)
  : option outcome :=
  match r with
  | Eps => k s caps
  | Chr c =>
      match s with
      | x :: t => if x =? c then k t caps else None
      | [] => None
      end
  | Cls p =>
      match s with
      | x :: t => if p x then k t caps else None
      | [] => None
      end
  | Star p => star p s caps k
  | Plus p =>
      match s with
      | x :: t => if p x then star p t caps k else None
      | [] => None
      end
  | Opt r1 =>
      match run r1 s caps k with
      | Some res => Some res
      | None => k s caps
      end
  | Seq r1 r2 => run r1 s caps (fun s' caps' => run r2 s' caps' k)
  | Grp n r1 =>
      run r1 s caps
          (fun s' caps' =>
             k s' ((n, firstn (length s - length s') s) :: caps'))
  end.

(** [re.match]: the pattern anchored at the start of [s]. *)
Definition match_at (r : regex) (s : str) : option outcome :=
  run r s [] (fun s' caps => Some (s', caps)).

(** [re.search]: the leftmost position at which the pattern matches. *)
Fixpoint search (r : regex) (s : str) : option outcome :=
  match match_at r s with
  | Some res => Some res
  | None =>
      match s with
      | [] => None
      | _ :: t => search r t
      end
  end.

(** [re.sub(r, repl, s)]: every leftmost non-overlapping match replaced.
    [fuel] bounds the number of steps; each step consumes a character. *)
Fixpoint sub_loop (fuel : nat) (r : regex) (repl s : str) : str :=
  match fuel with
  | O => []
  | S f =>
      match match_at r s with
      | Some (rest, _) =>
          if (length rest <? length s)%nat
          then repl ++ sub_loop f r repl rest
          else (* an empty match *)
            match s with
            | [] => repl
            | c :: t => repl ++ c :: sub_loop f r repl t
            end
      | None =>
          match s with
          | [] => []
          | c :: t => c :: sub_loop f r repl t
          end
      end
  end.

Definition sub (r : regex) (repl s : str) : str :=
  sub_loop (S (length s)) r repl s.

(** Concatenation of the items of a pattern, left to right. *)
Fixpoint cat (rs : list regex) : regex :=
  match rs with
  | [] => Eps
  | r :: rest => Seq r (cat rest)
  end.

(** A literal word. *)
Definition word (w : str) : regex := cat (map Chr w).

End Re.
Import Re.

(* ================================================================= *)
(** ** Python values and [float] *)

Inductive value : Type :=
| VStr (s : str)
| VNone
| VNaN
| VFloat (q : Q).

Definition is_digit (c : char) : bool := (48 <=? c) && (c <=? 57).
Definition digit_val (c : char) : N := c - 48.

Definition minus_sign : char := 45.
Definition dot : char := 46.

(** Value of a run of decimal digits read left to right from [acc]. *)
Fixpoint digits_value (acc : N) (ds : str) : N :=
  match ds with
  | [] => acc
  | d :: t => digits_value (10 * acc + digit_val d) t
  end.

(** Splits [s] at its first ['.']: the text before it, and the text after
    it when there is one. *)
Fixpoint cut_at_dot (s : str) : str * option str :=
  match s with
  | [] => ([], None)
  | c :: t =>
      if c =? dot then ([], Some t)
      else let (a, b) := cut_at_dot t in (c :: a, b)
  end.

(** [int_part.frac_part] as an exact rational. *)
Definition decimal_value (neg : bool) (ip fp : str) : Q :=
  let m := Z.of_N (digits_value 0 (ip ++ fp)) in
  Qmake (if neg then (- m)%Z else m) (Z.to_pos (10 ^ Z.of_nat (length fp))).

(** [float(s)] on the texts the pattern can capture, which consist of
    ['-'], digits and ['.'] only: an optional minus sign, then digits with
    at most one ['.'] among them and at least one digit. Any other text
    over that alphabet raises [ValueError], here [None]. *)
Definition py_float (s : str) : option Q :=
  let (neg, body) :=
    match s with
    | c :: t => if c =? minus_sign then (true, t) else (false, s)
    | [] => (false, s)
    end in
  let (ip, rest) := cut_at_dot body in
  let fp := match rest with Some f => f | None => [] end in
  if forallb is_digit ip && forallb is_digit fp
     && negb ((length ip + length fp =? 0)%nat)
  then Some (decimal_value neg ip fp)
  else None.

(* ================================================================= *)
(** ** Utility functions of the script *)

Definition sign_or_digit (c : char) : bool := (c =? minus_sign) || is_digit c.

(** [[\-0-9]+(?:\.[0-9]+)?] *)
Definition number_re : regex :=
  Seq (Plus sign_or_digit) (Opt (Seq (Chr dot) (Plus is_digit))).

(** [POINT\s*\(\s*([\-0-9]+(?:\.[0-9]+)?)\s+([\-0-9]+(?:\.[0-9]+)?)\s*\)] *)
Definition point_re : regex :=
  cat [ word (lit "POINT"); Star isspace; Chr 40;
        Star isspace; Grp 1 number_re; Plus isspace;
        Grp 2 number_re; Star isspace; Chr 41 ].

Definition double_quote : char := 34.
Definition single_quote : char := 39.

(** [wkt_str.strip()], then the double quotes, then the single quotes
    stripped from both ends. *)
Definition strip_wkt (s : str) : str :=
  strip_by (N.eqb single_quote) (strip_by (N.eqb double_quote) (strip s)).

(** [extract_lon_lat_from_wkt]: the pair is (lat, lon); a [ValueError] of
    [float] is caught and gives [(None, None)]. *)
Definition extract_lon_lat_from_wkt (wkt_str : value) : value * value :=
  match wkt_str with
  | VStr s =>
      match search point_re (strip_wkt s) with
      | None => (VNone, VNone)
      | Some (_, caps) =>
          match group 1 caps, group 2 caps with
          | Some g1, Some g2 =>
              match py_float g1 with
              | None => (VNone, VNone)
              | Some lon =>
                  match py_float g2 with
                  | None => (VNone, VNone)
                  | Some lat => (VFloat lat, VFloat lon)
                  end
              end
          | _, _ => (VNone, VNone)
          end
      end
  | _ => (VNone, VNone)
  end.

(** *** Encodings *)

Definition byte := N.

(** [s.encode('latin-1')]: [None] stands for [UnicodeEncodeError]. *)
Definition latin1_encode (s : str) : option (list byte) :=
  if forallb (fun c => c <? 256) s then Some s else None.

Definition is_cont (b : byte) : bool := (128 <=? b) && (b <=? 191).
Definition in_range (lo hi b : byte) : bool := (lo <=? b) && (b <=? hi).

Definition push (c : char) (r : option str) : option str :=
  match r with
  | Some s => Some (c :: s)
  | None => None
  end.

(** [bs.decode('utf-8')], strict: overlong forms, surrogates, values above
    U+10FFFF and truncated sequences are refused ([UnicodeDecodeError]). *)
Fixpoint utf8_decode (bs : list byte) : option str :=
  match bs with
  | [] => Some []
  | b0 :: r1 =>
      if b0 <? 128 then push b0 (utf8_decode r1)
      else if b0 <? 194 then None
      else if b0 <? 224 then
        match r1 with
        | b1 :: r2 =>
            if is_cont b1
            then push ((b0 - 192) * 64 + (b1 - 128)) (utf8_decode r2)
            else None
        | [] => None
        end
      else if b0 <? 240 then
        match r1 with
        | b1 :: b2 :: r3 =>
            if in_range (if b0 =? 224 then 160 else 128)
                        (if b0 =? 237 then 159 else 191) b1
               && is_cont b2
            then push ((b0 - 224) * 4096 + (b1 - 128) * 64 + (b2 - 128))
                      (utf8_decode r3)
            else None
        | _ => None
        end
      else if b0 <? 245 then
        match r1 with
        | b1 :: b2 :: b3 :: r4 =>
            if in_range (if b0 =? 240 then 144 else 128)
                        (if b0 =? 244 then 143 else 191) b1
               && is_cont b2 && is_cont b3
            then push ((b0 - 240) * 262144 + (b1 - 128) * 4096
                       + (b2 - 128) * 64 + (b3 - 128))
                      (utf8_decode r4)
            else None
        | _ => None
        end
      else None
  end.

Definition A_tilde : char := 195.        (* U+00C3 *)
Definition A_circumflex : char := 194.   (* U+00C2 *)

(** [fix_mojibake_text] on a string. *)
Definition fix_mojibake_str (s : str) : str :=
  if contains_char A_tilde s || contains_char A_circumflex s then
    match latin1_encode s with
    | Some bs =>
        match utf8_decode bs with
        | Some t => t
        | None => s
        end
    | None => s
    end
  else s.

(** [fix_mojibake_text]: a value that is not a [str] is returned as is. *)
Definition fix_mojibake_text (s : value) : value :=
  match s with
  | VStr t => VStr (fix_mojibake_str t)
  | _ => s
  end.

(** *** Description fields *)

Definition en_dash : char := 8211.   (* U+2013 *)
Definition em_dash : char := 8212.   (* U+2014 *)

Definition is_dash (c : char) : bool :=
  (c =? minus_sign) || (c =? en_dash) || (c =? em_dash).

(** [\s*[-–—]\s*] *)
Definition dash_re : regex :=
  cat [ Star isspace; Cls is_dash; Star isspace ].

Definition separator : str := lit " - ".
Definition x_field : str := lit "x".

(** [while len(parts) < 5: parts.append('x')] *)
Fixpoint pad_loop (fuel : nat) (parts : list str) : list str :=
  match fuel with
  | O => parts
  | S f =>
      if (length parts <? 5)%nat
      then pad_loop f (parts ++ [x_field])
      else parts
  end.

Definition is_empty (s : str) : bool :=
  match s with [] => true | _ => false end.

(** [split_standard_description] *)
Definition split_standard_description (desc : value) : list str :=
  match desc with
  | VStr d =>
      if is_empty (strip d) then repeat x_field 5
      else
        let d1 := fix_mojibake_str d in
        let desc_norm := sub dash_re separator (strip d1) in
        let parts := map strip (split separator desc_norm) in
        let parts :=
          if (5 <? length parts)%nat
          then firstn 4 parts ++ [join separator (skipn 4 parts)]
          else parts in
        pad_loop 5 parts
  | _ => repeat x_field 5
  end.

(* ================================================================= *)
(** ** DataFrames, effects and the conversion *)

(** A DataFrame: its columns in order, each a name and its cells.
    [read_csv] gives every column a distinct name and the same number of
    cells, see [rectangular] below. *)
Definition column := list value.
Definition frame := list (str * column).

Definition columns (df : frame) : list str := map fst df.

(** [len(df)] *)
Definition nrows (df : frame) : nat :=
  match df with
  | [] => O
  | (_, col) :: _ => length col
  end.

(** Lookup in insertion order; used for [df[c]] and for a dict. *)
Fixpoint assoc_get {V : Type} (d : list (str * V)) (k : str) : option V :=
  match d with
  | [] => None
  | (k', v) :: rest => if str_eqb k' k then Some v else assoc_get rest k
  end.

(** [d[k] = v]: an existing key keeps its position and takes the new
    value, a new key goes last. *)
Fixpoint assoc_set {V : Type} (d : list (str * V)) (k : str) (v : V)
  : list (str * V) :=
  match d with
  | [] => [(k, v)]
  | (k', v') :: rest =>
      if str_eqb k' k then (k', v) :: rest
      else (k', v') :: assoc_set rest k v
  end.

Definition isna (v : value) : bool :=
  match v with
  | VNone | VNaN => true
  | _ => false
  end.

Definition is_float (v : value) : bool :=
  match v with
  | VFloat _ => true
  | _ => false
  end.

(** [.fillna(d)] on one cell. *)
Definition fillna (d : value) (v : value) : value :=
  if isna v then d else v.

(** A column built from a Python list of floats and [None]: pandas keeps
    an all-[None] list as objects and turns [None] into NaN as soon as the
    list holds a float. *)
Definition column_of_list (l : list value) : column :=
  if existsb is_float l
  then map (fun v => match v with VNone => VNaN | _ => v end) l
  else l.

(** What the script prints. *)
Inductive message : Type :=
| MBackupCreated
| MInputNotFound                      (* line 52, an error *)
| MNoWktColumn (cols : list str)      (* line 133, an error *)
| MNoDescrColumn                      (* line 153, a notice *)
| MSaved
| MSummary (rows missing : nat)
| MScriptDone.

Definition is_error (m : message) : bool :=
  match m with
  | MInputNotFound | MNoWktColumn _ => true
  | _ => false
  end.

(** What the script does to the outside world. *)
Inductive event : Type :=
| EMakedirsBackups                    (* line 40 *)
| ECopyBackup                         (* line 49 *)
| EPrint (m : message)
| EEnsureOutDir                       (* lines 195-197 *)
| EToCsv (final : frame).             (* line 204: the output file *)

Inductive halt : Type :=
| SysExit (code : Z)
| KeyError
| ValueError.

(** Computations of the script: the events so far, and a value or the
    reason why the run stopped. *)
Definition M (A : Type) : Type := (list event * (A + halt))%type.

Definition ret {A : Type} (a : A) : M A := ([], inl a).

Definition bind {A B : Type} (m : M A) (f : A -> M B) : M B :=
  match m with
  | (tr, inl a) => let (tr', r) := f a in (tr ++ tr', r)
  | (tr, inr h) => (tr, inr h)
  end.

Definition emit (e : event) : M unit := ([e], inl tt).
Definition raise {A : Type} (h : halt) : M A := ([], inr h).

Notation "x <- m ;; k" := (bind m (fun x => k))
  (at level 61, m at next level, right associativity).
Notation "m ;;; k" := (bind m (fun _ => k))
  (at level 61, right associativity).

(** [df[c]]: [KeyError] when there is no such column, in particular for
    the label [None]. *)
Definition getitem (df : frame) (c : option str) : M column :=
  match c with
  | Some name =>
      match assoc_get df name with
      | Some col => ret col
      | None => raise KeyError
      end
  | None => raise KeyError
  end.

Definition in_list (k : str) (l : list str) : bool := existsb (str_eqb k) l.

Definition wkt_keywords : list str := [lit "wkt"; lit "point"; lit "geometry"].
Definition nombre_keywords : list str :=
  [lit "nombre"; lit "name"; lit "title"; lit "placename"].
(** ['descripción'] is written with U+00F3. *)
Definition descr_keywords : list str :=
  [lit "descrip"; lit "description";
   lit "descripci" ++ [243] ++ lit "n"; lit "desc"].
Definition direccion_keywords : list str :=
  [lit "direccion"; lit "address"; lit "addr"; lit "street"].

(** [kw1 in name or kw2 in name or ...] *)
Definition contains_any (kws : list str) (name : str) : bool :=
  existsb (fun kw => contains kw name) kws.

(** [for key in d: if test(key): found = d[key]; break] *)
Definition first_key (test : str -> bool) (d : list (str * str))
  : option str :=
  match find (fun kv => test (fst kv)) d with
  | Some (_, c) => Some c
  | None => None
  end.

Definition descr_missing : str := lit "__descr_missing__".
Definition parsed_columns : list str :=
  [lit "ZonaCodigo"; lit "ZonaNombre"; lit "CodigoCliente";
   lit "NombreCliente"; lit "Referencias"].
Definition final_cols_order : list str :=
  [lit "CodigoZona"; lit "ZonaNombre"; lit "CodigoCliente";
   lit "NombreCliente"; lit "Botica"; lit "Referencias"; lit "Direccion";
   lit "Lat"; lit "Lng"; lit "DescripcionOriginal"].

(** [pd.DataFrame(rows, columns=names)]: [ValueError] when a row has not
    one field per name. *)
Definition frame_of_rows (rows : list (list str)) (names : list str)
  : M frame :=
  if forallb (fun r => (length r =? length names)%nat) rows
  then ret (map (fun j => (nth j names [],
                           map (fun r => VStr (nth j r [])) rows))
                (seq 0 (length names)))
  else raise ValueError.

(** [final[names]]: the named columns, in that order. *)
Fixpoint select (df : frame) (names : list str) : M frame :=
  match names with
  | [] => ret []
  | n :: rest =>
      col <- getitem df (Some n) ;;
      more <- select df rest ;;
      ret ((n, col) :: more)
  end.

Section Converter.

(** The runtime's [str.lower], [str.upper] and [repr] of a float. *)
Variable lower upper : str -> str.
Variable float_repr : Q -> str.

(** [.astype(str)] on one cell of an object column: a missing value
    becomes the text [nan] (or [None]), as pandas does before version 3. *)
Definition astype_str (v : value) : str :=
  match v with
  | VStr s => s
  | VNone => lit "None"
  | VNaN => lit "nan"
  | VFloat q => float_repr q
  end.

(** [{c.lower(): c for c in df.columns}] *)
Definition cols_lower (df : frame) : list (str * str) :=
  fold_left (fun d c => assoc_set d (lower c) c) (columns df) [].

(** [df[c].dropna().astype(str).head(5).tolist()] *)
Definition sample_vals (col : column) : list str :=
  firstn 5 (map astype_str (filter (fun v => negb (isna v)) col)).

Definition looks_like_point (col : column) : bool :=
  existsb (fun s => startswith (lit "POINT") (upper (strip s)))
          (sample_vals col).

(** Lines 121-125. *)
Definition wkt_by_name (df : frame) : option str :=
  first_key (contains_any wkt_keywords) (cols_lower df).

(** Lines 127-131. *)
Definition wkt_by_sample (df : frame) : option str :=
  find (fun c => match assoc_get df c with
                 | Some col => looks_like_point col
                 | None => false
                 end) (columns df).

Definition find_wkt_col (df : frame) : option str :=
  match wkt_by_name df with
  | Some c => Some c
  | None => wkt_by_sample df
  end.

(** Lines 137-144. *)
Definition find_nombre_col (df : frame) (wkt_col : str) : option str :=
  match first_key (fun key => in_list key nombre_keywords) (cols_lower df) with
  | Some c => Some c
  | None => hd_error (filter (fun c => negb (str_eqb c wkt_col)) (columns df))
  end.

(** Lines 147-151. *)
Definition find_descr_col (df : frame) : option str :=
  first_key (contains_any descr_keywords) (cols_lower df).

(** Lines 187-191. *)
Definition find_direccion_col (df : frame) : option str :=
  first_key (fun key => in_list key direccion_keywords) (cols_lower df).

(** Lines 152-155: without a description column an empty one is added. *)
Definition ensure_descr (df : frame) : M (frame * str) :=
  match find_descr_col df with
  | Some c => ret (df, c)
  | None =>
      emit (EPrint MNoDescrColumn) ;;;
      ret (assoc_set df descr_missing (repeat (VStr []) (nrows df)),
           descr_missing)
  end.

(** [.astype(str).apply(fix_mojibake_text)] on a column. *)
Definition repair_column (col : column) : column :=
  map (fun v => fix_mojibake_text (VStr (astype_str v))) col.

(** [.str.strip()] on one cell. *)
Definition str_strip (v : value) : value :=
  match v with
  | VStr s => VStr (strip s)
  | _ => VNaN
  end.

(** Lines 158-163: the coordinates of every row, stored in the frame. *)
Definition add_coordinates (df : frame) (wkt_col : str) : M frame :=
  wkt_cells <- getitem df (Some wkt_col) ;;
  let pairs :=
    map (fun v => extract_lon_lat_from_wkt
                    (VStr (astype_str (fillna (VStr []) v))))
        wkt_cells in
  let df := assoc_set df (lit "Lat") (column_of_list (map fst pairs)) in
  ret (assoc_set df (lit "Lng") (column_of_list (map snd pairs))).

(** Lines 166-167: both text columns repaired in place. *)
Definition repair_texts (df : frame) (nombre_col : option str)
           (descr_col : str) : M frame :=
  nombre_cells <- getitem df nombre_col ;;
  let df :=
    match nombre_col with
    | Some c => assoc_set df c (repair_column nombre_cells)
    | None => df
    end in
  descr_cells <- getitem df (Some descr_col) ;;
  ret (assoc_set df descr_col (repair_column descr_cells)).

Definition parsed_field (parsed_df : frame) (name : string) : M column :=
  col <- getitem parsed_df (Some (lit name)) ;;
  ret (map (fillna (VStr x_field)) col).

(** Lines 170-192: the output frame, column by column. *)
Definition build_final (df : frame) (nombre_col : option str)
           (descr_col : str) (direccion_col : option str) : M frame :=
  descr_cells <- getitem df (Some descr_col) ;;
  parsed_df <- frame_of_rows (map split_standard_description descr_cells)
                             parsed_columns ;;
  c0 <- parsed_field parsed_df "ZonaCodigo" ;;
  let final := assoc_set [] (lit "CodigoZona") c0 in
  c1 <- parsed_field parsed_df "ZonaNombre" ;;
  let final := assoc_set final (lit "ZonaNombre") c1 in
  c2 <- parsed_field parsed_df "CodigoCliente" ;;
  let final := assoc_set final (lit "CodigoCliente") c2 in
  c3 <- parsed_field parsed_df "NombreCliente" ;;
  let final := assoc_set final (lit "NombreCliente") c3 in
  c4 <- parsed_field parsed_df "Referencias" ;;
  let final := assoc_set final (lit "Referencias") c4 in
  nombre_cells <- getitem df nombre_col ;;
  let final :=
    assoc_set final (lit "Botica")
      (map (fun v => str_strip (fillna (VStr []) (VStr (astype_str v))))
           nombre_cells) in
  lat <- getitem df (Some (lit "Lat")) ;;
  let final := assoc_set final (lit "Lat") lat in
  lng <- getitem df (Some (lit "Lng")) ;;
  let final := assoc_set final (lit "Lng") lng in
  descr_out <- getitem df (Some descr_col) ;;
  let final :=
    assoc_set final (lit "DescripcionOriginal")
              (map (fun v => VStr (astype_str v)) descr_out) in
  direccion <-
    match direccion_col with
    | Some c =>
        if is_empty c then ret (repeat (VStr []) (nrows final))
        else
          cells <- getitem df (Some c) ;;
          ret (map (fun v => fillna (VStr []) (VStr (astype_str v))) cells)
    | None => ret (repeat (VStr []) (nrows final))
    end ;;
  ret (assoc_set final (lit "Direccion") direccion).

(** [convert_mymaps_csv], from the frame [read_csv] returned to the frame
    written to the output file. *)
Definition convert_mymaps_csv (df : frame) : M frame :=
  match find_wkt_col df with
  | None =>
      emit (EPrint (MNoWktColumn (columns df))) ;;;
      raise (SysExit 1)
  | Some wkt_col =>
      let nombre_col := find_nombre_col df wkt_col in
      st <- ensure_descr df ;;
      let descr_col := snd st in
      df1 <- add_coordinates (fst st) wkt_col ;;
      df2 <- repair_texts df1 nombre_col descr_col ;;
      final <- build_final df2 nombre_col descr_col (find_direccion_col df) ;;
      emit EEnsureOutDir ;;;
      final <- select final final_cols_order ;;
      emit (EToCsv final) ;;;
      emit (EPrint MSaved) ;;;
      lat <- getitem final (Some (lit "Lat")) ;;
      emit (EPrint (MSummary (nrows final)
                             (length (filter isna lat)))) ;;;
      ret final
  end.

(** The script, top to bottom. [input] is [None] when the input file does
    not exist, and the frame [read_csv] returns otherwise. *)
Definition script (input : option frame) : M unit :=
  emit EMakedirsBackups ;;;
  match input with
  | Some df =>
      emit ECopyBackup ;;;
      emit (EPrint MBackupCreated) ;;;
      convert_mymaps_csv df ;;;
      emit (EPrint MScriptDone)
  | None =>
      emit (EPrint MInputNotFound) ;;;
      raise (SysExit 1)
  end.

End Converter.

(* ================================================================= *)
(** ** The dashboard (app.py) *)

(** One run of the script of the dashboard: from the session state and the
    values of the widgets to the new session state and what is displayed.
    The cells of the table are whatever [read_csv] made of the file; the
    script only compares them ([isin]), tests them for missing values and
    looks a zone up in the colour table, sorts them for the options of a
    widget and takes the mean of the two coordinate columns; these
    operations of pandas and Python are parameters of the model. A table is
    a list of named columns which, as in a [DataFrame], all have one cell
    per row. What Streamlit and folium do with the values they are handed is
    not represented. *)
Module Dashboard.
Section Run.

Variable cell : Type.
(** Equality of [isin]. *)
Variable cell_eqb : cell -> cell -> bool.
(** [isna] on one cell. *)
Variable missing : cell -> bool.
(** The text of a cell that is a string. *)
Variable cell_text : cell -> option str.
(** [Series.mean()]: [None] when it raises, as on a column of texts. *)
Variable mean : list cell -> option cell.
(** [sorted(...)]: [None] when two cells cannot be compared. *)
Variable sorted : list cell -> option (list cell).

Definition table := list (str * list cell).

(** [df[name]]: [None] stands for [KeyError]. *)
Definition col (t : table) (name : string) : option (list cell) :=
  assoc_get t (lit name).

Definition option_bind {A B : Type} (o : option A) (f : A -> option B)
  : option B :=
  match o with
  | Some a => f a
  | None => None
  end.

(** [s.isin(values)] *)
Definition isin (values : list cell) (s : list cell) : list bool :=
  map (fun v => existsb (cell_eqb v) values) s.

(** The cells of a column at the rows a mask selects. *)
Fixpoint pick (mask : list bool) (s : list cell) : list cell :=
  match mask, s with
  | b :: mask', v :: s' => if b then v :: pick mask' s' else pick mask' s'
  | _, _ => []
  end.

(** [df[mask]] *)
Definition take_rows (mask : list bool) (t : table) : table :=
  map (fun c => (fst c, pick mask (snd c))) t.

(** [df.empty]: no column or no row. *)
Definition empty (t : table) : bool :=
  match t with
  | [] => true
  | (_, []) :: _ => true
  | _ => false
  end.

(** [len(df)] *)
Definition len (t : table) : nat :=
  match t with
  | [] => O
  | (_, s) :: _ => length s
  end.

Fixpoint both_present (lat lng : list cell) : list bool :=
  match lat, lng with
  | a :: lat', b :: lng' =>
      (negb (missing a) && negb (missing b)) :: both_present lat' lng'
  | _, _ => []
  end.

(** [cargar_datos], lines 21-25, on the table [read_csv] returns:
    the rows without latitude or longitude are dropped. *)
Definition cargar_datos (raw : table) : option table :=
  match col raw "Lat", col raw "Lng" with
  | Some lat, Some lng => Some (take_rows (both_present lat lng) raw)
  | _, _ => None
  end.

(** [sorted(s.dropna().unique())], lines 35 and 50. *)
Fixpoint unique (s : list cell) : list cell :=
  match s with
  | [] => []
  | v :: s' => v :: filter (fun w => negb (cell_eqb v w)) (unique s')
  end.

Definition options (s : list cell) : option (list cell) :=
  sorted (unique (filter (fun v => negb (missing v)) s)).

(** [st.session_state]: a key that is not set yet is [None]. *)
Record session : Type := Session {
  filtrar_boticas : option bool;
  boticas_filtradas : option (list cell)
}.

(** Lines 64-67. *)
Definition init_session (s : session) : bool * list cell :=
  (match filtrar_boticas s with Some b => b | None => false end,
   match boticas_filtradas s with Some l => l | None => [] end).

(** Lines 70-77: the button stores the selection; an empty selection
    switches the filter off. *)
Definition update_session (s : session) (boticas_sel : list cell)
           (button : bool) : bool * list cell :=
  let (on, kept) := init_session s in
  let (on, kept) := if button then (true, boticas_sel) else (on, kept) in
  match boticas_sel with
  | [] => if on then (false, []) else (on, kept)
  | _ => (on, kept)
  end.

(** [color_map.get] with the default colour gray, lines 106-115. *)
Definition color_map : list (str * str) :=
  [ (lit "SU01", lit "red"); (lit "SU02", lit "green");
    (lit "SU03", lit "blue"); (lit "SU04", lit "purple");
    (lit "SU05", lit "orange") ].

Definition color_of (zone : cell) : str :=
  match cell_text zone with
  | Some z =>
      match assoc_get color_map z with
      | Some c => c
      | None => lit "gray"
      end
  | None => lit "gray"
  end.

(** A marker of the map: where it stands, its colour, its tooltip and the
    cells its popup shows. *)
Record marker : Type := Marker {
  location : cell * cell;
  color : str;
  tooltip : cell;
  popup : list cell
}.

(** What a run displays. *)
Inductive display : Type :=
| Success (count : nat)                                 (* line 85 *)
| Info                                                  (* line 90 *)
| Data (rows : table)                                   (* lines 96-97 *)
| Map (centre : cell * cell) (markers : list marker)    (* lines 99-130 *)
| Warning.                                              (* line 132 *)

(** Lines 114-128, one marker per row. *)
Fixpoint markers_of (lat lng zona botica znom ccli ncli refs dir : list cell)
  : list marker :=
  match lat, lng, zona, botica, znom, ccli, ncli, refs, dir with
  | a :: lat', b :: lng', z :: zona', t :: botica', zn :: znom',
    cc :: ccli', nc :: ncli', r :: refs', d :: dir' =>
      Marker (a, b) (color_of z) t [t; zn; z; cc; nc; r; d]
      :: markers_of lat' lng' zona' botica' znom' ccli' ncli' refs' dir'
  | _, _, _, _, _, _, _, _, _ => []
  end.

(** Lines 101-130: [None] when [mean] raises or a column is missing. *)
Definition map_of (t : table) : option display :=
  match col t "Lat", col t "Lng" with
  | Some lat, Some lng =>
      match mean lat, mean lng with
      | Some centre_lat, Some centre_lng =>
          match col t "CodigoZona", col t "Botica", col t "ZonaNombre",
                col t "CodigoCliente", col t "NombreCliente",
                col t "Referencias", col t "Direccion" with
          | Some zona, Some botica, Some znom, Some ccli, Some ncli,
            Some refs, Some dir =>
              Some (Map (centre_lat, centre_lng)
                        (markers_of lat lng zona botica znom ccli ncli
                                    refs dir))
          | _, _, _, _, _, _, _ => None
          end
      | _, _ => None
      end
  | _, _ => None
  end.

(** Lines 95-132: what is displayed, and whether the script got to its
    end. The table is displayed before the map is built. *)
Definition show (t : table) : list display * bool :=
  if empty t then ([Warning], true)
  else
    match map_of t with
    | Some m => ([Data t; m], true)
    | None => ([Data t], false)
    end.

(** Lines 43-46. *)
Definition rows_of_zones (df : table) (zonas_sel : list cell) : option table :=
  match zonas_sel with
  | [] => Some []
  | _ =>
      match col df "CodigoZona" with
      | Some zona => Some (take_rows (isin zonas_sel zona) df)
      | None => None
      end
  end.

(** Lines 82-90. *)
Definition rows_to_show (df_zonas : table) (on : bool) (kept : list cell)
  : option (table * list display) :=
  if empty df_zonas then Some ([], [Info])
  else
    match on, kept with
    | true, _ :: _ =>
        match col df_zonas "Botica" with
        | Some botica =>
            let t := take_rows (isin kept botica) df_zonas in
            Some (t, [Success (len t)])
        | None => None
        end
    | _, _ => Some (df_zonas, [])
    end.

(** How a run ends: with an exception ([KeyError] for a column the table
    does not have, [TypeError] from [sorted] or [mean]), or at the end of
    the script; in both
    cases with the session state it leaves and what it has displayed. *)
Inductive result : Type :=
| Crashed (s : session) (said : list display)
| Finished (s : session) (said : list display).

Definition state_of (r : result) : session :=
  match r with
  | Crashed s _ | Finished s _ => s
  end.

Definition said_of (r : result) : list display :=
  match r with
  | Crashed _ d | Finished _ d => d
  end.

(** The script from line 27 on, given the cached table, the session state
    and the values of the three widgets. *)
Definition app (df : table) (s : session) (zonas_sel boticas_sel : list cell)
           (button : bool) : result :=
  match option_bind (col df "CodigoZona") options with  (* line 35 *)
  | None => Crashed s []
  | Some _ =>
      match rows_of_zones df zonas_sel with
      | None => Crashed s []
      | Some df_zonas =>
          match (if empty df_zonas then Some []
                 else option_bind (col df_zonas "Botica") options) with
                                                        (* lines 49-52 *)
          | None => Crashed s []
          | Some _ =>
              let (on, kept) := update_session s boticas_sel button in
              let s' := Session (Some on) (Some kept) in
              match rows_to_show df_zonas on kept with
              | None => Crashed s' []
              | Some (df_filtrado, said) =>
                  let (shown, finished) := show df_filtrado in
                  if finished then Finished s' (said ++ shown)
                  else Crashed s' (said ++ shown)
              end
          end
      end
  end.

End Run.

Arguments col {cell}.
Arguments pick {cell}.
Arguments take_rows {cell}.
Arguments empty {cell}.
Arguments len {cell}.
Arguments isin {cell}.
Arguments unique {cell}.
Arguments options {cell}.
Arguments both_present {cell}.
Arguments cargar_datos {cell}.
Arguments Session {cell}.
Arguments filtrar_boticas {cell}.
Arguments boticas_filtradas {cell}.
Arguments init_session {cell}.
Arguments update_session {cell}.
Arguments color_of {cell}.
Arguments Marker {cell}.
Arguments location {cell}.
Arguments color {cell}.
Arguments tooltip {cell}.
Arguments popup {cell}.
Arguments Success {cell}.
Arguments Info {cell}.
Arguments Data {cell}.
Arguments Map {cell}.
Arguments Warning {cell}.
Arguments markers_of {cell}.
Arguments map_of {cell}.
Arguments show {cell}.
Arguments rows_of_zones {cell}.
Arguments rows_to_show {cell}.
Arguments Crashed {cell}.
Arguments Finished {cell}.
Arguments state_of {cell}.
Arguments said_of {cell}.
Arguments app {cell}.

End Dashboard.

(* ================================================================= *)
(** ** Vocabulary of the specification *)

(** [str.lower] and [str.upper] on ASCII text. *)
Definition ascii_lower (s : str) : str :=
  map (fun c => if (65 <=? c) && (c <=? 90) then c + 32 else c) s.
Definition ascii_upper (s : str) : str :=
  map (fun c => if (97 <=? c) && (c <=? 122) then c - 32 else c) s.

(** On ASCII text [str.lower] is the ASCII lowercasing. *)
Definition lower_on_ascii (lower : str -> str) : Prop :=
  forall s, forallb (fun c => c <? 128) s = true -> lower s = ascii_lower s.

(** Stands for [repr] in the examples, none of which prints a float. *)
Definition repr_unused (q : Q) : str := lit "?".

(** *** Decimal numerals *)

(** A signed decimal numeral: a sign, the digits before the point and the
    digits after it (none for an integer). *)
Record numeral : Type := Numeral {
  negative : bool;
  int_digits : str;
  frac_digits : str
}.

(** The text of a numeral: [-12.05], [7], [-3]. *)
Definition render (d : numeral) : str :=
  (if negative d then [minus_sign] else [])
  ++ int_digits d
  ++ match frac_digits d with
     | [] => []
     | f => dot :: f
     end.

(** The real number a numeral denotes. *)
Definition numeral_value (d : numeral) : Q :=
  decimal_value (negative d) (int_digits d) (frac_digits d).

Definition digits_only (d : numeral) : bool :=
  forallb is_digit (int_digits d) && forallb is_digit (frac_digits d).

(** An integer or a number with a fractional part, possibly negative. *)
Definition signed_decimal (d : numeral) : Prop :=
  digits_only d = true /\ int_digits d <> [].

Definition has_digit (d : numeral) : Prop :=
  int_digits d <> [] \/ frac_digits d <> [].

(** [POINT (lon lat)] *)
Definition point_text (lon lat : numeral) : str :=
  lit "POINT (" ++ render lon ++ lit " " ++ render lat ++ lit ")".

Definition letter_P : char := 80.

(** What is left of a prefix once blanks and quotes are stripped. *)
Definition strip_prefix (pre : str) : str :=
  lstrip_by (N.eqb single_quote)
            (lstrip_by (N.eqb double_quote) (lstrip_by isspace pre)).

Definition blank (w : str) : Prop := forallb isspace w = true.

(** The text holds, somewhere, the word POINT, an opening parenthesis, two
    decimal numerals separated by blanks, and a closing parenthesis. *)
Definition parsable_point (t : str) : Prop :=
  exists pre ws1 ws2 ws3 ws4 post lon lat,
    t = pre ++ lit "POINT" ++ ws1 ++ [40] ++ ws2 ++ render lon ++ ws3
            ++ render lat ++ ws4 ++ [41] ++ post
    /\ blank ws1 /\ blank ws2 /\ blank ws3 /\ ws3 <> [] /\ blank ws4
    /\ digits_only lon = true /\ has_digit lon
    /\ digits_only lat = true /\ has_digit lat.

Definition lima_lon : numeral := Numeral true (lit "77") (lit "03").
Definition lima_lat : numeral := Numeral true (lit "12") (lit "05").
Definition one : numeral := Numeral false (lit "1") [].
Definition two : numeral := Numeral false (lit "2") [].

(** *** What a match is *)

(** [matches r w caps caps']: the pattern [r] matches exactly the text
    [w], and doing so turns the groups [caps] into [caps']. *)
Fixpoint matches (r : regex) (w : str) (caps caps' : captures) : Prop :=
  match r with
  | Eps => w = [] /\ caps' = caps
  | Chr c => w = [c] /\ caps' = caps
  | Cls p => exists x, w = [x] /\ p x = true /\ caps' = caps
  | Star p => forallb p w = true /\ caps' = caps
  | Plus p => w <> [] /\ forallb p w = true /\ caps' = caps
  | Opt r1 => matches r1 w caps caps' \/ (w = [] /\ caps' = caps)
  | Seq r1 r2 =>
      exists w1 w2 mid,
        w = w1 ++ w2 /\ matches r1 w1 caps mid /\ matches r2 w2 mid caps'
  | Grp n r1 => exists mid, matches r1 w caps mid /\ caps' = (n, w) :: mid
  end.

(** A stretch of class characters ends at [rest]. *)
Definition stops (p : char -> bool) (rest : str) : Prop :=
  match rest with
  | [] => True
  | c :: _ => p c = false
  end.

(** A numeral ends at [rest]. *)
Definition ends_number (rest : str) : Prop :=
  match rest with
  | [] => True
  | c :: _ => sign_or_digit c = false /\ (c =? dot) = false
  end.

(** The texts the number pattern captures. *)
Definition number_shape (g : str) : Prop :=
  exists a o,
    g = a ++ o /\ a <> [] /\ forallb sign_or_digit a = true
    /\ (o = [] \/ exists f, o = dot :: f /\ f <> [] /\ forallb is_digit f = true).

(** *** Descriptions and encodings *)

(** The segments of a description: repaired, dashes normalised, split on
    the separator, each one stripped. *)
Definition segments (d : str) : list str :=
  map strip
      (split separator (sub dash_re separator (strip (fix_mojibake_str d)))).

(** Five fields out of any number of segments. *)
Definition five_fields (p : list str) : list str :=
  if (length p <? 5)%nat then p ++ repeat x_field (5 - length p)
  else if (5 <? length p)%nat
       then firstn 4 p ++ [join separator (skipn 4 p)]
       else p.

(** Latin-1 bytes of the text read again as UTF-8. *)
Definition round_trip (s : str) : option str :=
  match latin1_encode s with
  | Some bs => utf8_decode bs
  | None => None
  end.

(** [descripciÃ³n] and [descripción]. *)
Definition descripcion_mojibake : str := lit "descripci" ++ [195; 179] ++ lit "n".
Definition descripcion_utf8 : str := lit "descripci" ++ [243] ++ lit "n".
Definition euro_sign : char := 8364.

(** UTF-8 bytes of one code point, six bits at a time. *)
Definition utf8_encode_char (c : char) : list byte :=
  if c <? 128 then [c]
  else if c <? 2048 then [192 + c / 64; 128 + c mod 64]
  else if c <? 65536 then
    [224 + c / 64 / 64; 128 + (c / 64) mod 64; 128 + c mod 64]
  else [240 + c / 64 / 64 / 64; 128 + (c / 64 / 64) mod 64;
        128 + (c / 64) mod 64; 128 + c mod 64].

(** [s.encode('utf-8')] *)
Definition utf8_encode (s : str) : list byte := flat_map utf8_encode_char s.

(** A Unicode scalar value: below U+110000 and not a surrogate. *)
Definition scalar (c : char) : Prop :=
  c < 1114112 /\ ~ (55296 <= c <= 57343).

(** *** Runs of the script *)

Definition is_error_event (e : event) : bool :=
  match e with
  | EPrint m => is_error m
  | _ => false
  end.

Definition is_output_event (e : event) : bool :=
  match e with
  | EToCsv _ => true
  | _ => false
  end.

(** A run that stops on a fatal error: exit status 1, one error reported,
    no output file written. *)
Definition fatal {A : Type} (run : M A) : Prop :=
  snd run = inr (SysExit 1)
  /\ length (filter is_error_event (fst run)) = 1%nat
  /\ existsb is_output_event (fst run) = false.

(** Every column has [n] cells. *)
Definition shaped (n : nat) (df : frame) : Prop :=
  Forall (fun c => length (snd c) = n) df.

(** What [read_csv] returns: all columns as long as the index. *)
Definition rectangular (df : frame) : Prop := shaped (nrows df) df.

(** The columns under their lowercased names, when these are distinct. *)
Definition keyed (lower : str -> str) (l : list str) : list (str * str) :=
  map (fun c => (lower c, c)) l.

(** The name and the cells of the description column the converter works
    on: the detected column, or the empty one it adds. *)
Definition descr_name (lower : str -> str) (df : frame) : str :=
  match find_descr_col lower df with
  | Some c => c
  | None => descr_missing
  end.

Definition descr_source (lower : str -> str) (df : frame) : column :=
  match find_descr_col lower df with
  | Some c => match assoc_get df c with Some col => col | None => [] end
  | None => repeat (VStr []) (nrows df)
  end.

(** One pass of line 166 or 167 over a cell. *)
Definition repair_cell (float_repr : Q -> str) (v : value) : value :=
  fix_mojibake_text (VStr (astype_str float_repr v)).

(** The description column is repaired once, and once more when it also
    serves as the label column. *)
Definition repair_passes (lower upper : str -> str) (float_repr : Q -> str)
           (df : frame) : nat :=
  match find_wkt_col lower upper float_repr df with
  | Some w =>
      match find_nombre_col lower df w with
      | Some n => if str_eqb n (descr_name lower df) then 2%nat else 1%nat
      | None => 1%nat
      end
  | None => 1%nat
  end.

(** The coordinates line 160 computes from a geometry cell. *)
Definition coordinates_of (float_repr : Q -> str) (v : value) : value * value :=
  extract_lon_lat_from_wkt (VStr (astype_str float_repr (fillna (VStr []) v))).

(** *** Example tables *)

(** A table with the geometry column only. *)
Definition geometry_only : frame :=
  [ (lit "WKT", [VStr (lit "POINT (-77.03 -12.05)"); VStr (lit "POINT (1 2)")]) ].

(** An export whose address column is called [Home Address]. *)
Definition address_table : frame :=
  [ (lit "WKT", [VStr (lit "POINT (-77.03 -12.05)")]);
    (lit "nombre", [VStr (lit "Botica A")]);
    (lit "descripcion", [VStr (lit "Z1 - Norte - 001 - Ana - esquina")]);
    (lit "Home Address", [VStr (lit "Av. Grau 123")]) ].

(** An export with a double-encoded description and a bad geometry. *)
Definition mojibake_table : frame :=
  [ (lit "WKT", [VStr (lit "POINT (-77.03 -12.05)"); VStr (lit "sin datos")]);
    (lit "nombre", [VStr (lit "Botica A"); VStr (lit "Botica B")]);
    (descripcion_mojibake,
     [VStr (lit "Z1 - Uni" ++ [195; 179] ++ lit "n - 001 - Ana - esquina");
      VNaN]) ].

(** A table without any geometry. *)
Definition no_geometry : frame :=
  [ (lit "nombre", [VStr (lit "Botica A")]);
    (lit "descripcion", [VStr (lit "Z1 - Norte")]) ].

(** *** Further vocabulary of the converter *)

(** [POINT], blanks, [(], blanks, lon, blanks, lat, blanks, [)]. *)
Definition spaced_point (ws1 ws2 ws3 ws4 : str) (lon lat : numeral) : str :=
  lit "POINT" ++ ws1 ++ [40] ++ ws2 ++ render lon ++ ws3 ++ render lat
              ++ ws4 ++ [41].

(** A character that is no dash and none of the two telltale characters. *)
Definition clean_char (c : char) : bool :=
  negb (is_dash c) && negb (c =? A_tilde) && negb (c =? A_circumflex).

(** A field of a description: not empty, no blank at either end, no dash
    and no telltale character. *)
Definition field_ok (p : str) : bool :=
  negb (is_empty p) && negb (isspace (hd 32 p)) && negb (isspace (last p 32))
  && forallb clean_char p.

(** Blanks, one dash of any of the three kinds, blanks. *)
Definition dash_sep (s : str) : bool :=
  match lstrip_by isspace s with
  | d :: b => is_dash d && forallb isspace b
  | [] => false
  end.

(** A first field followed by separators and fields. *)
Fixpoint join_with (p : str) (rest : list (str * str)) : str :=
  match rest with
  | [] => p
  | (sep, q) :: more => p ++ sep ++ join_with q more
  end.

(** Every separator is a dash among blanks and every field is well formed. *)
Definition fields_ok (rest : list (str * str)) : bool :=
  forallb (fun sq => dash_sep (fst sq) && field_ok (snd sq)) rest.

(** The part of a field still to be read: not empty, ending in a character
    that is not a blank, without any dash. *)
Definition field_tail (t : str) : Prop :=
  t <> [] /\ isspace (last t 32) = false
  /\ forall c, In c t -> is_dash c = false.

(** A computation that, when it succeeds, has done nothing to the outside
    world. *)
Definition silent {A : Type} (m : M A) : Prop :=
  forall tr a, m = (tr, inl a) -> tr = [].

(** The notice of line 153, printed when no description column is found. *)
Definition notices (lower : str -> str) (df : frame) : list event :=
  match find_descr_col lower df with
  | Some _ => []
  | None => [EPrint MNoDescrColumn]
  end.

(** The cell a parsed field gives: field number [j] of the description. *)
Definition field_cell (j : nat) (v : value) : value :=
  VStr (nth j (split_standard_description v) []).

(** The five columns parsed from the description. *)
Definition field_columns : list str :=
  [lit "CodigoZona"; lit "ZonaNombre"; lit "CodigoCliente";
   lit "NombreCliente"; lit "Referencias"].

(** The number of geometry cells that give no coordinates. *)
Definition unparsed_count (fr : Q -> str) (cells : column) : nat :=
  length (filter (fun v => isna (fst (coordinates_of fr v))) cells).

(** A character of the Latin-1 supplement, such as the accented letters of
    Spanish. *)
Definition latin1_supplement (c : char) : Prop := 128 <= c /\ c < 256.

(** The conversion with the ASCII case functions, and what it returns. *)
Definition converted (df : frame) : M frame :=
  convert_mymaps_csv ascii_lower ascii_upper repr_unused df.

Definition trace_of (df : frame) : list event := fst (converted df).

Definition final_of (df : frame) : frame :=
  match snd (converted df) with
  | inl final => final
  | inr _ => []
  end.

(** A description of three fields. *)
Definition three_fields : list (str * str) :=
  [ (lit " - ", lit "Norte"); ([32; en_dash], lit "001") ].

(** An export without a description column. *)
Definition plain_table : frame :=
  [ (lit "WKT", [VStr (lit "POINT (-77.03 -12.05)"); VStr (lit "sin datos")]);
    (lit "nombre", [VStr (lit "Botica A"); VStr (lit "Botica B")]) ].

(** On ASCII text [str.upper] is the ASCII uppercasing. *)
Definition upper_on_ascii (upper : str -> str) : Prop :=
  forall s, forallb (fun c => c <? 128) s = true -> upper s = ascii_upper s.

(** A computation none of whose events satisfies [p], whether it succeeds
    or not. *)
Definition without (p : event -> bool) {A : Type} (m : M A) : Prop :=
  existsb p (fst m) = false.

(** A computation without such an event when it fails. *)
Definition without_on_failure (p : event -> bool) {A : Type} (m : M A)
  : Prop :=
  forall tr h, m = (tr, inr h) -> existsb p tr = false.

(** The banner of line 216. *)
Definition is_banner (e : event) : bool :=
  match e with
  | EPrint MScriptDone => true
  | _ => false
  end.

(** *** Vocabulary for the dashboard *)

(** The inputs of one run: the cached table and the values of the three
    widgets. *)
Record interaction (cell : Type) : Type := Interaction {
  shown_table : Dashboard.table cell;
  zones_chosen : list cell;
  boticas_chosen : list cell;
  button_pressed : bool
}.
Arguments Interaction {cell}.
Arguments shown_table {cell}.
Arguments zones_chosen {cell}.
Arguments boticas_chosen {cell}.
Arguments button_pressed {cell}.

(** A browser session: the state starts with no key and every interaction
    reruns the script on the state the run before left. *)
Definition replay {cell : Type} (cell_eqb : cell -> cell -> bool)
           (missing : cell -> bool) (cell_text : cell -> option str)
           (mean : list cell -> option cell)
           (sorted : list cell -> option (list cell))
           (history : list (interaction cell)) : Dashboard.session cell :=
  fold_left
    (fun s i =>
       Dashboard.state_of
         (Dashboard.app cell_eqb missing cell_text mean sorted
            (shown_table i) s (zones_chosen i) (boticas_chosen i)
            (button_pressed i)))
    history (Dashboard.Session None None).

(** The flag of the session state is set exactly when boticas are stored. *)
Definition flag_iff_stored {cell : Type} (s : Dashboard.session cell) : Prop :=
  match Dashboard.filtrar_boticas s, Dashboard.boticas_filtradas s with
  | None, None => True
  | Some on, Some kept => on = true <-> kept <> []
  | _, _ => False
  end.

(** Every cell of the column [name], if the table has it, satisfies [P]. *)
Definition column_all {cell : Type} (name : string) (P : cell -> Prop)
           (t : Dashboard.table cell) : Prop :=
  forall s, Dashboard.col t name = Some s -> Forall P s.

(** All columns have [n] cells. *)
Definition rows_aligned {cell : Type} (n : nat) (t : Dashboard.table cell)
  : Prop :=
  Forall (fun c => length (snd c) = n) t.

(** [v in values], with the equality of [isin]. *)
Definition among {cell : Type} (cell_eqb : cell -> cell -> bool)
           (values : list cell) (v : cell) : Prop :=
  existsb (cell_eqb v) values = true.

(** An instance of the parameters: the cells are the values of the
    converter, texts are compared and ordered by code points, numbers by
    value, and the mean skips missing cells. *)
Definition value_eqb (a b : value) : bool :=
  match a, b with
  | VStr x, VStr y => str_eqb x y
  | VFloat x, VFloat y => Qeq_bool x y
  | VNone, VNone => true
  | VNaN, VNaN => true
  | _, _ => false
  end.

Definition value_text (a : value) : option str :=
  match a with
  | VStr x => Some x
  | _ => None
  end.

Fixpoint str_leb (a b : str) : bool :=
  match a, b with
  | [], _ => true
  | _ :: _, [] => false
  | x :: a', y :: b' => (x <? y) || ((x =? y) && str_leb a' b')
  end.

(** [a <= b] in Python: [None] for [TypeError]. *)
Definition value_leb (a b : value) : option bool :=
  match a, b with
  | VStr x, VStr y => Some (str_leb x y)
  | VFloat x, VFloat y => Some (Qle_bool x y)
  | _, _ => None
  end.

Fixpoint insert_sorted (v : value) (l : list value) : option (list value) :=
  match l with
  | [] => Some [v]
  | w :: l' =>
      match value_leb v w with
      | Some true => Some (v :: l)
      | Some false =>
          match insert_sorted v l' with
          | Some r => Some (w :: r)
          | None => None
          end
      | None => None
      end
  end.

Fixpoint value_sorted (l : list value) : option (list value) :=
  match l with
  | [] => Some []
  | v :: l' =>
      match value_sorted l' with
      | Some r => insert_sorted v r
      | None => None
      end
  end.

Fixpoint total_count (l : list value) : option (Q * nat) :=
  match l with
  | [] => Some (0%Q, O)
  | VFloat x :: l' =>
      match total_count l' with
      | Some (sum, n) => Some ((x + sum)%Q, S n)
      | None => None
      end
  | VStr _ :: _ => None
  | _ :: l' => total_count l'
  end.

Definition value_mean (l : list value) : option value :=
  match total_count l with
  | Some (_, O) => Some VNaN
  | Some (sum, n) => Some (VFloat (Qred (sum / inject_Z (Z.of_nat n))))
  | None => None
  end.

Definition txt (s : string) : value := VStr (lit s).
Definition num (n d : Z) : value := VFloat (Qmake n (Z.to_pos d)).

(** A table of three clients, the third without latitude. *)
Definition clientes : Dashboard.table value :=
  [ (lit "CodigoZona", [txt "SU01"; txt "SU02"; txt "SU01"]);
    (lit "ZonaNombre", [txt "Norte"; txt "Sur"; txt "Norte"]);
    (lit "Botica", [txt "Botica A"; txt "Botica B"; txt "Botica C"]);
    (lit "CodigoCliente", [txt "C1"; txt "C2"; txt "C3"]);
    (lit "NombreCliente", [txt "Ana"; txt "Luis"; txt "Eva"]);
    (lit "Referencias", [txt "r1"; txt "r2"; txt "r3"]);
    (lit "Direccion", [txt "d1"; txt "d2"; txt "d3"]);
    (lit "Lat", [num (-1205) 100; num (-1210) 100; VNaN]);
    (lit "Lng", [num (-7703) 100; num (-7700) 100; num (-7701) 100]) ].

Definition run_clientes (df : Dashboard.table value)
           (s : Dashboard.session value) (zonas_sel boticas_sel : list value)
           (button : bool) : Dashboard.result value :=
  Dashboard.app value_eqb isna value_text value_mean value_sorted
                df s zonas_sel boticas_sel button.

(** The table as [cargar_datos] returns it. *)
Definition loaded_clientes : Dashboard.table value :=
  match Dashboard.cargar_datos isna clientes with
  | Some df => df
  | None => []
  end.

Definition fresh_session : Dashboard.session value :=
  Dashboard.Session None None.

(** What is displayed for zone SU01 of [clientes]: the one client of the
    zone that has both coordinates. *)
Definition rows_su01 : Dashboard.table value :=
  [ (lit "CodigoZona", [txt "SU01"]);
    (lit "ZonaNombre", [txt "Norte"]);
    (lit "Botica", [txt "Botica A"]);
    (lit "CodigoCliente", [txt "C1"]);
    (lit "NombreCliente", [txt "Ana"]);
    (lit "Referencias", [txt "r1"]);
    (lit "Direccion", [txt "d1"]);
    (lit "Lat", [num (-1205) 100]);
    (lit "Lng", [num (-7703) 100]) ].

Definition centre_su01 : value * value :=
  (VFloat (Qred (-1205 # 100)), VFloat (Qred (-7703 # 100))).

Definition marker_a : Dashboard.marker value :=
  Dashboard.Marker (num (-1205) 100, num (-7703) 100) (lit "red")
                   (txt "Botica A")
                   [txt "Botica A"; txt "Norte"; txt "SU01"; txt "C1";
                    txt "Ana"; txt "r1"; txt "d1"].

(* ================================================================= *)
(** ** Proof automation *)

(** Turns boolean tests on code points into arithmetic. *)
Ltac num_tests :=
  repeat match goal with
         | H : _ && _ = true |- _ => apply andb_true_iff in H; destruct H
         | H : _ || _ = true |- _ => apply orb_true_iff in H; destruct H
         | H : (_ =? _) = true |- _ => apply N.eqb_eq in H
         | H : (_ <=? _) = true |- _ => apply N.leb_le in H
         | H : (_ <? _) = true |- _ => apply N.ltb_lt in H
         | H : (_ =? _) = false |- _ => apply N.eqb_neq in H
         | H : (_ <=? _) = false |- _ => apply N.leb_gt in H
         | H : (_ <? _) = false |- _ => apply N.ltb_ge in H
         end.

Ltac refute_test :=
  match goal with
  | |- ?b = false =>
      let E := fresh "E" in
      destruct b eqn:E; [exfalso | reflexivity]
  end.

(** Names the quotient and the remainder of [x] by 64. *)
Ltac by_64 x q r :=
  pose proof (N.div_mod' x 64);
  pose proof (N.mod_lt x 64 ltac:(discriminate));
  set (q := x / 64) in *; set (r := x mod 64) in *;
  clearbody r.

Ltac decide_tests :=
  repeat match goal with
         | |- context [?a =? ?b] =>
             destruct (N.eqb_spec a b); try (exfalso; lia)
         | |- context [?a <? ?b] =>
             destruct (N.ltb_spec a b); try (exfalso; lia)
         | |- context [?a <=? ?b] =>
             destruct (N.leb_spec a b); try (exfalso; lia)
         end.

(* ================================================================= *)
(** * Proofs *)

(** ** Basic facts on strings *)

Lemma str_eqb_eq (a b : str) : str_eqb a b = true <-> a = b.
Proof.
  revert b; induction a as [|x a IH]; intros [|y b]; simpl;
    try (split; (discriminate || reflexivity)).
  rewrite andb_true_iff, N.eqb_eq, IH.
  split; [intros [-> ->]; reflexivity | intros H; inversion H; auto].
Qed.

Lemma str_eqb_refl (a : str) : str_eqb a a = true.
Proof. apply str_eqb_eq; reflexivity. Qed.

Lemma str_eqb_neq (a b : str) : str_eqb a b = false <-> a <> b.
Proof.
  rewrite <- str_eqb_eq. destruct (str_eqb a b); split; congruence.
Qed.

Lemma contains_char_In (c : char) (s : str) :
  contains_char c s = true <-> In c s.
Proof.
  unfold contains_char. rewrite existsb_exists. split.
  - intros (x & Hin & Heq). apply N.eqb_eq in Heq. subst; assumption.
  - intros Hin. exists c. split; [assumption | apply N.eqb_refl].
Qed.

Lemma lstrip_by_app (p : char -> bool) (a : str) (c : char) (t : str) :
  p c = false -> lstrip_by p (a ++ c :: t) = lstrip_by p a ++ c :: t.
Proof.
  intros Hc. induction a as [|x a IH]; simpl.
  - rewrite Hc. reflexivity.
  - destruct (p x); [assumption | reflexivity].
Qed.

Lemma lstrip_by_incl (p : char -> bool) (s : str) (c : char) :
  In c (lstrip_by p s) -> In c s.
Proof.
  induction s as [|x s IH]; simpl; [tauto|].
  destruct (p x); simpl; auto.
Qed.

Lemma rstrip_by_last (p : char -> bool) (s : str) (c : char) :
  p c = false -> rstrip_by p (s ++ [c]) = s ++ [c].
Proof.
  intros Hc. unfold rstrip_by. rewrite rev_app_distr. simpl.
  rewrite Hc. simpl. rewrite rev_involutive. reflexivity.
Qed.

(** Stripping stops at a first and a last character that are kept. *)
Lemma strip_by_guarded (p : char -> bool) (pre body : str) (c c' : char) :
  p c = false -> p c' = false ->
  strip_by p (pre ++ c :: body ++ [c']) = lstrip_by p pre ++ c :: body ++ [c'].
Proof.
  intros Hc Hc'. unfold strip_by. rewrite lstrip_by_app by assumption.
  replace (lstrip_by p pre ++ c :: body ++ [c'])
    with ((lstrip_by p pre ++ c :: body) ++ [c'])
    by (rewrite <- app_assoc; reflexivity).
  apply rstrip_by_last; assumption.
Qed.

Lemma digit_not_space (c : char) : sign_or_digit c = true -> isspace c = false.
Proof.
  intros H. refute_test. unfold sign_or_digit, is_digit, minus_sign in H.
  unfold isspace in E. num_tests; lia.
Qed.

Lemma digit_is_sign_or_digit (c : char) :
  is_digit c = true -> sign_or_digit c = true.
Proof. intros H. unfold sign_or_digit. rewrite H. apply orb_true_r. Qed.

Lemma digit_not_dot (c : char) : sign_or_digit c = true -> (c =? dot) = false.
Proof.
  intros H. refute_test. unfold sign_or_digit, is_digit, minus_sign in H.
  unfold dot in E. num_tests; lia.
Qed.

Lemma digit_not_minus (c : char) : is_digit c = true -> (c =? minus_sign) = false.
Proof.
  intros H. refute_test. unfold is_digit in H. unfold minus_sign in E.
  num_tests; lia.
Qed.

(* ================================================================= *)
(** ** The matcher: what a successful run means, and greedy runs *)

Lemma firstn_consumed (w rest : str) :
  firstn (length (w ++ rest) - length rest) (w ++ rest) = w.
Proof.
  rewrite length_app, Nat.add_sub.
  rewrite firstn_app, Nat.sub_diag, firstn_all. simpl. apply app_nil_r.
Qed.

Lemma star_sound (p : char -> bool) (s : str) (caps : captures) (k : cont)
      (res : outcome) :
  star p s caps k = Some res ->
  exists w rest, s = w ++ rest /\ forallb p w = true /\ k rest caps = Some res.
Proof.
  induction s as [|c t IH]; simpl; intros H.
  - exists [], []. auto.
  - destruct (p c) eqn:Hc.
    + destruct (star p t caps k) as [r|] eqn:Hs.
      * inversion H; subst.
        destruct (IH eq_refl) as (w & rest & -> & Hw & Hk).
        exists (c :: w), rest. simpl. rewrite Hc. auto.
      * exists [], (c :: t). auto.
    + exists [], (c :: t). auto.
Qed.

(** Soundness: a successful run splits the text into what the pattern
    matched and what the continuation accepted. *)
Lemma run_sound (r : regex) :
  forall (s : str) (caps : captures) (k : cont) (res : outcome),
    run r s caps k = Some res ->
    exists w rest caps',
      s = w ++ rest /\ matches r w caps caps' /\ k rest caps' = Some res.
Proof.
  induction r as [|c|p|p|p|r1 IH1|r1 IH1 r2 IH2|n r1 IH1];
    intros s caps k res H; simpl in H.
  - exists [], s, caps. simpl. auto.
  - destruct s as [|x t]; [discriminate|].
    destruct (x =? c) eqn:E; [|discriminate]. apply N.eqb_eq in E. subst.
    exists [c], t, caps. simpl. auto.
  - destruct s as [|x t]; [discriminate|].
    destruct (p x) eqn:E; [|discriminate].
    exists [x], t, caps. simpl. repeat split; eauto.
  - destruct (star_sound _ _ _ _ _ H) as (w & rest & -> & Hw & Hk).
    exists w, rest, caps. simpl. auto.
  - destruct s as [|x t]; [discriminate|].
    destruct (p x) eqn:E; [|discriminate].
    destruct (star_sound _ _ _ _ _ H) as (w & rest & -> & Hw & Hk).
    exists (x :: w), rest, caps. simpl. rewrite E.
    repeat split; auto. discriminate.
  - destruct (run r1 s caps k) as [r|] eqn:Hr.
    + inversion H; subst.
      destruct (IH1 _ _ _ _ Hr) as (w & rest & caps' & -> & Hm & Hk).
      exists w, rest, caps'. simpl. auto.
    + exists [], s, caps. simpl. auto.
  - destruct (IH1 _ _ _ _ H) as (w1 & rest1 & mid & -> & Hm1 & Hk1).
    destruct (IH2 _ _ _ _ Hk1) as (w2 & rest & caps' & -> & Hm2 & Hk).
    exists (w1 ++ w2), rest, caps'. rewrite <- app_assoc.
    repeat split; auto. simpl. exists w1, w2, mid. auto.
  - destruct (IH1 _ _ _ _ H) as (w & rest & mid & -> & Hm & Hk).
    rewrite firstn_consumed in Hk.
    exists w, rest, ((n, w) :: mid). simpl. repeat split; eauto.
Qed.

Lemma match_at_sound (r : regex) (s rest : str) (caps : captures) :
  match_at r s = Some (rest, caps) ->
  exists w, s = w ++ rest /\ matches r w [] caps.
Proof.
  intros H. apply run_sound in H.
  destruct H as (w & rest' & caps' & -> & Hm & Hk).
  inversion Hk; subst. eauto.
Qed.

Lemma search_sound (r : regex) (s rest : str) (caps : captures) :
  search r s = Some (rest, caps) ->
  exists pre w, s = pre ++ w ++ rest /\ matches r w [] caps.
Proof.
  induction s as [|c t IH]; simpl; intros H.
  - destruct (match_at r []) as [res|] eqn:Hm; [|discriminate].
    inversion H; subst. apply match_at_sound in Hm.
    destruct Hm as (w & Hw & Hm). exists [], w. auto.
  - destruct (match_at r (c :: t)) as [res|] eqn:Hm.
    + inversion H; subst. apply match_at_sound in Hm.
      destruct Hm as (w & Hw & Hm). exists [], w. auto.
    + destruct (IH H) as (pre & w & -> & Hm').
      exists (c :: pre), w. auto.
Qed.

(** A greedy run takes a whole stretch of class characters when the
    pattern goes on to succeed right after it. *)
Lemma star_stop (p : char -> bool) (rest : str) (caps : captures) (k : cont) :
  stops p rest -> star p rest caps k = k rest caps.
Proof.
  destruct rest as [|c t]; simpl; [reflexivity|]. intros ->. reflexivity.
Qed.

Lemma star_greedy (p : char -> bool) (w rest : str) (caps : captures)
      (k : cont) (res : outcome) :
  forallb p w = true -> stops p rest -> k rest caps = Some res ->
  star p (w ++ rest) caps k = Some res.
Proof.
  intros Hw Hrest Hk. induction w as [|c w IH]; simpl.
  - rewrite star_stop; assumption.
  - simpl in Hw. apply andb_true_iff in Hw. destruct Hw as [Hc Hw].
    rewrite Hc, (IH Hw). reflexivity.
Qed.

Lemma run_plus_greedy (p : char -> bool) (w rest : str) (caps : captures)
      (k : cont) (res : outcome) :
  w <> [] -> forallb p w = true -> stops p rest -> k rest caps = Some res ->
  run (Plus p) (w ++ rest) caps k = Some res.
Proof.
  intros Hne Hw Hrest Hk. destruct w as [|c w]; [congruence|].
  simpl in Hw. apply andb_true_iff in Hw. destruct Hw as [Hc Hw].
  simpl. rewrite Hc. apply star_greedy; assumption.
Qed.


Lemma ends_number_stops_digit (rest : str) :
  ends_number rest -> stops is_digit rest.
Proof.
  destruct rest as [|c t]; simpl; [auto|]. intros [H _].
  unfold sign_or_digit in H. apply orb_false_iff in H. tauto.
Qed.

Lemma run_number (n : nat) (d : numeral) (rest : str) (caps : captures)
      (k : cont) (res : outcome) :
  signed_decimal d -> ends_number rest ->
  k rest ((n, render d) :: caps) = Some res ->
  run (Grp n number_re) (render d ++ rest) caps k = Some res.
Proof.
  intros [Hd Hi] Hrest Hk.
  unfold digits_only in Hd. apply andb_true_iff in Hd. destruct Hd as [Hip Hfp].
  change (run (Grp n number_re) (render d ++ rest) caps k)
    with (run (Plus sign_or_digit) (render d ++ rest) caps
            (fun s1 c1 =>
               run (Opt (Seq (Chr dot) (Plus is_digit))) s1 c1
                 (fun s' caps' =>
                    k s' ((n, firstn (length (render d ++ rest) - length s')
                                     (render d ++ rest)) :: caps')))).
  pose proof (firstn_consumed (render d) rest) as Hcut.
  set (s := render d ++ rest) in *.
  assert (Hs : s = ((if negative d then [minus_sign] else []) ++ int_digits d)
                   ++ (match frac_digits d with [] => [] | f => dot :: f end ++ rest)).
  { unfold s, render. rewrite <- !app_assoc. reflexivity. }
  rewrite Hs at 1. apply run_plus_greedy.
  - destruct (negative d); [discriminate | assumption].
  - rewrite forallb_app. apply andb_true_iff. split.
    + destruct (negative d); reflexivity.
    + rewrite forallb_forall in *. intros x Hx.
      apply digit_is_sign_or_digit; auto.
  - destruct (frac_digits d) as [|f0 ft]; simpl.
    + destruct rest; simpl in *; tauto.
    + reflexivity.
  - destruct (frac_digits d) as [|f0 ft] eqn:Ef.
    + simpl app.
      assert (Hnone : run (Seq (Chr dot) (Plus is_digit)) rest caps
                (fun s' caps' => k s' ((n, firstn (length s - length s') s) :: caps')) = None).
      { destruct rest as [|c t]; simpl; [reflexivity|].
        destruct Hrest as [_ ->]. reflexivity. }
      cbn [run] in Hnone |- *. rewrite Hnone, Hcut. assumption.
    + simpl in Hfp. apply andb_true_iff in Hfp. destruct Hfp as [Hf0 Hft].
      cbn [run app]. rewrite N.eqb_refl, Hf0.
      rewrite star_greedy with (res := res); auto.
      * apply ends_number_stops_digit; assumption.
      * rewrite Hcut. assumption.
Qed.

Lemma run_cat_cons (r : regex) (rs : list regex) (s : str) (caps : captures)
      (k : cont) :
  run (cat (r :: rs)) s caps k
  = run r s caps (fun s' caps' => run (cat rs) s' caps' k).
Proof. reflexivity. Qed.

Lemma run_chr (c : char) (s : str) (caps : captures) (k : cont) :
  run (Chr c) (c :: s) caps k = k s caps.
Proof. simpl. rewrite N.eqb_refl. reflexivity. Qed.

Lemma run_word (w s : str) (caps : captures) (k : cont) :
  run (word w) (w ++ s) caps k = k s caps.
Proof.
  unfold word. induction w as [|c w IH]; [reflexivity|].
  simpl map. rewrite run_cat_cons. simpl app. rewrite run_chr. apply IH.
Qed.

Lemma render_head (d : numeral) :
  signed_decimal d ->
  exists c t, render d = c :: t /\ sign_or_digit c = true.
Proof.
  intros [Hd Hi]. unfold render.
  destruct (negative d).
  - simpl. eexists _, _. split; [reflexivity|]. reflexivity.
  - destruct (int_digits d) as [|c t] eqn:E; [congruence|].
    simpl. eexists _, _. split; [reflexivity|].
    unfold digits_only in Hd. rewrite E in Hd. simpl in Hd.
    apply andb_true_iff in Hd. destruct Hd as [Hd _].
    apply andb_true_iff in Hd. destruct Hd as [Hd _].
    apply digit_is_sign_or_digit; assumption.
Qed.

Lemma render_not_blank (d : numeral) (rest : str) :
  signed_decimal d -> stops isspace (render d ++ rest).
Proof.
  intros Hd. destruct (render_head d Hd) as (c & t & -> & Hc).
  simpl. apply digit_not_space; assumption.
Qed.

Lemma match_point (lon lat : numeral) :
  signed_decimal lon -> signed_decimal lat ->
  match_at point_re (point_text lon lat)
  = Some ([], [(2%nat, render lat); (1%nat, render lon)]).
Proof.
  intros Hlon Hlat. unfold match_at, point_re.
  change (point_text lon lat)
    with (lit "POINT" ++ [32] ++ 40 :: render lon ++ [32] ++ (render lat ++ [41])).
  rewrite run_cat_cons, run_word.
  rewrite run_cat_cons. apply star_greedy; [reflexivity | reflexivity |].
  rewrite run_cat_cons, run_chr.
  rewrite run_cat_cons. change (run (Star isspace)) with (star isspace).
  rewrite star_stop by (apply render_not_blank; assumption).
  rewrite run_cat_cons. apply run_number; [assumption | simpl; auto |].
  rewrite run_cat_cons.
  apply run_plus_greedy with (w := [32]); [discriminate | reflexivity | |].
  { apply render_not_blank; assumption. }
  rewrite run_cat_cons. apply run_number; [assumption | simpl; auto |].
  rewrite run_cat_cons. change (run (Star isspace)) with (star isspace).
  rewrite star_stop by reflexivity.
  rewrite run_cat_cons, run_chr. reflexivity.
Qed.

Lemma cut_at_dot_digits (ip rest : str) :
  forallb is_digit ip = true ->
  cut_at_dot (ip ++ rest) = (ip ++ fst (cut_at_dot rest), snd (cut_at_dot rest)).
Proof.
  intros H. induction ip as [|c ip IH]; simpl.
  - destruct (cut_at_dot rest); reflexivity.
  - simpl in H. apply andb_true_iff in H. destruct H as [Hc H].
    rewrite (digit_not_dot c (digit_is_sign_or_digit c Hc)), (IH H).
    reflexivity.
Qed.

Lemma py_float_render (d : numeral) :
  signed_decimal d -> py_float (render d) = Some (numeral_value d).
Proof.
  intros [Hd Hi]. unfold digits_only in Hd.
  apply andb_true_iff in Hd. destruct Hd as [Hip Hfp].
  unfold py_float, render, numeral_value.
  assert (Hbody :
    (let (ip, rest) := cut_at_dot (int_digits d ++
                          match frac_digits d with [] => [] | f => dot :: f end) in
     let fp := match rest with Some f => f | None => [] end in
     if forallb is_digit ip && forallb is_digit fp
        && negb ((length ip + length fp =? 0)%nat)
     then Some (decimal_value (negative d) ip fp) else None)
    = Some (decimal_value (negative d) (int_digits d) (frac_digits d))).
  { rewrite cut_at_dot_digits by assumption.
    destruct (frac_digits d) as [|f0 ft] eqn:Ef.
    - simpl. rewrite app_nil_r, Hip. simpl.
      destruct (int_digits d); [congruence | reflexivity].
    - change (cut_at_dot (dot :: f0 :: ft)) with (@nil char, Some (f0 :: ft)).
      cbv zeta. simpl fst. simpl snd.
      rewrite app_nil_r, Hip, Hfp. simpl andb.
      destruct (int_digits d); [congruence | reflexivity]. }
  destruct (negative d).
  - exact Hbody.
  - simpl app. destruct (int_digits d) as [|c t] eqn:Ei; [congruence|].
    simpl in Hip. apply andb_true_iff in Hip. destruct Hip as [Hc Ht].
    simpl app in *. cbv beta iota. rewrite (digit_not_minus c Hc).
    exact Hbody.
Qed.

(* ================================================================= *)
(** ** Coordinates out of a geometry text *)

Lemma search_here (r : regex) (s : str) (res : outcome) :
  match_at r s = Some res -> search r s = Some res.
Proof. intros H. destruct s; simpl; rewrite H; reflexivity. Qed.

Lemma search_skip (r : regex) (pre s : str) :
  (forall x t, In x pre -> match_at r (x :: t) = None) ->
  search r (pre ++ s) = search r s.
Proof.
  induction pre as [|x pre IH]; simpl; intros Hn; [reflexivity|].
  rewrite (Hn x (pre ++ s)) by auto. apply IH. intros y t Hy. apply Hn. auto.
Qed.


Lemma point_needs_P (x : char) (t : str) :
  x <> letter_P -> match_at point_re (x :: t) = None.
Proof.
  intros Hx. apply N.eqb_neq in Hx. unfold match_at, point_re.
  rewrite run_cat_cons. unfold word. simpl map. rewrite run_cat_cons.
  simpl. unfold letter_P in Hx. rewrite Hx. reflexivity.
Qed.

Lemma point_text_shape (lon lat : numeral) :
  point_text lon lat
  = letter_P :: (lit "OINT (" ++ render lon ++ lit " " ++ render lat) ++ [41].
Proof.
  unfold point_text. simpl. rewrite <- !app_assoc. reflexivity.
Qed.


Lemma strip_wkt_point (pre : str) (lon lat : numeral) :
  strip_wkt (pre ++ point_text lon lat) = strip_prefix pre ++ point_text lon lat.
Proof.
  unfold strip_wkt, strip, strip_prefix. rewrite point_text_shape.
  rewrite !strip_by_guarded by reflexivity. reflexivity.
Qed.

Lemma extract_prefixed (pre : str) (lon lat : numeral) :
  ~ In letter_P pre -> signed_decimal lon -> signed_decimal lat ->
  extract_lon_lat_from_wkt (VStr (pre ++ point_text lon lat))
  = (VFloat (numeral_value lat), VFloat (numeral_value lon)).
Proof.
  intros Hpre Hlon Hlat. unfold extract_lon_lat_from_wkt.
  rewrite strip_wkt_point, search_skip.
  - rewrite (search_here _ _ _ (match_point lon lat Hlon Hlat)).
    simpl. rewrite !py_float_render by assumption. reflexivity.
  - intros x t Hx. apply point_needs_P. intros ->. apply Hpre.
    unfold strip_prefix in Hx.
    repeat apply lstrip_by_incl in Hx. assumption.
Qed.

(** C1. For every text [POINT (lon lat)] whose two numbers are signed
    decimal numerals, [extract_lon_lat_from_wkt] returns the pair
    (latitude, longitude), the two numbers in swapped order, each with the
    real value of its numeral. *)
Theorem extract_point_swaps (lon lat : numeral) :
  signed_decimal lon -> signed_decimal lat ->
  extract_lon_lat_from_wkt (VStr (point_text lon lat))
  = (VFloat (numeral_value lat), VFloat (numeral_value lon)).
Proof.
  intros Hlon Hlat. apply (extract_prefixed [] lon lat); auto.
Qed.

(** [POINT (-77.03 -12.05)] gives (-12.05, -77.03). *)
Lemma extract_point_swaps_lima :
  signed_decimal lima_lon /\ signed_decimal lima_lat
  /\ point_text lima_lon lima_lat = lit "POINT (-77.03 -12.05)"
  /\ extract_lon_lat_from_wkt (VStr (lit "POINT (-77.03 -12.05)"))
     = (VFloat (-1205 # 100), VFloat (-7703 # 100)).
Proof.
  assert (H1 : signed_decimal lima_lon) by (split; [reflexivity | discriminate]).
  assert (H2 : signed_decimal lima_lat) by (split; [reflexivity | discriminate]).
  split; [exact H1|]. split; [exact H2|]. split; [reflexivity|].
  exact (extract_point_swaps lima_lon lima_lat H1 H2).
Defined.

(** C9. The pattern is searched for, not matched against the whole text:
    [MULTIPOINT (1 2)] yields the pair (2, 1), and so does every text that
    ends in [POINT (lon lat)] after a prefix without the letter P. *)
Theorem extract_finds_embedded_point :
  extract_lon_lat_from_wkt (VStr (lit "MULTIPOINT (1 2)"))
  = (VFloat (2 # 1), VFloat (1 # 1))
  /\ forall (pre : str) (lon lat : numeral),
       ~ In letter_P pre -> signed_decimal lon -> signed_decimal lat ->
       extract_lon_lat_from_wkt (VStr (pre ++ point_text lon lat))
       = (VFloat (numeral_value lat), VFloat (numeral_value lon)).
Proof.
  split; [reflexivity|]. intros pre lon lat. apply extract_prefixed.
Qed.

(** The prefix [MULTI] before [POINT (1 2)]. *)
Lemma extract_finds_embedded_point_multi :
  ~ In letter_P (lit "MULTI") /\ signed_decimal one /\ signed_decimal two
  /\ lit "MULTI" ++ point_text one two = lit "MULTIPOINT (1 2)"
  /\ extract_lon_lat_from_wkt (VStr (lit "MULTI" ++ point_text one two))
     = (VFloat (numeral_value two), VFloat (numeral_value one)).
Proof.
  assert (H0 : ~ In letter_P (lit "MULTI")).
  { simpl. unfold letter_P. intros H.
    repeat (destruct H as [H|H]; [discriminate H|]). exact H. }
  assert (H1 : signed_decimal one) by (split; [reflexivity | discriminate]).
  assert (H2 : signed_decimal two) by (split; [reflexivity | discriminate]).
  split; [exact H0|]. split; [exact H1|]. split; [exact H2|].
  split; [reflexivity|].
  exact (proj2 extract_finds_embedded_point (lit "MULTI") one two H0 H1 H2).
Defined.

Lemma cut_at_dot_run (b rest : str) :
  forallb sign_or_digit b = true ->
  cut_at_dot (b ++ rest) = (b ++ fst (cut_at_dot rest), snd (cut_at_dot rest)).
Proof.
  intros H. induction b as [|c b IH]; simpl.
  - destruct (cut_at_dot rest); reflexivity.
  - simpl in H. apply andb_true_iff in H. destruct H as [Hc H].
    rewrite (digit_not_dot c Hc), (IH H). reflexivity.
Qed.


Lemma number_re_shape (n : nat) (g : str) (caps caps' : captures) :
  matches (Grp n number_re) g caps caps' ->
  number_shape g /\ caps' = (n, g) :: caps.
Proof.
  simpl. intros (mid & (w1 & w2 & mid' & -> & (Hne & Hw1 & ->) & Hopt) & ->).
  destruct Hopt as [(d1 & f & mid2 & -> & (-> & ->) & (Hf & Hfd & ->)) | (-> & ->)].
  - split; [|reflexivity]. exists w1, (dot :: f). repeat split; auto.
    right. exists f. auto.
  - split; [|reflexivity]. exists w1, []. repeat split; auto.
Qed.

Lemma float_gives_numeral (g : str) (q : Q) :
  number_shape g -> py_float g = Some q ->
  exists d, render d = g /\ digits_only d = true /\ has_digit d.
Proof.
  intros (a & o & -> & Hne & Ha & Ho) Hq.
  destruct a as [|c a]; [congruence|]. clear Hne.
  simpl in Ha. apply andb_true_iff in Ha. destruct Ha as [Hc Ha].
  assert (Hcut : forall b, forallb sign_or_digit b = true ->
            cut_at_dot (b ++ o)
            = (b, match o with [] => None | _ :: f => Some f end)).
  { intros b Hb. rewrite cut_at_dot_run by assumption.
    destruct Ho as [-> | (f & -> & _)].
    - simpl. rewrite app_nil_r. reflexivity.
    - change (cut_at_dot (dot :: f)) with (@nil char, Some f).
      simpl. rewrite app_nil_r. reflexivity. }
  assert (Hbody : forall neg b,
            forallb sign_or_digit b = true ->
            (let (ip, rest) := cut_at_dot (b ++ o) in
             let fp := match rest with Some f => f | None => [] end in
             if forallb is_digit ip && forallb is_digit fp
                && negb ((length ip + length fp =? 0)%nat)
             then Some (decimal_value neg ip fp) else None) = Some q ->
            exists d, render d = (if neg then [minus_sign] else []) ++ b ++ o
                      /\ digits_only d = true /\ has_digit d).
  { intros neg b Hb. rewrite (Hcut b Hb).
    destruct Ho as [-> | (f & -> & Hf & Hfd)]; cbv zeta beta iota.
    - destruct (forallb is_digit b) eqn:Hdb; [|simpl; discriminate].
      destruct b as [|b0 b]; [simpl; discriminate|].
      intros _. exists (Numeral neg (b0 :: b) []).
      unfold render, digits_only, has_digit. simpl int_digits.
      simpl frac_digits. rewrite Hdb. repeat split. left. discriminate.
    - rewrite Hfd.
      destruct (forallb is_digit b) eqn:Hdb; [|simpl; discriminate].
      intros _. exists (Numeral neg b f).
      unfold render, digits_only, has_digit. simpl int_digits.
      simpl frac_digits. rewrite Hdb, Hfd.
      destruct f; [congruence|]. repeat split. right. discriminate. }
  unfold py_float in Hq. simpl app in Hq. cbv beta iota in Hq.
  destruct (c =? minus_sign) eqn:Ec.
  - apply N.eqb_eq in Ec. subst c. apply (Hbody true a Ha Hq).
  - apply (Hbody false (c :: a)); [simpl; rewrite Hc, Ha; reflexivity | exact Hq].
Qed.

Lemma point_re_shape (w : str) (caps : captures) :
  matches point_re w [] caps ->
  exists ws1 ws2 g1 ws3 g2 ws4,
    w = lit "POINT" ++ ws1 ++ [40] ++ ws2 ++ g1 ++ ws3 ++ g2 ++ ws4 ++ [41]
    /\ blank ws1 /\ blank ws2 /\ blank ws3 /\ ws3 <> [] /\ blank ws4
    /\ number_shape g1 /\ number_shape g2
    /\ caps = [(2%nat, g2); (1%nat, g1)].
Proof.
  unfold point_re. cbn [cat matches].
  intros (wP & r1 & c1 & -> & HP & ws1 & r2 & c2 & -> & (Hws1 & ->)
          & wl & r3 & c3 & -> & (-> & ->)
          & ws2 & r4 & c4 & -> & (Hws2 & ->)
          & g1 & r5 & c5 & -> & Hg1
          & ws3 & r6 & c6 & -> & (Hne3 & Hws3 & ->)
          & g2 & r7 & c7 & -> & Hg2
          & ws4 & r8 & c8 & -> & (Hws4 & ->)
          & wr & r9 & c9 & -> & (-> & ->) & (-> & ->)).
  apply number_re_shape in Hg1. destruct Hg1 as [Hg1 ->].
  apply number_re_shape in Hg2. destruct Hg2 as [Hg2 ->].
  assert (EP : wP = lit "POINT" /\ c1 = []).
  { unfold word in HP. simpl in HP.
    destruct HP as (x1 & y1 & m1 & -> & (-> & ->) & x2 & y2 & m2 & -> & (-> & ->)
                    & x3 & y3 & m3 & -> & (-> & ->) & x4 & y4 & m4 & -> & (-> & ->)
                    & x5 & y5 & m5 & -> & (-> & ->) & (-> & ->)).
    split; reflexivity. }
  destruct EP as [-> ->].
  exists ws1, ws2, g1, ws3, g2, ws4. rewrite app_nil_r.
  repeat split; auto.
Qed.

Lemma extract_absent_general (v : value) :
  (forall s, v = VStr s -> ~ parsable_point (strip_wkt s)) ->
  extract_lon_lat_from_wkt v = (VNone, VNone).
Proof.
  intros Hno. destruct v as [s| | |q]; try reflexivity.
  specialize (Hno s eq_refl). unfold extract_lon_lat_from_wkt.
  destruct (search point_re (strip_wkt s)) as [[rest caps]|] eqn:Hs;
    [|reflexivity].
  apply search_sound in Hs. destruct Hs as (pre & w & Ht & Hm).
  apply point_re_shape in Hm.
  destruct Hm as (ws1 & ws2 & g1 & ws3 & g2 & ws4 & -> & B1 & B2 & B3 & N3
                  & B4 & S1 & S2 & ->).
  cbn [group Nat.eqb].
  destruct (py_float g1) as [lon|] eqn:F1; [|reflexivity].
  destruct (py_float g2) as [lat|] eqn:F2; [|reflexivity].
  exfalso. apply Hno.
  destruct (float_gives_numeral g1 lon S1 F1) as (d1 & R1 & D1 & H1).
  destruct (float_gives_numeral g2 lat S2 F2) as (d2 & R2 & D2 & H2).
  exists pre, ws1, ws2, ws3, ws4, rest, d1, d2.
  rewrite R1, R2, Ht. rewrite <- !app_assoc.
  repeat split; auto.
Qed.

(** C6. Whenever the stripped text holds no parsable POINT pattern,
    [extract_lon_lat_from_wkt] returns [(None, None)]; so it does on the
    empty text, on [POINT()], on [LINESTRING (0 0, 1 1)] and on every value
    that is not a string. The function has a result on every input: the
    [ValueError] of [float] never leaves it. *)
Theorem extract_absent :
  (forall v,
      (forall s, v = VStr s -> ~ parsable_point (strip_wkt s)) ->
      extract_lon_lat_from_wkt v = (VNone, VNone))
  /\ extract_lon_lat_from_wkt (VStr (lit "")) = (VNone, VNone)
  /\ extract_lon_lat_from_wkt (VStr (lit "POINT()")) = (VNone, VNone)
  /\ extract_lon_lat_from_wkt (VStr (lit "LINESTRING (0 0, 1 1)"))
     = (VNone, VNone)
  /\ extract_lon_lat_from_wkt VNone = (VNone, VNone)
  /\ extract_lon_lat_from_wkt VNaN = (VNone, VNone)
  /\ (forall q, extract_lon_lat_from_wkt (VFloat q) = (VNone, VNone)).
Proof.
  split; [exact extract_absent_general|]. repeat split.
Qed.

(** The empty text holds no POINT pattern. *)
Lemma extract_absent_empty :
  (forall s, VStr (lit "") = VStr s -> ~ parsable_point (strip_wkt s))
  /\ extract_lon_lat_from_wkt (VStr (lit "")) = (VNone, VNone).
Proof.
  assert (H : forall s, VStr (lit "") = VStr s -> ~ parsable_point (strip_wkt s)).
  { intros s E. inversion E; subst s.
    intros (pre & ws1 & ws2 & ws3 & ws4 & post & lon & lat & Ht & _).
    change (strip_wkt []) with (@nil char) in Ht.
    symmetry in Ht. apply app_eq_nil in Ht. destruct Ht as [_ Ht].
    discriminate Ht. }
  split; [exact H|].
  exact (proj1 extract_absent (VStr (lit "")) H).
Defined.

(* ================================================================= *)
(** ** Description fields and encoding repair *)

(** The loops never run out of fuel: more fuel changes nothing. *)
Lemma sub_loop_fuel (r : regex) (repl : str) (f1 : nat) :
  forall (f2 : nat) (s : str),
    (length s < f1)%nat -> (length s < f2)%nat ->
    sub_loop f1 r repl s = sub_loop f2 r repl s.
Proof.
  induction f1 as [|f1 IH]; intros f2 s H1 H2; [lia|].
  destruct f2 as [|f2]; [lia|]. simpl.
  destruct (match_at r s) as [[rest caps]|].
  - destruct (length rest <? length s)%nat eqn:L.
    + apply Nat.ltb_lt in L. f_equal. apply IH; lia.
    + destruct s as [|c t]; [reflexivity|]. simpl in H1, H2.
      do 2 f_equal. apply IH; lia.
  - destruct s as [|c t]; [reflexivity|]. simpl in H1, H2.
    f_equal. apply IH; lia.
Qed.

Lemma sub_fuel (r : regex) (repl s : str) (fuel : nat) :
  (length s < fuel)%nat -> sub_loop fuel r repl s = sub r repl s.
Proof. intros H. unfold Re.sub. apply sub_loop_fuel; lia. Qed.

Lemma split_loop_fuel (sep : str) (f1 : nat) :
  sep <> [] ->
  forall (f2 : nat) (s cur : str),
    (length s <= f1)%nat -> (length s <= f2)%nat ->
    split_loop f1 sep s cur = split_loop f2 sep s cur.
Proof.
  intros Hsep. induction f1 as [|f1 IH]; intros f2 s cur H1 H2.
  - destruct s; [|simpl in H1; lia]. destruct f2; reflexivity.
  - destruct f2 as [|f2].
    + destruct s; [reflexivity | simpl in H2; lia].
    + simpl. destruct s as [|c t]; [reflexivity|].
      simpl in H1, H2.
      assert (Hskip : (length (skipn (length sep) (c :: t)) <= length t)%nat).
      { destruct sep as [|x sep]; [congruence|]. simpl.
        rewrite length_skipn. lia. }
      destruct (startswith sep (c :: t)).
      * f_equal. apply IH; lia.
      * apply IH; lia.
Qed.

Lemma split_fuel (sep s : str) (fuel : nat) :
  sep <> [] -> (length s <= fuel)%nat ->
  split_loop fuel sep s [] = split sep s.
Proof. intros Hsep H. unfold split. apply split_loop_fuel; auto. Qed.

Lemma pad_loop_fills (fuel : nat) (p : list str) :
  (5 - length p <= fuel)%nat ->
  pad_loop fuel p = p ++ repeat x_field (5 - length p).
Proof.
  revert p. induction fuel as [|f IH]; intros p Hf; cbn [pad_loop].
  - replace (5 - length p)%nat with 0%nat by lia. simpl.
    rewrite app_nil_r. reflexivity.
  - destruct (length p <? 5)%nat eqn:E.
    + apply Nat.ltb_lt in E.
      assert (L : length (p ++ [x_field]) = (length p + 1)%nat)
        by (rewrite length_app; reflexivity).
      rewrite IH by (rewrite L; lia). rewrite L.
      replace (5 - length p)%nat with (S (5 - (length p + 1)))%nat by lia.
      simpl. rewrite <- app_assoc. reflexivity.
    + apply Nat.ltb_ge in E.
      replace (5 - length p)%nat with 0%nat by lia. simpl.
      rewrite app_nil_r. reflexivity.
Qed.

Lemma five_fields_length (p : list str) : length (five_fields p) = 5%nat.
Proof.
  unfold five_fields.
  destruct (length p <? 5)%nat eqn:E1.
  - apply Nat.ltb_lt in E1. rewrite length_app, repeat_length. lia.
  - apply Nat.ltb_ge in E1. destruct (5 <? length p)%nat eqn:E2.
    + apply Nat.ltb_lt in E2. rewrite length_app, length_firstn.
      cbn [length]. lia.
    + apply Nat.ltb_ge in E2. lia.
Qed.

Lemma split_standard_description_spec (desc : value) :
  split_standard_description desc
  = match desc with
    | VStr d => if is_empty (strip d) then repeat x_field 5
                else five_fields (segments d)
    | _ => repeat x_field 5
    end.
Proof.
  destruct desc as [d| | |q]; try reflexivity.
  unfold split_standard_description. destruct (is_empty (strip d)); [reflexivity|].
  fold (segments d). cbv zeta. rewrite pad_loop_fills.
  - unfold five_fields.
    destruct (5 <? length (segments d))%nat eqn:E2.
    + apply Nat.ltb_lt in E2.
      assert (L : length (firstn 4 (segments d)
                          ++ [join separator (skipn 4 (segments d))]) = 5%nat)
        by (rewrite length_app, length_firstn; cbn [length]; lia).
      rewrite L. simpl. rewrite app_nil_r.
      destruct (length (segments d) <? 5)%nat eqn:E1; [|reflexivity].
      apply Nat.ltb_lt in E1. lia.
    + destruct (length (segments d) <? 5)%nat eqn:E1; [reflexivity|].
      apply Nat.ltb_ge in E1. apply Nat.ltb_ge in E2.
      replace (5 - length (segments d))%nat with 0%nat by lia.
      simpl. apply app_nil_r.
  - lia.
Qed.

Lemma split_standard_description_length (desc : value) :
  length (split_standard_description desc) = 5%nat.
Proof.
  rewrite split_standard_description_spec.
  destruct desc as [d| | |q]; try reflexivity.
  destruct (is_empty (strip d)); [reflexivity | apply five_fields_length].
Qed.

(** C4. [split_standard_description] returns exactly five fields on every
    input: five [x] for a value that is not a string or a blank text;
    otherwise the segments, padded with [x] when fewer than five, and with
    the fifth and later segments joined by the separator into the fifth
    field when more than five. *)
Theorem split_description_five_fields (desc : value) :
  length (split_standard_description desc) = 5%nat
  /\ split_standard_description desc
     = match desc with
       | VStr d => if is_empty (strip d) then repeat x_field 5
                   else five_fields (segments d)
       | _ => repeat x_field 5
       end
  /\ split_standard_description (VStr (lit "A - B - C - D - E - F - G"))
     = [lit "A"; lit "B"; lit "C"; lit "D"; lit "E - F - G"]
  /\ split_standard_description (VStr (lit "A - B"))
     = [lit "A"; lit "B"; lit "x"; lit "x"; lit "x"]
  /\ split_standard_description (VStr (lit ""))
     = [lit "x"; lit "x"; lit "x"; lit "x"; lit "x"].
Proof.
  split; [apply split_standard_description_length|].
  split; [apply split_standard_description_spec|].
  repeat split; vm_compute; reflexivity.
Qed.

Lemma fix_mojibake_clean (s : str) :
  ~ In A_tilde s -> ~ In A_circumflex s -> fix_mojibake_str s = s.
Proof.
  intros H1 H2. unfold fix_mojibake_str.
  destruct (contains_char A_tilde s) eqn:E1.
  - apply contains_char_In in E1. tauto.
  - destruct (contains_char A_circumflex s) eqn:E2; [|reflexivity].
    apply contains_char_In in E2. tauto.
Qed.

(** C7. A text with neither of the two telltale characters is returned
    unchanged by [fix_mojibake_text], which is therefore idempotent on it. *)
Theorem repair_keeps_clean_text (s : str) :
  ~ In A_tilde s -> ~ In A_circumflex s ->
  fix_mojibake_text (VStr s) = VStr s
  /\ fix_mojibake_text (fix_mojibake_text (VStr s)) = fix_mojibake_text (VStr s).
Proof.
  intros H1 H2. simpl. rewrite !fix_mojibake_clean by assumption. auto.
Qed.

(** [descripción], correctly encoded, is left alone. *)
Lemma repair_keeps_clean_text_descripcion :
  ~ In A_tilde descripcion_utf8 /\ ~ In A_circumflex descripcion_utf8
  /\ fix_mojibake_text (VStr descripcion_utf8) = VStr descripcion_utf8.
Proof.
  assert (H1 : ~ In A_tilde descripcion_utf8).
  { intros H. apply contains_char_In in H. discriminate H. }
  assert (H2 : ~ In A_circumflex descripcion_utf8).
  { intros H. apply contains_char_In in H. discriminate H. }
  split; [exact H1|]. split; [exact H2|].
  exact (proj1 (repair_keeps_clean_text descripcion_utf8 H1 H2)).
Defined.

Lemma fix_mojibake_telltale (s : str) :
  In A_tilde s \/ In A_circumflex s ->
  fix_mojibake_str s = match round_trip s with Some t => t | None => s end.
Proof.
  intros H. unfold fix_mojibake_str, round_trip.
  assert (E : contains_char A_tilde s || contains_char A_circumflex s = true).
  { apply orb_true_iff. rewrite !contains_char_In. assumption. }
  rewrite E. destruct (latin1_encode s); reflexivity.
Qed.

Lemma fix_mojibake_fallback (s : str) :
  round_trip s = None -> fix_mojibake_str s = s.
Proof.
  unfold fix_mojibake_str, round_trip. intros H.
  destruct (contains_char A_tilde s || contains_char A_circumflex s);
    [|reflexivity].
  destruct (latin1_encode s); [rewrite H|]; reflexivity.
Qed.


(** C8. On a text with a telltale character [fix_mojibake_text] returns
    the Latin-1 bytes of the text decoded as UTF-8 when both steps succeed,
    and the text itself when either fails; a value that is not a string is
    returned as it is. The function has a result on every input. *)
Theorem repair_round_trip_or_original :
  (forall s, In A_tilde s \/ In A_circumflex s ->
             fix_mojibake_text (VStr s)
             = VStr (match round_trip s with Some t => t | None => s end))
  /\ (forall s, round_trip s = None -> fix_mojibake_text (VStr s) = VStr s)
  /\ (forall v, fix_mojibake_text v
                = match v with VStr s => VStr (fix_mojibake_str s) | _ => v end)
  /\ fix_mojibake_text (VStr descripcion_mojibake) = VStr descripcion_utf8
  /\ fix_mojibake_text (VStr [A_tilde]) = VStr [A_tilde]
  /\ fix_mojibake_text (VStr [A_circumflex; euro_sign])
     = VStr [A_circumflex; euro_sign].
Proof.
  split; [intros s H; simpl; rewrite fix_mojibake_telltale by assumption;
          reflexivity|].
  split; [intros s H; simpl; rewrite fix_mojibake_fallback by assumption;
          reflexivity|].
  split; [intros v; destruct v; reflexivity|].
  repeat split; vm_compute; reflexivity.
Qed.

(** A lone [Ã] cannot be decoded: the text comes back as it was. *)
Lemma repair_round_trip_or_original_lone :
  In A_tilde [A_tilde] /\ round_trip [A_tilde] = None
  /\ fix_mojibake_text (VStr [A_tilde]) = VStr [A_tilde].
Proof.
  assert (H1 : In A_tilde [A_tilde]) by (left; reflexivity).
  assert (H2 : round_trip [A_tilde] = None) by reflexivity.
  split; [exact H1|]. split; [exact H2|].
  exact (proj1 (proj2 repair_round_trip_or_original) [A_tilde] H2).
Defined.

Lemma utf8_decode_encode_char (c : char) (rest : list byte) :
  scalar c ->
  utf8_decode (utf8_encode_char c ++ rest) = push c (utf8_decode rest).
Proof.
  intros [Hmax Hsur]. unfold utf8_encode_char.
  destruct (N.ltb_spec c 128).
  - simpl. destruct (N.ltb_spec c 128); [reflexivity | exfalso; lia].
  - by_64 c q1 r1. destruct (N.ltb_spec c 2048).
    + clearbody q1. cbn [app utf8_decode]. unfold is_cont. decide_tests.
      cbn [andb]. f_equal. lia.
    + by_64 q1 q2 r2. destruct (N.ltb_spec c 65536).
      * clearbody q2. clearbody q1.
        cbn [app utf8_decode]. unfold is_cont, in_range. decide_tests;
          cbn [andb]; f_equal; lia.
      * by_64 q2 q3 r3. clearbody q3. clearbody q2. clearbody q1.
        cbn [app utf8_decode]. unfold is_cont, in_range. decide_tests;
          cbn [andb]; f_equal; lia.
Qed.

Lemma utf8_decode_encode (s : str) :
  Forall scalar s -> utf8_decode (utf8_encode s) = Some s.
Proof.
  induction 1 as [|c s Hc Hs IH]; [reflexivity|].
  unfold utf8_encode in *. simpl flat_map.
  rewrite utf8_decode_encode_char by assumption. rewrite IH. reflexivity.
Qed.

Lemma utf8_encode_bytes (s : str) :
  Forall scalar s -> forallb (fun b => b <? 256) (utf8_encode s) = true.
Proof.
  induction 1 as [|c s Hc Hs IH]; [reflexivity|].
  unfold utf8_encode in *. cbn [flat_map]. rewrite forallb_app.
  apply andb_true_iff. split; [|exact IH]. clear IH.
  destruct Hc as [Hmax Hsur]. unfold utf8_encode_char.
  destruct (N.ltb_spec c 128).
  - cbn [forallb]. decide_tests. reflexivity.
  - by_64 c q1 r1. destruct (N.ltb_spec c 2048).
    + clearbody q1. cbn [forallb]. decide_tests. reflexivity.
    + by_64 q1 q2 r2. destruct (N.ltb_spec c 65536).
      * clearbody q2. clearbody q1. cbn [forallb]. decide_tests. reflexivity.
      * by_64 q2 q3 r3. clearbody q3. clearbody q2. clearbody q1.
        cbn [forallb]. decide_tests. reflexivity.
Qed.

(** Text that was encoded as UTF-8 and read as Latin-1 is restored,
    provided the misreading shows one of the two telltale characters. *)
Lemma fix_mojibake_restores (s : str) :
  Forall scalar s ->
  In A_tilde (utf8_encode s) \/ In A_circumflex (utf8_encode s) ->
  fix_mojibake_text (VStr (utf8_encode s)) = VStr s.
Proof.
  intros Hs Htell. simpl. f_equal. unfold fix_mojibake_str.
  assert (E : contains_char A_tilde (utf8_encode s)
              || contains_char A_circumflex (utf8_encode s) = true).
  { apply orb_true_iff. rewrite !contains_char_In. assumption. }
  rewrite E. unfold latin1_encode. rewrite utf8_encode_bytes by assumption.
  rewrite utf8_decode_encode by assumption. reflexivity.
Qed.

(* ================================================================= *)
(** ** Column detection and the runs of the script *)

Lemma assoc_get_set_same {V : Type} (d : list (str * V)) (k : str) (v : V) :
  assoc_get (assoc_set d k v) k = Some v.
Proof.
  induction d as [|[k' v'] d IH]; simpl.
  - rewrite str_eqb_refl. reflexivity.
  - destruct (str_eqb k' k) eqn:E; simpl; rewrite E; auto.
Qed.

Lemma assoc_get_set_other {V : Type} (d : list (str * V)) (k k' : str) (v : V) :
  k <> k' -> assoc_get (assoc_set d k v) k' = assoc_get d k'.
Proof.
  intros Hk. induction d as [|[k0 v0] d IH]; simpl.
  - apply str_eqb_neq in Hk. rewrite Hk. reflexivity.
  - destruct (str_eqb k0 k) eqn:E; simpl.
    + apply str_eqb_eq in E. subst k0.
      apply str_eqb_neq in Hk. rewrite Hk. reflexivity.
    + rewrite IH. reflexivity.
Qed.

Lemma assoc_set_fresh {V : Type} (d : list (str * V)) (k : str) (v : V) :
  ~ In k (map fst d) -> assoc_set d k v = d ++ [(k, v)].
Proof.
  induction d as [|[k' v'] d IH]; simpl; intros Hn; [reflexivity|].
  destruct (str_eqb k' k) eqn:E.
  - apply str_eqb_eq in E. tauto.
  - rewrite IH by tauto. reflexivity.
Qed.

Lemma assoc_get_in {V : Type} (d : list (str * V)) (k : str) :
  In k (map fst d) -> exists v, assoc_get d k = Some v.
Proof.
  induction d as [|[k' v'] d IH]; simpl; [tauto|]. intros [->|H].
  - rewrite str_eqb_refl. eauto.
  - destruct (str_eqb k' k); eauto.
Qed.

(** [key in [k1, k2, ...]] is equality with one of the keywords. *)
Lemma in_list_In (k : str) (l : list str) : in_list k l = true <-> In k l.
Proof.
  unfold in_list. rewrite existsb_exists. split.
  - intros (x & Hin & E). apply str_eqb_eq in E. subst. exact Hin.
  - intros Hin. exists k. split; [exact Hin | apply str_eqb_refl].
Qed.

Section Detection.

Variable lower : str -> str.


Lemma fold_cols_lower (l : list str) (acc : list (str * str)) :
  NoDup (map fst acc ++ map lower l) ->
  fold_left (fun d c => assoc_set d (lower c) c) l acc = acc ++ keyed lower l.
Proof.
  revert acc. induction l as [|c l IH]; intros acc Hnd; simpl.
  - rewrite app_nil_r. reflexivity.
  - simpl in Hnd. rewrite assoc_set_fresh.
    + rewrite IH.
      * rewrite <- app_assoc. reflexivity.
      * rewrite map_app. simpl. rewrite <- app_assoc. exact Hnd.
    + apply NoDup_remove_2 in Hnd. intros Hin. apply Hnd.
      apply in_or_app. left. assumption.
Qed.

Lemma cols_lower_distinct (df : frame) :
  NoDup (map lower (columns df)) -> cols_lower lower df = keyed lower (columns df).
Proof.
  intros H. unfold cols_lower. rewrite fold_cols_lower; [reflexivity|].
  exact H.
Qed.

Lemma first_key_keyed (test : str -> bool) (l : list str) :
  first_key test (keyed lower l) = find (fun c => test (lower c)) l.
Proof.
  unfold first_key. induction l as [|c l IH]; simpl; [reflexivity|].
  destruct (test (lower c)); [reflexivity | exact IH].
Qed.

(** Every entry of [cols_lower] is a column under its lowercased name. *)
Lemma cols_lower_entries (df : frame) (k c : str) :
  In (k, c) (cols_lower lower df) -> k = lower c /\ In c (columns df).
Proof.
  unfold cols_lower.
  assert (G : forall l acc,
             (forall k c, In (k, c) acc -> k = lower c /\ In c (columns df)) ->
             (forall c, In c l -> In c (columns df)) ->
             forall k c,
               In (k, c) (fold_left (fun d c => assoc_set d (lower c) c) l acc) ->
               k = lower c /\ In c (columns df)).
  { induction l as [|x l IH]; intros acc Hacc Hl k0 c0; simpl; [apply Hacc|].
    apply IH; [|intros; apply Hl; simpl; auto].
    clear k0 c0. intros k0 c0.
    assert (Hx : In x (columns df)) by (apply Hl; simpl; auto).
    clear IH Hl. induction acc as [|[k1 c1] acc IHacc]; simpl.
    - intros [E|[]]. inversion E; subst. auto.
    - destruct (str_eqb k1 (lower x)) eqn:E; simpl.
      + apply str_eqb_eq in E. intros [E'|Hin].
        * inversion E'; subst. auto.
        * apply Hacc. simpl. auto.
      + intros [E'|Hin].
        * apply Hacc. simpl. auto.
        * apply IHacc; [|assumption]. intros; apply Hacc; simpl; auto. }
  apply G; [intros ? ? [] | auto].
Qed.

Lemma first_key_entry (test : str -> bool) (d : list (str * str)) (c : str) :
  first_key test d = Some c -> exists k, In (k, c) d /\ test k = true.
Proof.
  unfold first_key. destruct (find _ d) as [[k c']|] eqn:E; [|discriminate].
  intros H. inversion H; subst. apply find_some in E. simpl in E.
  exists k. exact E.
Qed.

End Detection.

(** C3, as amended. When the lowercased column names are distinct: the
    geometry and the description column are the first column whose
    lowercased name contains one of the keywords; the label and the address
    column are the first column whose lowercased name is one of the
    keywords; without such a label column the first column other than the
    geometry column is taken. *)
Theorem column_detection (lower : str -> str) (df : frame) :
  NoDup (map lower (columns df)) ->
  wkt_by_name lower df
  = find (fun c => contains_any wkt_keywords (lower c)) (columns df)
  /\ find_descr_col lower df
     = find (fun c => contains_any descr_keywords (lower c)) (columns df)
  /\ (forall wkt_col,
        find_nombre_col lower df wkt_col
        = match find (fun c => in_list (lower c) nombre_keywords) (columns df) with
          | Some c => Some c
          | None => hd_error (filter (fun c => negb (str_eqb c wkt_col))
                                     (columns df))
          end)
  /\ find_direccion_col lower df
     = find (fun c => in_list (lower c) direccion_keywords) (columns df).
Proof.
  intros Hnd. unfold wkt_by_name, find_descr_col, find_nombre_col,
    find_direccion_col.
  rewrite (cols_lower_distinct lower df Hnd), !first_key_keyed. auto.
Qed.

Lemma column_detection_address_table :
  NoDup (map ascii_lower (columns address_table))
  /\ find_direccion_col ascii_lower address_table
     = find (fun c => in_list (ascii_lower c) direccion_keywords)
            (columns address_table).
Proof.
  assert (H : NoDup (map ascii_lower (columns address_table))).
  { repeat constructor; simpl; intros H;
      repeat (destruct H as [H|H]; [discriminate H|]); exact H. }
  split; [exact H|].
  exact (proj2 (proj2 (proj2 (column_detection ascii_lower address_table H)))).
Defined.

(** C3 as stated fails: the column [Home Address], whose lowercased name
    contains [address] without being equal to it, is not taken as the
    address column, and the output has an empty [Direccion]. *)
Lemma address_substring_not_detected :
  contains (lit "address") (ascii_lower (lit "Home Address")) = true
  /\ ascii_lower (lit "Home Address") <> lit "address"
  /\ find_direccion_col ascii_lower address_table = None
  /\ exists tr final,
       convert_mymaps_csv ascii_lower ascii_upper repr_unused address_table
       = (tr, inl final)
       /\ assoc_get final (lit "Direccion") = Some [VStr []].
Proof.
  split; [reflexivity|]. split; [discriminate|]. split; [reflexivity|].
  eexists _, _. split; vm_compute; reflexivity.
Qed.

(** C5. When the input file is absent, or when neither the column names
    nor the sample values reveal a geometry column, the script stops with
    exit status 1 after reporting one error, and writes no output file. *)
Theorem fatal_input_errors (lower upper : str -> str) (float_repr : Q -> str) :
  fatal (script lower upper float_repr None)
  /\ forall df,
       wkt_by_name lower df = None ->
       wkt_by_sample upper float_repr df = None ->
       fatal (script lower upper float_repr (Some df)).
Proof.
  split.
  - repeat split.
  - intros df H1 H2. unfold script, convert_mymaps_csv, find_wkt_col.
    rewrite H1, H2. repeat split.
Qed.

Lemma fatal_input_errors_no_geometry :
  wkt_by_name ascii_lower no_geometry = None
  /\ wkt_by_sample ascii_upper repr_unused no_geometry = None
  /\ fatal (script ascii_lower ascii_upper repr_unused (Some no_geometry)).
Proof.
  assert (H1 : wkt_by_name ascii_lower no_geometry = None) by reflexivity.
  assert (H2 : wkt_by_sample ascii_upper repr_unused no_geometry = None)
    by reflexivity.
  split; [exact H1|]. split; [exact H2|].
  exact (proj2 (fatal_input_errors ascii_lower ascii_upper repr_unused)
               no_geometry H1 H2).
Defined.

Lemma bind_inl {A B : Type} (m : M A) (f : A -> M B) (tr : list event) (b : B) :
  bind m f = (tr, inl b) ->
  exists tr1 a tr2, m = (tr1, inl a) /\ f a = (tr2, inl b) /\ tr = tr1 ++ tr2.
Proof.
  destruct m as [tr1 [a|h]]; simpl; [|discriminate].
  destruct (f a) as [tr2 r] eqn:E. intros H. inversion H; subst.
  exists tr1, a, tr2. auto.
Qed.

Lemma bind_ret {A B : Type} (a : A) (f : A -> M B) : bind (ret a) f = f a.
Proof. unfold bind, ret. destruct (f a). reflexivity. Qed.

Lemma getitem_inl (df : frame) (c : option str) (tr : list event) (col : column) :
  getitem df c = (tr, inl col) ->
  tr = [] /\ exists name, c = Some name /\ assoc_get df name = Some col.
Proof.
  unfold getitem. destruct c as [name|]; [|discriminate].
  destruct (assoc_get df name) as [col'|] eqn:E; [|discriminate].
  intros H. inversion H; subst. eauto.
Qed.

Lemma getitem_some (df : frame) (name : str) (col : column) :
  assoc_get df name = Some col -> getitem df (Some name) = ret col.
Proof. intros H. unfold getitem. rewrite H. reflexivity. Qed.

Lemma assoc_set_keeps_keys {V : Type} (d : list (str * V)) (k k' : str) (v : V) :
  In k' (map fst d) -> In k' (map fst (assoc_set d k v)).
Proof.
  induction d as [|[k0 v0] d IH]; simpl; [tauto|].
  destruct (str_eqb k0 k); simpl; tauto.
Qed.

Section SingleColumn.

Variable lower upper : str -> str.
Variable float_repr : Q -> str.

(** C2 fails on a table that has the geometry column only: the label
    column is then [None], line 166 raises [KeyError], and nothing is
    written, whatever the number of rows. *)
Theorem single_column_table_raises (name : str) (cells : column) :
  in_list (lower name) nombre_keywords = false ->
  find_wkt_col lower upper float_repr [(name, cells)] <> None ->
  exists tr,
    convert_mymaps_csv lower upper float_repr [(name, cells)] = (tr, inr KeyError)
    /\ existsb is_output_event tr = false.
Proof.
  intros Hn Hw. unfold convert_mymaps_csv.
  assert (Ecl : cols_lower lower [(name, cells)] = [(lower name, name)])
    by reflexivity.
  assert (Ew : find_wkt_col lower upper float_repr [(name, cells)] = Some name).
  { revert Hw. unfold find_wkt_col, wkt_by_name, wkt_by_sample. rewrite Ecl.
    unfold first_key. cbn [find fst columns map assoc_get].
    destruct (contains_any wkt_keywords (lower name)); [reflexivity|].
    rewrite str_eqb_refl.
    destruct (looks_like_point upper float_repr cells); [reflexivity|].
    congruence. }
  rewrite Ew.
  assert (En : find_nombre_col lower [(name, cells)] name = None).
  { unfold find_nombre_col. rewrite Ecl. unfold first_key.
    cbn [find fst columns map filter]. rewrite Hn, str_eqb_refl. reflexivity. }
  rewrite En. unfold ensure_descr.
  destruct (find_descr_col lower [(name, cells)]) as [c|].
  - rewrite bind_ret. unfold add_coordinates. simpl fst.
    rewrite (getitem_some [(name, cells)] name cells)
      by (simpl; rewrite str_eqb_refl; reflexivity).
    rewrite !bind_ret. simpl snd. unfold repair_texts.
    exists []. split; reflexivity.
  - set (df1 := assoc_set [(name, cells)] descr_missing
                         (repeat (VStr []) (nrows [(name, cells)]))).
    destruct (assoc_get_in df1 name) as [col Hcol].
    { apply assoc_set_keeps_keys. simpl. auto. }
    exists [EPrint MNoDescrColumn].
    cbn [bind emit ret fst snd app]. unfold add_coordinates.
    rewrite (getitem_some df1 name col Hcol).
    cbn [bind emit ret fst snd app]. split; reflexivity.
Qed.

End SingleColumn.

Lemma single_column_table_raises_wkt :
  in_list (ascii_lower (lit "WKT")) nombre_keywords = false
  /\ find_wkt_col ascii_lower ascii_upper repr_unused geometry_only <> None
  /\ exists tr,
       convert_mymaps_csv ascii_lower ascii_upper repr_unused geometry_only
       = (tr, inr KeyError)
       /\ existsb is_output_event tr = false.
Proof.
  assert (H1 : in_list (ascii_lower (lit "WKT")) nombre_keywords = false)
    by reflexivity.
  assert (H2 : find_wkt_col ascii_lower ascii_upper repr_unused geometry_only
               <> None) by discriminate.
  split; [exact H1|]. split; [exact H2|].
  exact (single_column_table_raises ascii_lower ascii_upper repr_unused
           (lit "WKT") _ H1 H2).
Defined.

Section Description.

Variable lower upper : str -> str.
Variable float_repr : Q -> str.


Hypothesis lower_ascii : lower_on_ascii lower.

Lemma descr_found_in_columns (df : frame) (c : str) :
  find_descr_col lower df = Some c ->
  In c (columns df) /\ contains_any descr_keywords (lower c) = true.
Proof.
  intros H. apply first_key_entry in H. destruct H as (k & Hin & Hk).
  apply cols_lower_entries in Hin. destruct Hin as [-> Hc]. auto.
Qed.

Lemma descr_name_not_coordinate (df : frame) :
  descr_name lower df <> lit "Lat" /\ descr_name lower df <> lit "Lng".
Proof.
  unfold descr_name. destruct (find_descr_col lower df) as [c|] eqn:E.
  - apply descr_found_in_columns in E. destruct E as [_ E].
    split; intros ->; rewrite lower_ascii in E by reflexivity;
      vm_compute in E; discriminate.
  - split; discriminate.
Qed.

Lemma ensure_descr_inl (df : frame) (tr : list event) (st : frame * str) :
  ensure_descr lower df = (tr, inl st) ->
  snd st = descr_name lower df
  /\ assoc_get (fst st) (descr_name lower df) = Some (descr_source lower df).
Proof.
  unfold ensure_descr, descr_name, descr_source.
  destruct (find_descr_col lower df) as [c|] eqn:E.
  - intros H. inversion H; subst. simpl. split; [reflexivity|].
    apply descr_found_in_columns in E. destruct E as [Hin _].
    destruct (assoc_get_in df c Hin) as [col ->]. reflexivity.
  - intros H. inversion H; subst. simpl. split; [reflexivity|].
    apply assoc_get_set_same.
Qed.

Lemma add_coordinates_inl (df : frame) (w : str) (tr : list event) (df1 : frame) :
  add_coordinates float_repr df w = (tr, inl df1) ->
  forall k, k <> lit "Lat" -> k <> lit "Lng" -> assoc_get df1 k = assoc_get df k.
Proof.
  unfold add_coordinates. intros H.
  apply bind_inl in H. destruct H as (t1 & cells & t2 & _ & H & _).
  inversion H; subst. intros k H1 H2.
  rewrite assoc_get_set_other by (intros E; apply H2; symmetry; exact E).
  rewrite assoc_get_set_other by (intros E; apply H1; symmetry; exact E).
  reflexivity.
Qed.

Lemma repair_texts_inl (df : frame) (nc : option str) (dc : str)
      (tr : list event) (df2 : frame) (src : column) :
  repair_texts float_repr df nc dc = (tr, inl df2) ->
  assoc_get df dc = Some src ->
  exists n,
    nc = Some n
    /\ assoc_get df2 dc
       = Some (map (fun v => Nat.iter (if str_eqb n dc then 2 else 1)
                                      (repair_cell float_repr) v) src).
Proof.
  unfold repair_texts. intros H Hsrc.
  apply bind_inl in H. destruct H as (t1 & ncells & t2 & Hn & H & _).
  apply getitem_inl in Hn. destruct Hn as (_ & n & -> & Hn).
  exists n. split; [reflexivity|].
  apply bind_inl in H. destruct H as (t3 & dcells & t4 & Hd & H & _).
  apply getitem_inl in Hd. destruct Hd as (_ & dc' & Edc & Hd).
  inversion Edc; subst dc'. inversion H; subst.
  rewrite assoc_get_set_same. f_equal.
  destruct (str_eqb n dc) eqn:E.
  - apply str_eqb_eq in E. subst n.
    rewrite assoc_get_set_same in Hd. inversion Hd; subst.
    rewrite Hsrc in Hn. inversion Hn; subst.
    unfold repair_column. rewrite map_map. reflexivity.
  - apply str_eqb_neq in E.
    rewrite assoc_get_set_other in Hd by assumption.
    rewrite Hsrc in Hd. inversion Hd; subst. reflexivity.
Qed.

Lemma build_final_inl (df : frame) (nc : option str) (dc : str)
      (dir : option str) (tr : list event) (fin : frame) (src : column) :
  build_final float_repr df nc dc dir = (tr, inl fin) ->
  assoc_get df dc = Some src ->
  assoc_get fin (lit "DescripcionOriginal")
  = Some (map (fun v => VStr (astype_str float_repr v)) src).
Proof.
  unfold build_final. intros H Hsrc.
  repeat (apply bind_inl in H;
          let t1 := fresh "t" in let a := fresh "a" in
          let t2 := fresh "t" in let Ha := fresh "Ha" in
          destruct H as (t1 & a & t2 & Ha & H & _)).
  inversion H; subst.
  match goal with
  | Hg : getitem df (Some dc) = (_, inl ?x) |- _ =>
      apply getitem_inl in Hg; destruct Hg as (_ & dc' & Edc & Hg);
      inversion Edc; subst dc'; rewrite Hsrc in Hg; inversion Hg; subst x
  end.
  reflexivity.
Qed.
End Description.

Lemma select_inl (df : frame) (names : list str) :
  forall (tr : list event) (out : frame),
    select df names = (tr, inl out) ->
    forall k, In k names -> assoc_get out k = assoc_get df k.
Proof.
  induction names as [|n names IH]; intros tr out H k Hk; [destruct Hk|].
  cbn [select] in H.
  apply bind_inl in H. destruct H as (t1 & col & t2 & Hc & H & _).
  apply bind_inl in H. destruct H as (t3 & more & t4 & Hm & H & _).
  inversion H; subst. apply getitem_inl in Hc.
  destruct Hc as (_ & n' & En & Hc). inversion En; subst n'.
  simpl. destruct (str_eqb n k) eqn:E.
  - apply str_eqb_eq in E. subst. auto.
  - apply (IH _ _ Hm). destruct Hk as [->|Hk]; [|assumption].
    rewrite str_eqb_refl in E. discriminate.
Qed.

(** C10. In the frame written to the output file the column
    [DescripcionOriginal] holds the cells of the description column after
    [fix_mojibake_text], applied to their text once, or twice when the
    description column is also the label column; it does not hold the raw
    cells. *)
Theorem descripcion_original_is_repaired
        (lower upper : str -> str) (float_repr : Q -> str)
        (df : frame) (tr : list event) (final : frame) :
  lower_on_ascii lower ->
  convert_mymaps_csv lower upper float_repr df = (tr, inl final) ->
  assoc_get final (lit "DescripcionOriginal")
  = Some (map (fun v => Nat.iter (repair_passes lower upper float_repr df)
                                 (repair_cell float_repr) v)
              (descr_source lower df))
  /\ In (EToCsv final) tr.
Proof.
  intros Hlow H. unfold convert_mymaps_csv, repair_passes in *.
  destruct (find_wkt_col lower upper float_repr df) as [w|]; [|discriminate].
  apply bind_inl in H. destruct H as (t0 & st & t0' & Hst & H & E0).
  apply bind_inl in H. destruct H as (t1 & df1 & t1' & Hdf1 & H & E1).
  apply bind_inl in H. destruct H as (t2 & df2 & t2' & Hdf2 & H & E2).
  apply bind_inl in H. destruct H as (t3 & fin & t3' & Hfin & H & E3).
  apply bind_inl in H. destruct H as (t4 & u4 & t4' & Hu4 & H & E4).
  apply bind_inl in H. destruct H as (t5 & out & t5' & Hout & H & E5).
  apply bind_inl in H. destruct H as (t6 & u6 & t6' & Hu6 & H & E6).
  apply bind_inl in H. destruct H as (t7 & u7 & t7' & Hu7 & H & E7).
  apply bind_inl in H. destruct H as (t8 & lat & t8' & Hlat & H & E8).
  apply bind_inl in H. destruct H as (t9 & u9 & t9' & Hu9 & H & E9).
  inversion H; subst out. clear H.
  destruct (ensure_descr_inl lower df t0 st Hst) as [Edc Hsrc].
  destruct (descr_name_not_coordinate lower Hlow df) as [NLat NLng].
  rewrite Edc in *.
  pose proof (add_coordinates_inl float_repr _ _ _ _ Hdf1 _ NLat NLng) as G1.
  rewrite Hsrc in G1.
  destruct (repair_texts_inl float_repr _ _ _ _ _ _ Hdf2 G1) as (n & En & G2).
  rewrite En.
  pose proof (build_final_inl float_repr _ _ _ _ _ _ _ Hfin G2) as G3.
  split.
  - rewrite (select_inl _ _ _ _ Hout) by (vm_compute; tauto).
    rewrite G3. f_equal.
    destruct (str_eqb n (descr_name lower df)); simpl Nat.iter;
      rewrite map_map; apply map_ext; intros v; reflexivity.
  - inversion Hu6; subst. rewrite !in_app_iff. simpl. intuition.
Qed.

(** The mojibake of the example table is repaired in the output, and the
    missing description reads [nan]. *)
Lemma descripcion_original_is_repaired_example :
  lower_on_ascii ascii_lower
  /\ exists tr final,
       convert_mymaps_csv ascii_lower ascii_upper repr_unused mojibake_table
       = (tr, inl final)
       /\ assoc_get final (lit "DescripcionOriginal")
          = Some (map (fun v =>
                         Nat.iter (repair_passes ascii_lower ascii_upper
                                                 repr_unused mojibake_table)
                                  (repair_cell repr_unused) v)
                      (descr_source ascii_lower mojibake_table))
       /\ assoc_get final (lit "DescripcionOriginal")
          = Some [VStr (lit "Z1 - Uni" ++ [243] ++ lit "n - 001 - Ana - esquina");
                  VStr (lit "nan")].
Proof.
  assert (H0 : lower_on_ascii ascii_lower) by (intros s _; reflexivity).
  split; [exact H0|].
  eexists _, _. split; [vm_compute; reflexivity|].
  split; [|vm_compute; reflexivity].
  exact (proj1 (descripcion_original_is_repaired
                  ascii_lower ascii_upper repr_unused mojibake_table _ _
                  H0 eq_refl)).
Defined.

Lemma shaped_get (n : nat) (df : frame) (k : str) (col : column) :
  shaped n df -> assoc_get df k = Some col -> length col = n.
Proof.
  unfold shaped. induction df as [|[k' c'] df IH]; simpl; [discriminate|].
  intros H. pose proof (Forall_inv H) as Hc. simpl in Hc.
  apply Forall_inv_tail in H. destruct (str_eqb k' k).
  - intros E. inversion E; subst. reflexivity.
  - apply IH. assumption.
Qed.

Lemma shaped_set (n : nat) (df : frame) (k : str) (col : column) :
  shaped n df -> length col = n -> shaped n (assoc_set df k col).
Proof.
  unfold shaped. intros H Hc. induction df as [|[k' c'] df IH]; simpl.
  - constructor; auto.
  - pose proof (Forall_inv H) as Hk. apply Forall_inv_tail in H.
    destruct (str_eqb k' k); constructor; auto.
Qed.

Lemma getitem_present (df : frame) (k : str) :
  In k (columns df) ->
  exists col, getitem df (Some k) = ret col /\ assoc_get df k = Some col.
Proof.
  intros H. destruct (assoc_get_in df k H) as [col Hc].
  exists col. split; [apply getitem_some|]; assumption.
Qed.

Lemma assoc_get_columns {V : Type} (d : list (str * V)) (k : str) (v : V) :
  assoc_get d k = Some v -> In k (map fst d).
Proof.
  induction d as [|[k' v'] d IH]; simpl; [discriminate|].
  destruct (str_eqb k' k) eqn:E; [|auto].
  apply str_eqb_eq in E. auto.
Qed.

Lemma assoc_set_has_key {V : Type} (d : list (str * V)) (k : str) (v : V) :
  In k (map fst (assoc_set d k v)).
Proof.
  apply assoc_get_columns with (v := v). apply assoc_get_set_same.
Qed.

Lemma column_of_list_length (l : list value) :
  length (column_of_list l) = length l.
Proof.
  unfold column_of_list. destruct (existsb is_float l);
    [apply length_map | reflexivity].
Qed.

Lemma assoc_set_nonempty {V : Type} (d : list (str * V)) (k : str) (v : V) :
  assoc_set d k v <> [].
Proof. destruct d as [|[k' v'] d]; simpl; [|destruct (str_eqb k' k)]; discriminate. Qed.

Lemma nrows_shaped (n : nat) (df : frame) :
  shaped n df -> df <> [] -> nrows df = n.
Proof.
  destruct df as [|[k c] df]; [congruence|]. intros H _.
  apply Forall_inv in H. exact H.
Qed.

Lemma select_total (n0 : nat) (df : frame) (names : list str) :
  shaped n0 df -> (forall k, In k names -> In k (columns df)) ->
  exists out,
    select df names = ret out /\ columns out = names /\ shaped n0 out.
Proof.
  intros Hs. induction names as [|n names IH]; intros Hk.
  - exists []. repeat split. constructor.
  - destruct IH as (more & Hm & Hc & Hsm); [intros; apply Hk; simpl; auto|].
    destruct (getitem_present df n) as (col & G & A); [apply Hk; simpl; auto|].
    exists ((n, col) :: more). cbn [select]. rewrite G, bind_ret, Hm, bind_ret.
    repeat split.
    + simpl. rewrite Hc. reflexivity.
    + constructor; [|assumption]. simpl. apply (shaped_get _ _ _ _ Hs A).
Qed.

Section Rows.

Variable lower upper : str -> str.
Variable float_repr : Q -> str.

Lemma find_wkt_col_in (df : frame) (w : str) :
  find_wkt_col lower upper float_repr df = Some w -> In w (columns df).
Proof.
  unfold find_wkt_col, wkt_by_name, wkt_by_sample.
  destruct (first_key _ (cols_lower lower df)) as [c|] eqn:E.
  - intros H. inversion H; subst. apply first_key_entry in E.
    destruct E as (k & Hin & _). apply cols_lower_entries in Hin. tauto.
  - intros H. apply find_some in H. tauto.
Qed.

Lemma find_nombre_col_in (df : frame) (w n : str) :
  find_nombre_col lower df w = Some n -> In n (columns df).
Proof.
  unfold find_nombre_col.
  destruct (first_key _ (cols_lower lower df)) as [c|] eqn:E.
  - intros H. inversion H; subst. apply first_key_entry in E.
    destruct E as (k & Hin & _). apply cols_lower_entries in Hin. tauto.
  - destruct (filter _ (columns df)) as [|c l] eqn:F; [discriminate|].
    intros H. inversion H; subst.
    assert (Hin : In n (filter (fun c => negb (str_eqb c w)) (columns df)))
      by (rewrite F; simpl; auto).
    apply filter_In in Hin. tauto.
Qed.

Lemma find_direccion_col_in (df : frame) (c : str) :
  find_direccion_col lower df = Some c -> In c (columns df).
Proof.
  unfold find_direccion_col. intros E. apply first_key_entry in E.
  destruct E as (k & Hin & _). apply cols_lower_entries in Hin. tauto.
Qed.

Lemma ensure_descr_total (df : frame) :
  rectangular df -> df <> [] ->
  exists tr df0 dc,
    ensure_descr lower df = (tr, inl (df0, dc))
    /\ existsb is_output_event tr = false
    /\ shaped (nrows df) df0
    /\ In dc (columns df0)
    /\ (forall k, In k (columns df) -> In k (columns df0)).
Proof.
  intros Hr Hne. unfold ensure_descr.
  destruct (find_descr_col lower df) as [c|] eqn:E.
  - exists [], df, c. repeat split; auto.
    apply descr_found_in_columns in E. tauto.
  - eexists _, _, _. split; [reflexivity|]. repeat split.
    + apply shaped_set; [assumption | apply repeat_length].
    + apply assoc_set_has_key.
    + intros k. apply assoc_set_keeps_keys.
Qed.

Lemma build_final_total (n0 : nat) (df : frame) (n dc : str) (dir : option str) :
  shaped n0 df -> In n (columns df) -> In dc (columns df) ->
  In (lit "Lat") (columns df) -> In (lit "Lng") (columns df) ->
  (forall c, dir = Some c -> In c (columns df)) ->
  exists fin,
    build_final float_repr df (Some n) dc dir = ret fin
    /\ shaped n0 fin
    /\ (forall k, In k final_cols_order -> In k (columns fin)).
Proof.
  intros Hs Hn Hdc Hlat Hlng Hdir. unfold build_final.
  destruct (getitem_present df dc Hdc) as (dcol & Gd & Ad).
  destruct (getitem_present df n Hn) as (ncol & Gn & An).
  destruct (getitem_present df _ Hlat) as (latcol & Glat & Alat).
  destruct (getitem_present df _ Hlng) as (lngcol & Glng & Alng).
  pose proof (shaped_get _ _ _ _ Hs Ad) as Ld.
  pose proof (shaped_get _ _ _ _ Hs An) as Ln.
  pose proof (shaped_get _ _ _ _ Hs Alat) as Llat.
  pose proof (shaped_get _ _ _ _ Hs Alng) as Llng.
  rewrite Gd, bind_ret.
  unfold frame_of_rows.
  assert (F : forallb (fun r => (length r =? length parsed_columns)%nat)
                      (map split_standard_description dcol) = true).
  { apply forallb_forall. intros r Hr. apply in_map_iff in Hr.
    destruct Hr as (v & <- & _). rewrite split_standard_description_length.
    reflexivity. }
  rewrite F, bind_ret.
  set (rows := map split_standard_description dcol).
  assert (Lrows : length rows = n0) by (unfold rows; rewrite length_map; exact Ld).
  unfold parsed_field.
  cbn [parsed_columns length seq map nth].
  repeat (rewrite getitem_some with (col := map _ rows) by reflexivity;
          rewrite !bind_ret).
  rewrite Gn, Glat, Glng. rewrite !bind_ret.
  match goal with
  | |- context [assoc_set ?f (lit "DescripcionOriginal") ?c] =>
      set (fin9 := assoc_set f (lit "DescripcionOriginal") c)
  end.
  assert (S9 : shaped n0 fin9).
  { unfold fin9. repeat (apply shaped_set; [|rewrite ?length_map; assumption]).
    constructor. }
  assert (N9 : nrows fin9 = n0)
    by (apply nrows_shaped; [assumption | apply assoc_set_nonempty]).
  assert (D : exists dircol,
             match dir with
             | Some c =>
                 if is_empty c then ret (repeat (VStr []) (nrows fin9))
                 else
                   cells <- getitem df (Some c) ;;
                   ret (map (fun v => fillna (VStr [])
                                        (VStr (astype_str float_repr v))) cells)
             | None => ret (repeat (VStr []) (nrows fin9))
             end = ret dircol /\ length dircol = n0).
  { destruct dir as [c|].
    - destruct (is_empty c).
      + eexists. split; [reflexivity|]. rewrite repeat_length. exact N9.
      + destruct (getitem_present df c (Hdir c eq_refl)) as (ccol & Gc & Ac).
        rewrite Gc, bind_ret. eexists. split; [reflexivity|].
        rewrite length_map. apply (shaped_get _ _ _ _ Hs Ac).
    - eexists. split; [reflexivity|]. rewrite repeat_length. exact N9. }
  destruct D as (dircol & -> & Ldir). rewrite bind_ret.
  eexists. split; [reflexivity|]. split.
  - apply shaped_set; assumption.
  - intros k Hk. unfold fin9. simpl in Hk.
    repeat (destruct Hk as [<-|Hk];
            [repeat first [apply assoc_set_has_key | apply assoc_set_keeps_keys]|]).
    destruct Hk.
Qed.

(** With a label column the conversion runs to the end and writes a frame
    with the ten output columns, each with one cell per input row. *)
Lemma convert_keeps_rows (df : frame) (w n : str) :
  rectangular df ->
  find_wkt_col lower upper float_repr df = Some w ->
  find_nombre_col lower df w = Some n ->
  exists tr final,
    convert_mymaps_csv lower upper float_repr df = (tr, inl final)
    /\ In (EToCsv final) tr
    /\ columns final = final_cols_order
    /\ shaped (nrows df) final.
Proof.
  intros Hr Hw Hn. unfold convert_mymaps_csv. rewrite Hw, Hn.
  pose proof (find_wkt_col_in df w Hw) as Iw.
  pose proof (find_nombre_col_in df w n Hn) as In_.
  assert (Hne : df <> []) by (destruct df; [destruct Iw | discriminate]).
  destruct (ensure_descr_total df Hr Hne) as (tr0 & df0 & dc & E0 & _ & S0 & Idc & K0).
  (* coordinates *)
  destruct (getitem_present df0 w (K0 w Iw)) as (wcol & Gw & Aw).
  pose proof (shaped_get _ _ _ _ S0 Aw) as Lw.
  set (pairs := map (fun v => extract_lon_lat_from_wkt
                                (VStr (astype_str float_repr
                                         (fillna (VStr []) v)))) wcol).
  set (df1 := assoc_set (assoc_set df0 (lit "Lat")
                                   (column_of_list (map fst pairs)))
                        (lit "Lng") (column_of_list (map snd pairs))).
  assert (E1 : add_coordinates float_repr df0 w = ret df1).
  { unfold add_coordinates. rewrite Gw, bind_ret. reflexivity. }
  assert (S1 : shaped (nrows df) df1).
  { unfold df1, pairs.
    repeat (apply shaped_set;
            [|rewrite column_of_list_length, !length_map; assumption]).
    assumption. }
  assert (K1 : forall k, In k (columns df0) -> In k (columns df1)).
  { intros k Hk. unfold df1. do 2 apply assoc_set_keeps_keys. assumption. }
  (* texts *)
  destruct (getitem_present df1 n (K1 n (K0 n In_))) as (ncol & Gn & An).
  set (df1' := assoc_set df1 n (repair_column float_repr ncol)).
  destruct (getitem_present df1' dc) as (dcol & Gd & Ad).
  { apply assoc_set_keeps_keys. auto. }
  set (df2 := assoc_set df1' dc (repair_column float_repr dcol)).
  assert (E2 : repair_texts float_repr df1 (Some n) dc = ret df2).
  { unfold repair_texts. rewrite Gn, bind_ret. fold df1'.
    rewrite Gd, bind_ret. reflexivity. }
  assert (S1' : shaped (nrows df) df1').
  { apply shaped_set; [assumption|]. unfold repair_column.
    rewrite length_map. apply (shaped_get _ _ _ _ S1 An). }
  assert (S2 : shaped (nrows df) df2).
  { apply shaped_set; [assumption|]. unfold repair_column.
    rewrite length_map. apply (shaped_get _ _ _ _ S1' Ad). }
  assert (K2 : forall k, In k (columns df1) -> In k (columns df2)).
  { intros k Hk. unfold df2, df1'. do 2 apply assoc_set_keeps_keys. assumption. }
  destruct (build_final_total (nrows df) df2 n dc (find_direccion_col lower df))
    as (fin & E3 & S3 & K3); auto.
  { apply K2. unfold df1. apply assoc_set_keeps_keys, assoc_set_has_key. }
  { apply K2. unfold df1. apply assoc_set_has_key. }
  { intros c Hc. apply find_direccion_col_in in Hc. auto. }
  destruct (select_total (nrows df) fin final_cols_order S3 K3)
    as (final & E4 & C4 & S4).
  destruct (getitem_present final (lit "Lat")) as (latcol & Glat & _).
  { rewrite C4. simpl. auto 10. }
  exists (tr0 ++ [EEnsureOutDir; EToCsv final; EPrint MSaved;
                  EPrint (MSummary (nrows final) (length (filter isna latcol)))]),
         final.
  split.
  - rewrite E0. cbn [bind fst snd]. rewrite E1, bind_ret, E2, bind_ret, E3, bind_ret.
    cbn [bind emit app]. rewrite E4. cbn [bind ret emit app]. rewrite Glat.
    reflexivity.
  - split; [|split; assumption].
    apply in_or_app. right. simpl. auto.
Qed.

End Rows.

Lemma column_of_list_absent (l : list value) (i : nat) :
  nth_error l i = Some VNone ->
  exists v, nth_error (column_of_list l) i = Some v /\ isna v = true.
Proof.
  intros H. unfold column_of_list. destruct (existsb is_float l).
  - exists VNaN. split; [|reflexivity].
    rewrite nth_error_map, H. reflexivity.
  - exists VNone. auto.
Qed.

Section Coordinates.

Variable lower upper : str -> str.
Variable float_repr : Q -> str.
Hypothesis lower_ascii : lower_on_ascii lower.

Lemma cols_lower_has_key (df : frame) (c : str) :
  In c (columns df) -> In (lower c) (map fst (cols_lower lower df)).
Proof.
  unfold cols_lower.
  assert (G : forall l acc,
             In c l \/ In (lower c) (map fst acc) ->
             In (lower c)
                (map fst (fold_left (fun d x => assoc_set d (lower x) x) l acc))).
  { induction l as [|x l IH]; intros acc H; simpl.
    - destruct H as [[]|H]. exact H.
    - apply IH. destruct H as [[->|H]|H].
      + right. apply assoc_set_has_key.
      + left. exact H.
      + right. apply assoc_set_keeps_keys. exact H. }
  intros H. apply G. auto.
Qed.

Lemma first_key_present (test : str -> bool) (d : list (str * str)) (k : str) :
  In k (map fst d) -> test k = true -> first_key test d <> None.
Proof.
  intros Hin Hk. unfold first_key.
  destruct (find (fun kv => test (fst kv)) d) as [[k' c']|] eqn:E;
    [discriminate|].
  apply in_map_iff in Hin. destruct Hin as ([k0 c0] & <- & Hin).
  apply (find_none _ _ E) in Hin. simpl in *. congruence.
Qed.

Lemma wkt_is_not_the_added_column (df : frame) (w : str) :
  find_wkt_col lower upper float_repr df = Some w ->
  find_descr_col lower df = None -> w <> descr_missing.
Proof.
  intros Hw Hd ->. apply find_wkt_col_in in Hw.
  apply cols_lower_has_key in Hw.
  revert Hd. apply first_key_present with (k := lower descr_missing);
    [exact Hw|].
  rewrite lower_ascii by reflexivity. reflexivity.
Qed.

Lemma ensure_descr_keeps (df : frame) (tr : list event) (st : frame * str)
      (k : str) :
  ensure_descr lower df = (tr, inl st) ->
  (find_descr_col lower df = None -> k <> descr_missing) ->
  assoc_get (fst st) k = assoc_get df k.
Proof.
  unfold ensure_descr. destruct (find_descr_col lower df) as [c|].
  - intros H _. inversion H; subst. reflexivity.
  - intros H Hk. inversion H; subst. simpl.
    apply assoc_get_set_other. intros E. apply (Hk eq_refl). auto.
Qed.

Lemma add_coordinates_columns (df : frame) (w : str) (tr : list event)
      (df1 : frame) :
  add_coordinates float_repr df w = (tr, inl df1) ->
  exists cells,
    assoc_get df w = Some cells
    /\ assoc_get df1 (lit "Lat")
       = Some (column_of_list
                 (map (fun v => fst (coordinates_of float_repr v)) cells))
    /\ assoc_get df1 (lit "Lng")
       = Some (column_of_list
                 (map (fun v => snd (coordinates_of float_repr v)) cells)).
Proof.
  unfold add_coordinates. intros H.
  apply bind_inl in H. destruct H as (t1 & cells & t2 & Hc & H & _).
  apply getitem_inl in Hc. destruct Hc as (_ & w' & Ew & Hc).
  inversion Ew; subst w'. inversion H; subst.
  exists cells. split; [exact Hc|]. rewrite !map_map. split.
  - rewrite assoc_get_set_other by discriminate. apply assoc_get_set_same.
  - apply assoc_get_set_same.
Qed.

Lemma repair_texts_keeps (df : frame) (n dc : str) (tr : list event)
      (df2 : frame) (k : str) :
  repair_texts float_repr df (Some n) dc = (tr, inl df2) ->
  k <> n -> k <> dc -> assoc_get df2 k = assoc_get df k.
Proof.
  unfold repair_texts. intros H Hn Hd.
  apply bind_inl in H. destruct H as (t1 & ncells & t2 & _ & H & _).
  apply bind_inl in H. destruct H as (t3 & dcells & t4 & _ & H & _).
  inversion H; subst.
  rewrite !assoc_get_set_other by (intros E; subst; tauto). reflexivity.
Qed.

Lemma build_final_coordinates (df : frame) (nc : option str) (dc : str)
      (dir : option str) (tr : list event) (fin : frame) :
  build_final float_repr df nc dc dir = (tr, inl fin) ->
  assoc_get fin (lit "Lat") = assoc_get df (lit "Lat")
  /\ assoc_get fin (lit "Lng") = assoc_get df (lit "Lng").
Proof.
  unfold build_final. intros H.
  repeat (apply bind_inl in H;
          let t1 := fresh "t" in let a := fresh "a" in
          let t2 := fresh "t" in let Ha := fresh "Ha" in
          destruct H as (t1 & a & t2 & Ha & H & _)).
  match goal with
  | Hg : getitem df (Some (lit "Lat")) = (_, inl _) |- _ =>
      apply getitem_inl in Hg; destruct Hg as (_ & k1 & Ek1 & HLat);
      inversion Ek1; subst k1
  end.
  match goal with
  | Hg : getitem df (Some (lit "Lng")) = (_, inl _) |- _ =>
      apply getitem_inl in Hg; destruct Hg as (_ & k2 & Ek2 & HLng);
      inversion Ek2; subst k2
  end.
  inversion H as [[Etr Efin]].
  split; symmetry; [exact HLat | exact HLng].
Qed.

(** The coordinates written for each row are those of its geometry cell,
    when the label column is not itself called [Lat] or [Lng]. *)
Lemma convert_coordinates (df : frame) (w n : str) (tr : list event)
      (final : frame) :
  find_wkt_col lower upper float_repr df = Some w ->
  find_nombre_col lower df w = Some n ->
  n <> lit "Lat" -> n <> lit "Lng" ->
  convert_mymaps_csv lower upper float_repr df = (tr, inl final) ->
  exists cells,
    assoc_get df w = Some cells
    /\ assoc_get final (lit "Lat")
       = Some (column_of_list
                 (map (fun v => fst (coordinates_of float_repr v)) cells))
    /\ assoc_get final (lit "Lng")
       = Some (column_of_list
                 (map (fun v => snd (coordinates_of float_repr v)) cells)).
Proof.
  intros Hw Hn NLat NLng H. unfold convert_mymaps_csv in H.
  rewrite Hw, Hn in H.
  apply bind_inl in H. destruct H as (t0 & st & t0' & Hst & H & E0).
  apply bind_inl in H. destruct H as (t1 & df1 & t1' & Hdf1 & H & E1).
  apply bind_inl in H. destruct H as (t2 & df2 & t2' & Hdf2 & H & E2).
  apply bind_inl in H. destruct H as (t3 & fin & t3' & Hfin & H & E3).
  apply bind_inl in H. destruct H as (t4 & u4 & t4' & Hu4 & H & E4).
  apply bind_inl in H. destruct H as (t5 & out & t5' & Hout & H & E5).
  apply bind_inl in H. destruct H as (t6 & u6 & t6' & Hu6 & H & E6).
  apply bind_inl in H. destruct H as (t7 & u7 & t7' & Hu7 & H & E7).
  apply bind_inl in H. destruct H as (t8 & lat & t8' & Hlat & H & E8).
  apply bind_inl in H. destruct H as (t9 & u9 & t9' & Hu9 & H & E9).
  inversion H; subst out. clear H.
  destruct (ensure_descr_inl lower df t0 st Hst) as [Edc _].
  destruct (descr_name_not_coordinate lower lower_ascii df) as [DLat DLng].
  rewrite Edc in *.
  destruct (add_coordinates_columns _ _ _ _ Hdf1) as (cells & Hc & HLat & HLng).
  rewrite (ensure_descr_keeps df t0 st w Hst) in Hc
    by (apply wkt_is_not_the_added_column; assumption).
  destruct (build_final_coordinates _ _ _ _ _ _ Hfin) as [FLat FLng].
  exists cells. split; [exact Hc|].
  rewrite !(select_inl _ _ _ _ Hout) by (vm_compute; tauto).
  rewrite FLat, FLng.
  rewrite !(repair_texts_keeps _ _ _ _ _ _ Hdf2) by congruence.
  auto.
Qed.

End Coordinates.

(** A row whose geometry gives no coordinates has an absent cell in the
    column built from the coordinates. *)
Lemma unparsed_row_is_absent (float_repr : Q -> str) (pick : value * value -> value)
      (cells : column) (i : nat) (cell : value) :
  nth_error cells i = Some cell ->
  pick (coordinates_of float_repr cell) = VNone ->
  exists v,
    nth_error (column_of_list
                 (map (fun v => pick (coordinates_of float_repr v)) cells)) i
    = Some v
    /\ isna v = true.
Proof.
  intros Hc Hp. apply column_of_list_absent.
  rewrite nth_error_map, Hc. simpl. rewrite Hp. reflexivity.
Qed.

(* ================================================================= *)
(** ** Layout of the geometry text *)

Lemma rstrip_by_app (p : char -> bool) (a : str) (c : char) (post : str) :
  p c = false -> rstrip_by p (a ++ c :: post) = a ++ c :: rstrip_by p post.
Proof.
  intros Hc. unfold rstrip_by.
  replace (a ++ c :: post) with ((a ++ [c]) ++ post)
    by (rewrite <- app_assoc; reflexivity).
  rewrite rev_app_distr, rev_app_distr. simpl rev. simpl app.
  rewrite lstrip_by_app by assumption.
  rewrite rev_app_distr. simpl rev. rewrite rev_involutive, <- app_assoc.
  reflexivity.
Qed.

Lemma strip_by_between (p : char -> bool) (pre body post : str) (c c' : char) :
  p c = false -> p c' = false ->
  strip_by p (pre ++ c :: body ++ c' :: post)
  = lstrip_by p pre ++ c :: body ++ c' :: rstrip_by p post.
Proof.
  intros Hc Hc'. unfold strip_by. rewrite lstrip_by_app by assumption.
  replace (lstrip_by p pre ++ c :: body ++ c' :: post)
    with ((lstrip_by p pre ++ c :: body) ++ c' :: post)
    by (rewrite <- app_assoc; reflexivity).
  rewrite rstrip_by_app by assumption. rewrite <- app_assoc. reflexivity.
Qed.

Lemma space_not_number (c : char) :
  isspace c = true -> sign_or_digit c = false /\ (c =? dot) = false.
Proof.
  intros H. split.
  - destruct (sign_or_digit c) eqn:E; [|reflexivity].
    apply digit_not_space in E. congruence.
  - refute_test. unfold isspace in H. unfold dot in E. num_tests; lia.
Qed.

Lemma blank_then_stop (ws rest : str) (c : char) :
  blank ws -> sign_or_digit c = false -> (c =? dot) = false ->
  ends_number (ws ++ c :: rest).
Proof.
  intros Hws H1 H2. destruct ws as [|w ws]; simpl; [auto|].
  unfold blank in Hws. simpl in Hws. apply andb_true_iff in Hws.
  apply space_not_number. tauto.
Qed.

Lemma match_spaced_point (ws1 ws2 ws3 ws4 post : str) (lon lat : numeral) :
  blank ws1 -> blank ws2 -> blank ws3 -> ws3 <> [] -> blank ws4 ->
  signed_decimal lon -> signed_decimal lat ->
  match_at point_re (spaced_point ws1 ws2 ws3 ws4 lon lat ++ post)
  = Some (post, [(2%nat, render lat); (1%nat, render lon)]).
Proof.
  intros B1 B2 B3 N3 B4 Hlon Hlat. unfold match_at, point_re, spaced_point.
  rewrite <- !app_assoc.
  rewrite run_cat_cons, run_word.
  rewrite run_cat_cons. apply star_greedy; [exact B1 | reflexivity |].
  simpl app. rewrite run_cat_cons, run_chr.
  rewrite run_cat_cons. apply star_greedy;
    [exact B2 | apply render_not_blank; assumption |].
  rewrite run_cat_cons. apply run_number; [assumption | |].
  { destruct ws3 as [|w ws3]; [congruence|]. simpl.
    unfold blank in B3. simpl in B3. apply andb_true_iff in B3.
    apply space_not_number. tauto. }
  rewrite run_cat_cons.
  apply run_plus_greedy; [exact N3 | exact B3 | apply render_not_blank; assumption |].
  rewrite run_cat_cons. apply run_number; [assumption | |].
  { apply blank_then_stop; [assumption | reflexivity | reflexivity]. }
  rewrite run_cat_cons. apply star_greedy; [exact B4 | reflexivity |].
  rewrite run_cat_cons, run_chr. reflexivity.
Qed.

Lemma spaced_point_shape (ws1 ws2 ws3 ws4 : str) (lon lat : numeral) :
  spaced_point ws1 ws2 ws3 ws4 lon lat
  = letter_P :: (lit "OINT" ++ ws1 ++ [40] ++ ws2 ++ render lon ++ ws3
                            ++ render lat ++ ws4) ++ [41].
Proof.
  unfold spaced_point, letter_P. simpl. do 5 f_equal.
  repeat (rewrite <- app_assoc; simpl). reflexivity.
Qed.

(** X1. [extract_lon_lat_from_wkt] does not depend on the layout of the
    text: blanks between POINT and the parenthesis, inside the parentheses
    and between the two numbers (at least one there), any text after the
    closing parenthesis and any text without the letter P before the word
    POINT, quotes included, leave the result unchanged: the latitude (the
    second number), then the longitude (the first). *)
Theorem extract_spaced_point (pre post ws1 ws2 ws3 ws4 : str) (lon lat : numeral) :
  ~ In letter_P pre ->
  blank ws1 -> blank ws2 -> blank ws3 -> ws3 <> [] -> blank ws4 ->
  signed_decimal lon -> signed_decimal lat ->
  extract_lon_lat_from_wkt
    (VStr (pre ++ spaced_point ws1 ws2 ws3 ws4 lon lat ++ post))
  = (VFloat (numeral_value lat), VFloat (numeral_value lon)).
Proof.
  intros Hpre B1 B2 B3 N3 B4 Hlon Hlat. unfold extract_lon_lat_from_wkt.
  assert (Hs : exists pre' post',
             strip_wkt (pre ++ spaced_point ws1 ws2 ws3 ws4 lon lat ++ post)
             = pre' ++ spaced_point ws1 ws2 ws3 ws4 lon lat ++ post'
             /\ (forall x, In x pre' -> In x pre)).
  { unfold strip_wkt, strip. rewrite spaced_point_shape.
    generalize (lit "OINT" ++ ws1 ++ [40] ++ ws2 ++ render lon ++ ws3
                           ++ render lat ++ ws4).
    intros body.
    replace (pre ++ (letter_P :: body ++ [41]) ++ post)
      with (pre ++ letter_P :: body ++ 41 :: post)
      by (simpl; rewrite <- app_assoc; reflexivity).
    rewrite !strip_by_between by reflexivity.
    exists (strip_prefix pre),
           (rstrip_by (N.eqb single_quote)
              (rstrip_by (N.eqb double_quote) (rstrip_by isspace post))).
    split.
    - unfold strip_prefix. simpl. rewrite <- app_assoc. reflexivity.
    - intros x Hx. unfold strip_prefix in Hx.
      repeat apply lstrip_by_incl in Hx. exact Hx. }
  destruct Hs as (pre' & post' & -> & Hin).
  rewrite search_skip.
  - rewrite (search_here _ _ _ (match_spaced_point ws1 ws2 ws3 ws4 post'
                                    lon lat B1 B2 B3 N3 B4 Hlon Hlat)).
    simpl. rewrite !py_float_render by assumption. reflexivity.
  - intros x t Hx. apply point_needs_P. intros ->. apply Hpre, Hin, Hx.
Qed.

Lemma extract_spaced_point_quoted :
  ~ In letter_P (lit " '") /\ blank (lit "") /\ blank (lit "  ")
  /\ lit "  " <> [] /\ signed_decimal lima_lon /\ signed_decimal lima_lat
  /\ lit " '" ++ spaced_point (lit "") (lit "") (lit "  ") (lit "") lima_lon lima_lat
              ++ lit "' ; z"
     = lit " 'POINT(-77.03  -12.05)' ; z"
  /\ extract_lon_lat_from_wkt (VStr (lit " 'POINT(-77.03  -12.05)' ; z"))
     = (VFloat (numeral_value lima_lat), VFloat (numeral_value lima_lon)).
Proof.
  assert (H0 : ~ In letter_P (lit " '")).
  { simpl. unfold letter_P. intros H.
    repeat (destruct H as [H|H]; [discriminate H|]). exact H. }
  assert (B0 : blank (lit "")) by reflexivity.
  assert (B2 : blank (lit "  ")) by reflexivity.
  assert (N2 : lit "  " <> []) by discriminate.
  assert (H1 : signed_decimal lima_lon) by (split; [reflexivity | discriminate]).
  assert (H2 : signed_decimal lima_lat) by (split; [reflexivity | discriminate]).
  split; [exact H0|]. split; [exact B0|]. split; [exact B2|].
  split; [exact N2|]. split; [exact H1|]. split; [exact H2|].
  split; [reflexivity|].
  exact (extract_spaced_point (lit " '") (lit "' ; z") (lit "") (lit "")
           (lit "  ") (lit "") lima_lon lima_lat H0 B0 B0 B2 N2 B0 H1 H2).
Defined.

Lemma rstrip_by_incl (p : char -> bool) (s : str) (c : char) :
  In c (rstrip_by p s) -> In c s.
Proof.
  unfold rstrip_by. intros H. apply in_rev in H. apply lstrip_by_incl in H.
  apply in_rev in H. exact H.
Qed.

Lemma strip_wkt_incl (s : str) (c : char) : In c (strip_wkt s) -> In c s.
Proof.
  unfold strip_wkt, strip, strip_by. intros H.
  repeat first [ apply rstrip_by_incl in H | apply lstrip_by_incl in H ].
  exact H.
Qed.

Lemma search_without_P (s : str) :
  ~ In letter_P s -> search point_re s = None.
Proof.
  intros H. rewrite <- (app_nil_r s). rewrite search_skip; [reflexivity|].
  intros x t Hx. apply point_needs_P. intros ->. exact (H Hx).
Qed.

Lemma rstrip_by_cons (p : char -> bool) (c : char) (s : str) :
  p c = false -> rstrip_by p (c :: s) = c :: rstrip_by p s.
Proof.
  intros Hc. unfold rstrip_by. cbn [rev].
  assert (G : forall l, lstrip_by p (l ++ [c]) = lstrip_by p l ++ [c]
                        \/ (lstrip_by p l = [] /\ lstrip_by p (l ++ [c]) = [c])).
  { induction l as [|x l IH]; cbn [app lstrip_by].
    - rewrite Hc. right. auto.
    - destruct (p x); [exact IH | left; reflexivity]. }
  destruct (G (rev s)) as [-> | [E ->]].
  - rewrite rev_app_distr. reflexivity.
  - rewrite E. reflexivity.
Qed.

(** X2. The detection of the geometry column by its values ignores the
    case of the letters, the extraction of the coordinates does not: a
    column whose first value is an ASCII text beginning with [point] in
    small letters, without any capital P, looks like a geometry column, and
    [extract_lon_lat_from_wkt] finds no coordinates in that value. *)
Theorem sampled_point_needs_capitals (upper : str -> str) (fr : Q -> str)
        (rest : str) (more : column) :
  upper_on_ascii upper ->
  forallb (fun c => c <? 128) rest = true ->
  ~ In letter_P rest ->
  looks_like_point upper fr (VStr (lit "point" ++ rest) :: more) = true
  /\ coordinates_of fr (VStr (lit "point" ++ rest)) = (VNone, VNone).
Proof.
  intros Hup Hascii HP. split.
  - unfold looks_like_point, sample_vals.
    cbn [filter isna negb map astype_str firstn existsb].
    apply orb_true_iff. left.
    assert (E : strip (lit "point" ++ rest)
                = lit "point" ++ rstrip_by isspace rest).
    { unfold strip, strip_by. change (lit "point") with [112; 111; 105; 110; 116].
      cbn [app lstrip_by]. change (isspace 112) with false. cbv iota.
      rewrite !rstrip_by_cons by reflexivity. reflexivity. }
    rewrite E, Hup.
    + reflexivity.
    + rewrite forallb_app. apply andb_true_iff. split; [reflexivity|].
      rewrite forallb_forall in *. intros c Hc. apply Hascii.
      apply (rstrip_by_incl isspace). exact Hc.
  - unfold coordinates_of, extract_lon_lat_from_wkt.
    cbn [fillna isna astype_str].
    rewrite search_without_P; [reflexivity|].
    intros H. apply strip_wkt_incl in H. apply in_app_or in H.
    destruct H as [H|H]; [|exact (HP H)].
    unfold letter_P in H. cbn in H.
    repeat (destruct H as [H|H]; [discriminate H|]). exact H.
Qed.

Lemma sampled_point_needs_capitals_lima :
  looks_like_point ascii_upper repr_unused
                   [VStr (lit "point (-77.03 -12.05)")] = true
  /\ coordinates_of repr_unused (VStr (lit "point (-77.03 -12.05)"))
     = (VNone, VNone).
Proof.
  apply (sampled_point_needs_capitals ascii_upper repr_unused
           (lit " (-77.03 -12.05)") []).
  - intros s _. reflexivity.
  - reflexivity.
  - vm_compute. intros H.
    repeat (destruct H as [H|H]; [discriminate H|]). exact H.
Defined.

(* ================================================================= *)
(** ** Descriptions made of fields *)

Lemma space_not_dash (c : char) : isspace c = true -> is_dash c = false.
Proof.
  intros H. refute_test. unfold isspace in H.
  unfold is_dash, minus_sign, en_dash, em_dash in E. num_tests; lia.
Qed.

Lemma dash_not_space (c : char) : is_dash c = true -> isspace c = false.
Proof.
  intros H. destruct (isspace c) eqn:E; [|reflexivity].
  apply space_not_dash in E. congruence.
Qed.

Lemma dash_no_match (w : str) (c : char) (t : str) :
  forallb isspace w = true -> is_dash c = false -> isspace c = false ->
  match_at dash_re (w ++ c :: t) = None.
Proof.
  intros Hw Hd Hs. unfold match_at, dash_re. rewrite run_cat_cons.
  change (run (Star isspace)) with (star isspace).
  induction w as [|x w IH]; simpl app.
  - rewrite star_stop by (simpl; exact Hs).
    rewrite run_cat_cons. simpl. rewrite Hd. reflexivity.
  - simpl in Hw. apply andb_true_iff in Hw. destruct Hw as [Hx Hw].
    cbn [star]. rewrite Hx, (IH Hw).
    rewrite run_cat_cons. simpl. rewrite (space_not_dash x Hx). reflexivity.
Qed.

Lemma dash_no_match_end : match_at dash_re [] = None.
Proof. reflexivity. Qed.

Lemma dash_match (a : str) (d : char) (b rest : str) :
  forallb isspace a = true -> is_dash d = true -> forallb isspace b = true ->
  stops isspace rest ->
  match_at dash_re (a ++ d :: b ++ rest) = Some (rest, []).
Proof.
  intros Ha Hd Hb Hr. unfold match_at, dash_re. rewrite run_cat_cons.
  apply star_greedy; [exact Ha | simpl; apply dash_not_space; exact Hd |].
  rewrite run_cat_cons. cbn [run]. rewrite Hd.
  rewrite run_cat_cons. apply star_greedy; [exact Hb | exact Hr |].
  reflexivity.
Qed.

(* ---- one step of [re.sub] ---- *)

Lemma sub_cons_none (r : regex) (repl : str) (c : char) (s : str) :
  match_at r (c :: s) = None -> sub r repl (c :: s) = c :: sub r repl s.
Proof. intros H. unfold sub. cbn [sub_loop length]. rewrite H. reflexivity. Qed.

Lemma sub_match (r : regex) (repl s rest : str) (caps : captures) :
  match_at r s = Some (rest, caps) -> (length rest < length s)%nat ->
  sub r repl s = repl ++ sub r repl rest.
Proof.
  intros H L. unfold sub at 1. cbn [sub_loop]. rewrite H.
  apply Nat.ltb_lt in L. rewrite L. f_equal. apply sub_fuel.
  apply Nat.ltb_lt in L. exact L.
Qed.

(* ---- fields ---- *)

Lemma blank_prefix (t : str) :
  t <> [] -> isspace (last t 32) = false ->
  exists w c t', t = w ++ c :: t' /\ forallb isspace w = true
                 /\ isspace c = false /\ In c t.
Proof.
  induction t as [|x t IH]; [congruence|]. intros _ Hl.
  destruct (isspace x) eqn:Hx.
  - destruct t as [|y t]; [simpl in Hl; congruence|].
    destruct IH as (w & c & t' & E & Hw & Hc & Hin); [discriminate | exact Hl |].
    exists (x :: w), c, t'. rewrite E. simpl. rewrite Hx, Hw.
    repeat split; auto. right. rewrite <- E. exact Hin.
  - exists [], x, t. simpl. auto.
Qed.

Lemma field_tail_next (c : char) (t : str) :
  field_tail (c :: t) -> t <> [] -> field_tail t.
Proof.
  intros (_ & Hl & Hd) Hne. repeat split; [exact Hne | |].
  - destruct t; [congruence | exact Hl].
  - intros x Hx. apply Hd. right. exact Hx.
Qed.

Lemma field_no_dash_match (t after : str) :
  field_tail t -> match_at dash_re (t ++ after) = None.
Proof.
  intros (Hne & Hl & Hd).
  destruct (blank_prefix t Hne Hl) as (w & c & t' & E & Hw & Hc & Hin).
  rewrite E, <- app_assoc. simpl. apply dash_no_match; auto.
Qed.

Lemma sub_field (t after : str) :
  field_tail t ->
  sub dash_re separator (t ++ after) = t ++ sub dash_re separator after.
Proof.
  induction t as [|c t IH]; intros Ht; [destruct Ht; congruence|].
  simpl app. rewrite sub_cons_none by (apply (field_no_dash_match (c :: t)); exact Ht).
  destruct t as [|y t]; [reflexivity|].
  rewrite IH; [reflexivity|]. apply (field_tail_next c); [exact Ht | discriminate].
Qed.

Lemma field_ok_facts (p : str) :
  field_ok p = true ->
  p <> [] /\ isspace (hd 32 p) = false /\ isspace (last p 32) = false
  /\ forall c, In c p ->
       is_dash c = false /\ c <> A_tilde /\ c <> A_circumflex.
Proof.
  unfold field_ok. intros H.
  apply andb_true_iff in H. destruct H as [H H4].
  apply andb_true_iff in H. destruct H as [H H3].
  apply andb_true_iff in H. destruct H as [H1 H2].
  apply negb_true_iff in H2, H3. repeat split; auto.
  - intros ->. discriminate H1.
  - rewrite forallb_forall in H4. apply H4 in H. unfold clean_char in H.
    apply andb_true_iff in H. destruct H as [H _].
    apply andb_true_iff in H. destruct H as [H _].
    apply negb_true_iff in H. exact H.
  - rewrite forallb_forall in H4. apply H4 in H. unfold clean_char in H.
    apply andb_true_iff in H. destruct H as [H _].
    apply andb_true_iff in H. destruct H as [_ H].
    apply negb_true_iff, N.eqb_neq in H. exact H.
  - rewrite forallb_forall in H4. apply H4 in H. unfold clean_char in H.
    apply andb_true_iff in H. destruct H as [_ H].
    apply negb_true_iff, N.eqb_neq in H. exact H.
Qed.

Lemma field_ok_tail (p : str) : field_ok p = true -> field_tail p.
Proof.
  intros H. apply field_ok_facts in H. destruct H as (H1 & _ & H3 & H4).
  repeat split; auto. intros c Hc. apply H4. exact Hc.
Qed.

Lemma dash_sep_facts (s : str) :
  dash_sep s = true ->
  exists a d b, s = a ++ d :: b /\ forallb isspace a = true
                /\ is_dash d = true /\ forallb isspace b = true.
Proof.
  unfold dash_sep. induction s as [|x s IH]; simpl; [discriminate|].
  destruct (isspace x) eqn:Hx.
  - intros H. destruct (IH H) as (a & d & b & -> & Ha & Hd & Hb).
    exists (x :: a), d, b. simpl. rewrite Hx, Ha. auto.
  - intros H. apply andb_true_iff in H. destruct H as [Hd Hb].
    exists [], x, s. auto.
Qed.

Lemma join_with_head (p : str) (rest : list (str * str)) :
  p <> [] -> hd 32 (join_with p rest) = hd 32 p /\ join_with p rest <> [].
Proof.
  intros Hp. destruct p as [|c p]; [congruence|].
  destruct rest as [|[sep q] more]; simpl; split; auto; discriminate.
Qed.

Lemma sub_fields (p : str) (rest : list (str * str)) :
  field_ok p = true -> fields_ok rest = true ->
  sub dash_re separator (join_with p rest)
  = join separator (p :: map snd rest).
Proof.
  revert p. induction rest as [|[sep q] more IH]; intros p Hp Hr.
  - simpl. rewrite <- (app_nil_r p) at 1.
    rewrite sub_field by (apply field_ok_tail; exact Hp).
    rewrite app_nil_r. reflexivity.
  - simpl in Hr. apply andb_true_iff in Hr. destruct Hr as [Hsq Hr].
    apply andb_true_iff in Hsq. destruct Hsq as [Hsep Hq].
    cbn [join_with]. rewrite sub_field by (apply field_ok_tail; exact Hp).
    destruct (dash_sep_facts sep Hsep) as (a & d & b & -> & Ha & Hd & Hb).
    pose proof (field_ok_facts q Hq) as (Hq1 & Hq2 & _ & _).
    destruct (join_with_head q more Hq1) as [Hh Hne].
    rewrite <- app_assoc. simpl app.
    rewrite (sub_match dash_re separator _ (join_with q more) []).
    + rewrite (IH q Hq Hr). cbn [map snd join].
      destruct (map snd more); reflexivity.
    + apply dash_match; auto.
      destruct (join_with q more) as [|c t]; [congruence|]. simpl in *.
      rewrite Hh. exact Hq2.
    + rewrite length_app. simpl. rewrite length_app. lia.
Qed.

Lemma separator_not_here (c : char) (t after : str) :
  field_tail (c :: t) -> startswith separator (c :: t ++ after) = false.
Proof.
  intros (_ & Hl & Hd). change separator with [32; 45; 32].
  cbn [startswith app].
  destruct (N.eqb_spec 32 c) as [<-|_]; [|reflexivity].
  destruct t as [|y t].
  - simpl in Hl. discriminate Hl.
  - cbn [startswith app]. destruct (N.eqb_spec 45 y) as [<-|_]; [|reflexivity].
    assert (H : is_dash 45 = false) by (apply Hd; simpl; auto).
    discriminate H.
Qed.

Lemma split_field (t after cur : str) (fuel : nat) :
  field_tail t -> (length (t ++ after) <= fuel)%nat ->
  split_loop fuel separator (t ++ after) cur
  = split_loop (length after) separator after (rev t ++ cur).
Proof.
  revert cur fuel. induction t as [|c t IH]; intros cur fuel Ht Hf;
    [destruct Ht; congruence|].
  destruct fuel as [|f]; [simpl in Hf; lia|].
  simpl app. cbn [split_loop].
  rewrite (separator_not_here c t after Ht).
  simpl in Hf. destruct t as [|y t].
  - simpl in Hf. simpl. apply split_loop_fuel; [discriminate | lia | lia].
  - rewrite IH;
      [| apply (field_tail_next c); [exact Ht | discriminate]
       | simpl in Hf; simpl; lia].
    simpl rev. rewrite <- !app_assoc. reflexivity.
Qed.

Lemma split_at_separator (rest cur : str) (fuel : nat) :
  (length rest + 3 <= fuel)%nat ->
  split_loop fuel separator (separator ++ rest) cur
  = rev cur :: split_loop (length rest) separator rest [].
Proof.
  intros Hf. destruct fuel as [|f]; [lia|].
  change (separator ++ rest) with (32 :: 45 :: 32 :: rest).
  cbn [split_loop].
  change (startswith separator (32 :: 45 :: 32 :: rest)) with true.
  change (skipn (length separator) (32 :: 45 :: 32 :: rest)) with rest.
  cbv iota. f_equal. apply split_loop_fuel; [discriminate | lia | lia].
Qed.

Lemma split_fields (p : str) (qs : list str) :
  field_tail p -> Forall field_tail qs ->
  split separator (join separator (p :: qs)) = p :: qs.
Proof.
  unfold split.
  assert (G : forall qs p fuel,
             field_tail p -> Forall field_tail qs ->
             (length (join separator (p :: qs)) <= fuel)%nat ->
             split_loop fuel separator (join separator (p :: qs)) []
             = p :: qs).
  { clear p qs. induction qs as [|q qs IH]; intros p fuel Hp Hq Hf.
    - simpl join in *. rewrite <- (app_nil_r p) at 1.
      rewrite split_field by (rewrite ?app_nil_r; assumption).
      simpl. rewrite app_nil_r, rev_involutive. reflexivity.
    - pose proof (Forall_inv Hq) as Hq1. apply Forall_inv_tail in Hq.
      change (join separator (p :: q :: qs))
        with (p ++ separator ++ join separator (q :: qs)) in *.
      rewrite split_field by assumption.
      rewrite app_nil_r, split_at_separator by (rewrite length_app; simpl; lia).
      rewrite rev_involutive. f_equal. apply IH; auto. }
  intros Hp Hq. apply G; auto.
Qed.

Lemma strip_fixed (s : str) :
  s <> [] -> isspace (hd 32 s) = false -> isspace (last s 32) = false ->
  strip s = s.
Proof.
  intros Hne Hh Hl. destruct (exists_last Hne) as (body & c & ->).
  rewrite last_last in Hl.
  unfold strip, strip_by.
  assert (E : lstrip_by isspace (body ++ [c]) = body ++ [c]).
  { destruct body as [|x body]; simpl in *; [rewrite Hl | rewrite Hh];
      reflexivity. }
  rewrite E. apply rstrip_by_last. exact Hl.
Qed.

Lemma join_with_last (p : str) (rest : list (str * str)) :
  field_ok p = true -> fields_ok rest = true ->
  isspace (last (join_with p rest) 32) = false.
Proof.
  revert p. induction rest as [|[sep q] more IH]; intros p Hp Hr.
  - apply field_ok_facts in Hp. simpl. tauto.
  - simpl in Hr. apply andb_true_iff in Hr. destruct Hr as [Hsq Hr].
    apply andb_true_iff in Hsq. destruct Hsq as [_ Hq].
    cbn [join_with]. rewrite app_assoc.
    pose proof (field_ok_facts q Hq) as (Hq1 & _).
    destruct (join_with_head q more Hq1) as [_ Hne].
    destruct (exists_last Hne) as (body & c & E).
    rewrite E, app_assoc, last_last.
    specialize (IH q Hq Hr). rewrite E, last_last in IH. exact IH.
Qed.

Lemma join_with_clean (p : str) (rest : list (str * str)) :
  field_ok p = true -> fields_ok rest = true ->
  ~ In A_tilde (join_with p rest) /\ ~ In A_circumflex (join_with p rest).
Proof.
  assert (S : forall c, isspace c = true -> c <> A_tilde /\ c <> A_circumflex).
  { intros c H. unfold isspace in H. unfold A_tilde, A_circumflex.
    split; intros ->; discriminate H. }
  assert (D : forall c, is_dash c = true -> c <> A_tilde /\ c <> A_circumflex).
  { intros c H. unfold A_tilde, A_circumflex.
    split; intros ->; discriminate H. }
  assert (G : forall rest p,
             field_ok p = true -> fields_ok rest = true ->
             forall c, In c (join_with p rest) ->
                       c <> A_tilde /\ c <> A_circumflex).
  { clear p rest. induction rest as [|[sep q] more IH]; intros p Hp Hr c Hc.
    - apply field_ok_facts in Hp. destruct Hp as (_ & _ & _ & Hp).
      apply Hp in Hc. tauto.
    - simpl in Hr. apply andb_true_iff in Hr. destruct Hr as [Hsq Hr].
      apply andb_true_iff in Hsq. destruct Hsq as [Hsep Hq].
      cbn [join_with] in Hc. apply in_app_or in Hc. destruct Hc as [Hc|Hc].
      + apply field_ok_facts in Hp. destruct Hp as (_ & _ & _ & Hp).
        apply Hp in Hc. tauto.
      + apply in_app_or in Hc. destruct Hc as [Hc|Hc]; [|eapply IH; eauto].
        destruct (dash_sep_facts sep Hsep) as (a & d & b & -> & Ha & Hd & Hb).
        apply in_app_or in Hc. rewrite forallb_forall in Ha, Hb.
        destruct Hc as [Hc|[<-|Hc]]; auto. }
  intros Hp Hr. split; intros H; apply (G rest p Hp Hr) in H; tauto.
Qed.

(** Fields written one after the other, each pair separated by a hyphen,
    an en dash or an em dash with any blanks around it, come back as the
    segments of the description. *)
Lemma segments_of_fields (p : str) (rest : list (str * str)) :
  field_ok p = true -> fields_ok rest = true ->
  segments (join_with p rest) = p :: map snd rest.
Proof.
  intros Hp Hr. unfold segments.
  destruct (join_with_clean p rest Hp Hr) as [C1 C2].
  rewrite fix_mojibake_clean by assumption.
  pose proof (field_ok_facts p Hp) as (Hp1 & Hp2 & _ & _).
  destruct (join_with_head p rest Hp1) as [Hh Hne].
  rewrite strip_fixed; [| exact Hne | rewrite Hh; exact Hp2
                        | apply join_with_last; assumption].
  rewrite sub_fields by assumption.
  assert (Hall : Forall (fun q => field_ok q = true) (p :: map snd rest)).
  { constructor; [exact Hp|]. apply Forall_forall. intros q Hq.
    apply in_map_iff in Hq. destruct Hq as ([sep q'] & <- & Hin).
    unfold fields_ok in Hr. rewrite forallb_forall in Hr. apply Hr in Hin.
    apply andb_true_iff in Hin. tauto. }
  rewrite split_fields.
  - transitivity (map (fun q : str => q) (p :: map snd rest));
      [|apply map_id].
    apply map_ext_in. intros q Hq. rewrite Forall_forall in Hall.
    apply Hall in Hq. apply field_ok_facts in Hq. apply strip_fixed; tauto.
  - apply field_ok_tail. exact Hp.
  - apply Forall_forall. intros q Hq. apply field_ok_tail.
    rewrite Forall_forall in Hall. apply Hall. right. exact Hq.
Qed.

(** X3. [split_standard_description] undoes the joining of fields: when
    fields that are not empty, have no blank at either end and contain no
    dash and none of the two telltale characters are written one after the
    other, separated by any blanks, one hyphen, en dash or em dash and any
    blanks, the function returns these fields, made five: padded with [x]
    when there are fewer, the fifth and the following ones joined with
    [ - ] when there are more. *)
Theorem split_description_recovers_fields (p : str) (rest : list (str * str)) :
  field_ok p = true -> fields_ok rest = true ->
  split_standard_description (VStr (join_with p rest))
  = five_fields (p :: map snd rest).
Proof.
  intros Hp Hr. rewrite split_standard_description_spec.
  pose proof (field_ok_facts p Hp) as (Hp1 & Hp2 & _ & _).
  destruct (join_with_head p rest Hp1) as [Hh Hne].
  rewrite strip_fixed; [| exact Hne | rewrite Hh; exact Hp2
                        | apply join_with_last; assumption].
  rewrite segments_of_fields by assumption.
  destruct (join_with p rest); [congruence | reflexivity].
Qed.

(* ================================================================= *)
(** ** What a conversion prints and returns *)

Lemma silent_ret {A : Type} (a : A) : silent (ret a).
Proof. intros tr a' H. inversion H. reflexivity. Qed.

Lemma silent_raise {A : Type} (h : halt) : silent (@raise A h).
Proof. intros tr a H. discriminate H. Qed.

Lemma silent_bind {A B : Type} (m : M A) (f : A -> M B) :
  silent m -> (forall a, silent (f a)) -> silent (bind m f).
Proof.
  intros Hm Hf tr b H. apply bind_inl in H.
  destruct H as (t1 & a & t2 & H1 & H2 & ->).
  apply Hm in H1. apply Hf in H2. subst. reflexivity.
Qed.

Lemma silent_getitem (df : frame) (c : option str) : silent (getitem df c).
Proof. intros tr col H. apply getitem_inl in H. tauto. Qed.

Lemma silent_select (df : frame) (names : list str) : silent (select df names).
Proof.
  induction names as [|n names IH]; [apply silent_ret|].
  cbn [select]. apply silent_bind; [apply silent_getitem|]. intros col.
  apply silent_bind; [exact IH|]. intros more. apply silent_ret.
Qed.

Lemma silent_add_coordinates (fr : Q -> str) (df : frame) (w : str) :
  silent (add_coordinates fr df w).
Proof. unfold add_coordinates. repeat first
    [ apply silent_ret | apply silent_raise | apply silent_getitem
    | apply silent_select
    | apply silent_bind; [|intros ?] ]. Qed.

Lemma silent_repair_texts (fr : Q -> str) (df : frame) (nc : option str)
      (dc : str) : silent (repair_texts fr df nc dc).
Proof. unfold repair_texts. repeat first
    [ apply silent_ret | apply silent_raise | apply silent_getitem
    | apply silent_select
    | apply silent_bind; [|intros ?] ]. Qed.

Lemma silent_build_final (fr : Q -> str) (df : frame) (nc : option str)
      (dc : str) (dir : option str) : silent (build_final fr df nc dc dir).
Proof.
  unfold build_final, parsed_field, frame_of_rows. repeat first
    [ apply silent_ret | apply silent_raise | apply silent_getitem
    | apply silent_select
    | apply silent_bind; [|intros ?] ].
  - destruct (forallb _ _); repeat first
    [ apply silent_ret | apply silent_raise | apply silent_getitem
    | apply silent_select
    | apply silent_bind; [|intros ?] ].
  - destruct dir as [c|]; [destruct (is_empty c)|]; repeat first
    [ apply silent_ret | apply silent_raise | apply silent_getitem
    | apply silent_select
    | apply silent_bind; [|intros ?] ].
Qed.

Lemma ensure_descr_trace (lower : str -> str) (df : frame) (tr : list event)
      (st : frame * str) :
  ensure_descr lower df = (tr, inl st) -> tr = notices lower df.
Proof.
  unfold ensure_descr, notices. destruct (find_descr_col lower df).
  - intros H. inversion H. reflexivity.
  - intros H. inversion H. reflexivity.
Qed.

(** A conversion that succeeds has printed no error and has written the
    output once: the frame it returns, after which it reports the number of
    rows of that frame and the number of its missing latitudes. *)
Lemma convert_trace (lower upper : str -> str) (fr : Q -> str)
        (df : frame) (tr : list event) (final : frame) :
  convert_mymaps_csv lower upper fr df = (tr, inl final) ->
  exists lat,
    assoc_get final (lit "Lat") = Some lat
    /\ tr = notices lower df
            ++ [EEnsureOutDir; EToCsv final; EPrint MSaved;
                EPrint (MSummary (nrows final) (length (filter isna lat)))].
Proof.
  intros H. unfold convert_mymaps_csv in H.
  destruct (find_wkt_col lower upper fr df) as [w|]; [|discriminate].
  apply bind_inl in H. destruct H as (t0 & st & t0' & Hst & H & E0).
  apply bind_inl in H. destruct H as (t1 & df1 & t1' & Hdf1 & H & E1).
  apply bind_inl in H. destruct H as (t2 & df2 & t2' & Hdf2 & H & E2).
  apply bind_inl in H. destruct H as (t3 & fin & t3' & Hfin & H & E3).
  apply bind_inl in H. destruct H as (t4 & u4 & t4' & Hu4 & H & E4).
  apply bind_inl in H. destruct H as (t5 & out & t5' & Hout & H & E5).
  apply bind_inl in H. destruct H as (t6 & u6 & t6' & Hu6 & H & E6).
  apply bind_inl in H. destruct H as (t7 & u7 & t7' & Hu7 & H & E7).
  apply bind_inl in H. destruct H as (t8 & lat & t8' & Hlat & H & E8).
  apply bind_inl in H. destruct H as (t9 & u9 & t9' & Hu9 & H & E9).
  inversion H; subst out t9'. clear H.
  apply ensure_descr_trace in Hst.
  apply silent_add_coordinates in Hdf1.
  apply silent_repair_texts in Hdf2.
  apply silent_build_final in Hfin.
  apply silent_select in Hout.
  apply getitem_inl in Hlat. destruct Hlat as (-> & k & Ek & Hlat).
  inversion Ek; subst k.
  inversion Hu4. inversion Hu6. inversion Hu7. inversion Hu9.
  exists lat. split; [exact Hlat|]. subst. reflexivity.
Qed.

(** The stages of a conversion that succeeds. *)
Lemma convert_anatomy (lower upper : str -> str) (fr : Q -> str)
      (df : frame) (tr : list event) (final : frame) :
  convert_mymaps_csv lower upper fr df = (tr, inl final) ->
  exists w n st df1 df2 fin t0 t1 t2 t3 t4,
    find_wkt_col lower upper fr df = Some w
    /\ find_nombre_col lower df w = Some n
    /\ ensure_descr lower df = (t0, inl st)
    /\ add_coordinates fr (fst st) w = (t1, inl df1)
    /\ repair_texts fr df1 (Some n) (snd st) = (t2, inl df2)
    /\ build_final fr df2 (Some n) (snd st) (find_direccion_col lower df)
       = (t3, inl fin)
    /\ select fin final_cols_order = (t4, inl final).
Proof.
  intros H. unfold convert_mymaps_csv in H.
  destruct (find_wkt_col lower upper fr df) as [w|]; [|discriminate].
  apply bind_inl in H. destruct H as (t0 & st & t0' & Hst & H & E0).
  apply bind_inl in H. destruct H as (t1 & df1 & t1' & Hdf1 & H & E1).
  apply bind_inl in H. destruct H as (t2 & df2 & t2' & Hdf2 & H & E2).
  apply bind_inl in H. destruct H as (t3 & fin & t3' & Hfin & H & E3).
  apply bind_inl in H. destruct H as (t4 & u4 & t4' & Hu4 & H & E4).
  apply bind_inl in H. destruct H as (t5 & out & t5' & Hout & H & E5).
  apply bind_inl in H. destruct H as (t6 & u6 & t6' & Hu6 & H & E6).
  apply bind_inl in H. destruct H as (t7 & u7 & t7' & Hu7 & H & E7).
  apply bind_inl in H. destruct H as (t8 & lat & t8' & Hlat & H & E8).
  apply bind_inl in H. destruct H as (t9 & u9 & t9' & Hu9 & H & E9).
  inversion H; subst out. clear H.
  destruct (find_nombre_col lower df w) as [n|] eqn:En.
  - exists w, n, st, df1, df2, fin, t0, t1, t2, t3, t5. auto 10.
  - unfold repair_texts in Hdf2. discriminate Hdf2.
Qed.

Lemma repair_texts_descr (fr : Q -> str) (df : frame) (nc : option str)
      (dc : str) (tr : list event) (df2 : frame) :
  repair_texts fr df nc dc = (tr, inl df2) ->
  exists cells, assoc_get df2 dc = Some (map (repair_cell fr) cells).
Proof.
  unfold repair_texts. intros H.
  apply bind_inl in H. destruct H as (t1 & ncells & t2 & _ & H & _).
  apply bind_inl in H. destruct H as (t3 & dcells & t4 & _ & H & _).
  inversion H; subst. exists dcells. apply assoc_get_set_same.
Qed.

Lemma parsed_field_inl (parsed : frame) (name : string) (tr : list event)
      (col : column) :
  parsed_field parsed name = (tr, inl col) ->
  exists raw, assoc_get parsed (lit name) = Some raw
              /\ col = map (fillna (VStr x_field)) raw.
Proof.
  unfold parsed_field. intros H.
  apply bind_inl in H. destruct H as (t1 & raw & t2 & Hg & H & _).
  apply getitem_inl in Hg. destruct Hg as (_ & k & Ek & Hg).
  inversion Ek; subst k. inversion H; subst. eauto.
Qed.

Lemma frame_of_rows_inl (rows : list (list str)) (tr : list event)
      (parsed : frame) :
  frame_of_rows rows parsed_columns = (tr, inl parsed) ->
  forall j, (j < 5)%nat ->
    assoc_get parsed (nth j parsed_columns [])
    = Some (map (fun r => VStr (nth j r [])) rows).
Proof.
  unfold frame_of_rows. destruct (forallb _ rows); [|discriminate].
  intros H. inversion H; subst. intros j Hj.
  do 5 (destruct j as [|j]; [reflexivity|]). lia.
Qed.

Lemma build_final_parsed (fr : Q -> str) (df : frame) (nc : option str)
      (dc : str) (dir : option str) (tr : list event) (fin : frame)
      (cells : column) :
  build_final fr df nc dc dir = (tr, inl fin) ->
  assoc_get df dc = Some (map (repair_cell fr) cells) ->
  let descr := map (repair_cell fr) cells in
  assoc_get fin (lit "DescripcionOriginal") = Some descr
  /\ assoc_get fin (lit "CodigoZona") = Some (map (field_cell 0) descr)
  /\ assoc_get fin (lit "ZonaNombre") = Some (map (field_cell 1) descr)
  /\ assoc_get fin (lit "CodigoCliente") = Some (map (field_cell 2) descr)
  /\ assoc_get fin (lit "NombreCliente") = Some (map (field_cell 3) descr)
  /\ assoc_get fin (lit "Referencias") = Some (map (field_cell 4) descr).
Proof.
  intros H Hsrc descr.
  split.
  { rewrite (build_final_inl fr _ _ _ _ _ _ _ H Hsrc).
    f_equal. unfold descr. rewrite map_map. apply map_ext. reflexivity. }
  unfold build_final in H.
  apply bind_inl in H. destruct H as (t0 & dcells & t0' & Hd & H & _).
  apply getitem_inl in Hd. destruct Hd as (_ & k & Ek & Hd).
  inversion Ek; subst k. rewrite Hsrc in Hd. inversion Hd; subst dcells.
  apply bind_inl in H. destruct H as (t1 & parsed & t1' & Hp & H & _).
  pose proof (frame_of_rows_inl _ _ _ Hp) as P.
  apply bind_inl in H. destruct H as (u0 & c0 & u0' & H0 & H & _).
  apply bind_inl in H. destruct H as (u1 & c1 & u1' & H1 & H & _).
  apply bind_inl in H. destruct H as (u2 & c2 & u2' & H2 & H & _).
  apply bind_inl in H. destruct H as (u3 & c3 & u3' & H3 & H & _).
  apply bind_inl in H. destruct H as (u4 & c4 & u4' & H4 & H & _).
  apply parsed_field_inl in H0, H1, H2, H3, H4.
  destruct H0 as (r0 & G0 & ->). destruct H1 as (r1 & G1 & ->).
  destruct H2 as (r2 & G2 & ->). destruct H3 as (r3 & G3 & ->).
  destruct H4 as (r4 & G4 & ->).
  assert (P0 := P 0%nat ltac:(lia)). assert (P1 := P 1%nat ltac:(lia)).
  assert (P2 := P 2%nat ltac:(lia)). assert (P3 := P 3%nat ltac:(lia)).
  assert (P4 := P 4%nat ltac:(lia)).
  cbn [nth parsed_columns] in P0, P1, P2, P3, P4.
  rewrite P0 in G0. rewrite P1 in G1. rewrite P2 in G2. rewrite P3 in G3.
  rewrite P4 in G4.
  inversion G0; subst r0. inversion G1; subst r1. inversion G2; subst r2.
  inversion G3; subst r3. inversion G4; subst r4. clear G0 G1 G2 G3 G4.
  repeat (apply bind_inl in H;
          let t1 := fresh "t" in let a := fresh "a" in
          let t2 := fresh "t" in let Ha := fresh "Ha" in
          destruct H as (t1 & a & t2 & Ha & H & _)).
  inversion H as [[Etr Efin]].
  unfold field_cell. subst descr.
  repeat split; simpl assoc_get; f_equal; rewrite !map_map;
    apply map_ext; reflexivity.
Qed.

Section Results.

Variable lower upper : str -> str.
Variable fr : Q -> str.

(** X4. In the result of [convert_mymaps_csv] the five columns
    [CodigoZona], [ZonaNombre], [CodigoCliente], [NombreCliente] and
    [Referencias] hold, row by row, the five fields that
    [split_standard_description] gives for the cell of
    [DescripcionOriginal] in the same row. *)
Theorem convert_parsed_columns (df : frame) (tr : list event) (final : frame) :
  convert_mymaps_csv lower upper fr df = (tr, inl final) ->
  exists descr,
    assoc_get final (lit "DescripcionOriginal") = Some descr
    /\ assoc_get final (lit "CodigoZona") = Some (map (field_cell 0) descr)
    /\ assoc_get final (lit "ZonaNombre") = Some (map (field_cell 1) descr)
    /\ assoc_get final (lit "CodigoCliente") = Some (map (field_cell 2) descr)
    /\ assoc_get final (lit "NombreCliente") = Some (map (field_cell 3) descr)
    /\ assoc_get final (lit "Referencias") = Some (map (field_cell 4) descr).
Proof.
  intros H. apply convert_anatomy in H.
  destruct H as (w & n & st & df1 & df2 & fin & t0 & t1 & t2 & t3 & t4
                 & Hw & Hn & Hst & Hdf1 & Hdf2 & Hfin & Hout).
  destruct (repair_texts_descr _ _ _ _ _ _ Hdf2) as (cells & Hc).
  pose proof (build_final_parsed _ _ _ _ _ _ _ _ Hfin Hc) as P. cbv zeta in P.
  exists (map (repair_cell fr) cells).
  rewrite !(select_inl _ _ _ _ Hout) by (vm_compute; tauto). exact P.
Qed.

Lemma repair_cell_empty (k : nat) :
  Nat.iter k (repair_cell fr) (VStr []) = VStr [].
Proof. induction k as [|k IH]; [reflexivity|]. simpl. rewrite IH. reflexivity. Qed.

(** X5. Without a description column [convert_mymaps_csv] gives every
    row an empty [DescripcionOriginal] and the placeholder [x] in each of
    the five parsed columns. *)
Theorem convert_without_description (df : frame) (tr : list event) (final : frame) :
  find_descr_col lower df = None ->
  convert_mymaps_csv lower upper fr df = (tr, inl final) ->
  assoc_get final (lit "DescripcionOriginal")
  = Some (repeat (VStr []) (nrows df))
  /\ (forall name, In name field_columns ->
        assoc_get final name = Some (repeat (VStr x_field) (nrows df))).
Proof.
  intros Hnone H. apply convert_anatomy in H.
  destruct H as (w & n & st & df1 & df2 & fin & t0 & t1 & t2 & t3 & t4
                 & Hw & Hn & Hst & Hdf1 & Hdf2 & Hfin & Hout).
  destruct (ensure_descr_inl lower df t0 st Hst) as [Edc Hsrc].
  unfold descr_name, descr_source in *. rewrite Hnone in *.
  rewrite Edc in *.
  assert (G1 : assoc_get df1 descr_missing
               = Some (repeat (VStr []) (nrows df))).
  { rewrite (add_coordinates_inl fr _ _ _ _ Hdf1) by discriminate.
    exact Hsrc. }
  destruct (repair_texts_inl fr _ _ _ _ _ _ Hdf2 G1) as (n' & _ & G2).
  rewrite map_repeat, repair_cell_empty in G2.
  assert (G2' : assoc_get df2 descr_missing
                = Some (map (repair_cell fr) (repeat (VStr []) (nrows df))))
    by (rewrite map_repeat; exact G2).
  pose proof (build_final_parsed _ _ _ _ _ _ _ _ Hfin G2') as P.
  cbv zeta in P. rewrite !map_repeat in P.
  change (repair_cell fr (VStr [])) with (VStr []) in P.
  destruct P as (P0 & P1 & P2 & P3 & P4 & P5).
  split.
  - rewrite (select_inl _ _ _ _ Hout) by (vm_compute; tauto). exact P0.
  - intros name Hname. simpl in Hname.
    destruct Hname as [<-|[<-|[<-|[<-|[<-|[]]]]]];
      rewrite (select_inl _ _ _ _ Hout) by (vm_compute; tauto);
      assumption.
Qed.

Lemma isna_column_of_list (l : list value) :
  length (filter isna (column_of_list l)) = length (filter isna l).
Proof.
  unfold column_of_list. destruct (existsb is_float l); [|reflexivity].
  induction l as [|v l IH]; [reflexivity|].
  destruct v; simpl; rewrite ?IH; reflexivity.
Qed.

Lemma filter_map_length {A B : Type} (f : A -> B) (p : B -> bool) (l : list A) :
  length (filter p (map f l)) = length (filter (fun a => p (f a)) l).
Proof.
  induction l as [|a l IH]; [reflexivity|]. simpl.
  destruct (p (f a)); simpl; rewrite IH; reflexivity.
Qed.

(** X6. The summary [convert_mymaps_csv] prints at the end gives the
    number of rows of the input and the number of geometry cells in which no
    point was found. *)
Theorem convert_summary (df : frame) (w n : str) :
  lower_on_ascii lower -> rectangular df ->
  find_wkt_col lower upper fr df = Some w ->
  find_nombre_col lower df w = Some n ->
  n <> lit "Lat" -> n <> lit "Lng" ->
  exists cells tr final,
    assoc_get df w = Some cells
    /\ convert_mymaps_csv lower upper fr df = (tr, inl final)
    /\ In (EPrint (MSummary (nrows df) (unparsed_count fr cells))) tr.
Proof.
  intros Hlow Hr Hw Hn NLat NLng.
  destruct (convert_keeps_rows lower upper fr df w n Hr Hw Hn)
    as (tr & final & Hc & _ & Hcols & Hshape).
  destruct (convert_coordinates lower upper fr Hlow df w n tr final
              Hw Hn NLat NLng Hc) as (cells & Hcells & HLat & _).
  destruct (convert_trace lower upper fr df tr final Hc) as (lat & Hlat & ->).
  exists cells, (notices lower df
                 ++ [EEnsureOutDir; EToCsv final; EPrint MSaved;
                     EPrint (MSummary (nrows final) (length (filter isna lat)))]),
         final.
  split; [exact Hcells|]. split; [exact Hc|].
  apply in_or_app. right.
  rewrite HLat in Hlat. inversion Hlat; subst lat.
  rewrite isna_column_of_list, filter_map_length.
  fold (unparsed_count fr cells).
  assert (E : nrows final = nrows df).
  { apply nrows_shaped; [exact Hshape|].
    intros ->. discriminate Hcols. }
  rewrite E. simpl. auto.
Qed.

(** Without a label column the conversion stops with [KeyError] before
    anything is written. *)
Lemma convert_without_label (df : frame) (w : str) :
  find_wkt_col lower upper fr df = Some w ->
  find_nombre_col lower df w = None ->
  convert_mymaps_csv lower upper fr df = (notices lower df, inr KeyError).
Proof.
  intros Hw Hn. unfold convert_mymaps_csv, notices. rewrite Hw, Hn.
  pose proof (find_wkt_col_in lower upper fr df w Hw) as Iw.
  unfold ensure_descr. destruct (find_descr_col lower df) as [c|].
  - rewrite bind_ret. cbn [fst snd]. unfold add_coordinates.
    destruct (getitem_present df w Iw) as (col & G & _).
    rewrite G, !bind_ret. reflexivity.
  - set (df0 := assoc_set df descr_missing (repeat (VStr []) (nrows df))).
    destruct (getitem_present df0 w) as (col & G & _).
    { apply assoc_set_keeps_keys. exact Iw. }
    cbn [bind emit ret fst snd app]. unfold add_coordinates.
    rewrite G. cbn [bind emit ret fst snd app]. reflexivity.
Qed.

End Results.

(** X7. [convert_mymaps_csv] on a rectangular table ends in one of three
    ways, decided by the detection of the columns: without a geometry
    column it prints the error message and exits with status 1; with a
    geometry column and no column left for the label it raises [KeyError],
    having printed at most the notice about the description; otherwise it
    succeeds, and then it has created the output directory, written the
    final table once, and printed the confirmation and the summary with the
    number of rows of the final table and of its missing latitudes, in this
    order. A run that fails writes nothing. *)
Theorem convert_outcomes (lower upper : str -> str) (fr : Q -> str) (df : frame) :
  rectangular df ->
  match find_wkt_col lower upper fr df with
  | None =>
      convert_mymaps_csv lower upper fr df
      = ([EPrint (MNoWktColumn (columns df))], inr (SysExit 1))
  | Some w =>
      match find_nombre_col lower df w with
      | None =>
          convert_mymaps_csv lower upper fr df
          = (notices lower df, inr KeyError)
      | Some _ =>
          exists final lat,
            assoc_get final (lit "Lat") = Some lat
            /\ convert_mymaps_csv lower upper fr df
               = (notices lower df
                  ++ [EEnsureOutDir; EToCsv final; EPrint MSaved;
                      EPrint (MSummary (nrows final)
                                       (length (filter isna lat)))],
                  inl final)
      end
  end.
Proof.
  intros Hr.
  destruct (find_wkt_col lower upper fr df) as [w|] eqn:Hw.
  - destruct (find_nombre_col lower df w) as [n|] eqn:Hn.
    + destruct (convert_keeps_rows lower upper fr df w n Hr Hw Hn)
        as (tr & final & Hc & _).
      destruct (convert_trace lower upper fr df tr final Hc)
        as (lat & Hlat & ->).
      exists final, lat. auto.
    + apply (convert_without_label lower upper fr df w); assumption.
  - unfold convert_mymaps_csv. rewrite Hw. reflexivity.
Qed.

Lemma supplement_marks (c : char) :
  latin1_supplement c ->
  In A_tilde (utf8_encode_char c) \/ In A_circumflex (utf8_encode_char c).
Proof.
  intros [Hlo Hhi]. unfold utf8_encode_char, A_tilde, A_circumflex.
  destruct (N.ltb_spec c 128); [lia|].
  destruct (N.ltb_spec c 2048); [|lia].
  by_64 c q r. assert (q = 2 \/ q = 3) as [-> | ->] by lia.
  - right. left. reflexivity.
  - left. left. reflexivity.
Qed.

Lemma column_of_list_float (l : list value) (i : nat) (q : Q) :
  nth_error l i = Some (VFloat q) ->
  nth_error (column_of_list l) i = Some (VFloat q).
Proof.
  intros H. unfold column_of_list. destruct (existsb is_float l); [|exact H].
  rewrite nth_error_map, H. reflexivity.
Qed.

Lemma extract_both_or_none (v : value) :
  (exists lat lon, extract_lon_lat_from_wkt v = (VFloat lat, VFloat lon))
  \/ extract_lon_lat_from_wkt v = (VNone, VNone).
Proof.
  unfold extract_lon_lat_from_wkt. destruct v as [s| | |q]; try (right; reflexivity).
  destruct (search point_re (strip_wkt s)) as [[rest caps]|]; [|right; reflexivity].
  destruct (group 1 caps) as [g1|]; [|right; reflexivity].
  destruct (group 2 caps) as [g2|]; [|right; reflexivity].
  destruct (py_float g1) as [lon|]; [|right; reflexivity].
  destruct (py_float g2) as [lat|]; [|right; reflexivity].
  left. exists lat, lon. reflexivity.
Qed.

(** X8. [fix_mojibake_text] restores accented text: a text of Unicode
    scalar values with at least one character of the Latin-1 supplement
    (U+0080 to U+00FF), encoded as UTF-8 and read as Latin-1, is given back
    as it was before. *)
Theorem repair_restores_accented_text (s : str) :
  Forall scalar s -> Exists latin1_supplement s ->
  fix_mojibake_text (VStr (utf8_encode s)) = VStr s.
Proof.
  intros Hs Hacc. apply fix_mojibake_restores; [exact Hs|].
  apply Exists_exists in Hacc. destruct Hacc as (c & Hin & Hc).
  unfold utf8_encode.
  destruct (supplement_marks c Hc) as [H|H]; [left|right];
    apply in_flat_map; exists c; split; assumption.
Qed.

Lemma repair_restores_accented_text_descripcion :
  fix_mojibake_text (VStr descripcion_mojibake) = VStr descripcion_utf8.
Proof.
  apply (repair_restores_accented_text descripcion_utf8).
  - change descripcion_utf8
      with [100; 101; 115; 99; 114; 105; 112; 99; 105; 243; 110].
    repeat (apply Forall_cons; [unfold scalar; lia|]). apply Forall_nil.
  - unfold descripcion_utf8. apply Exists_exists. exists 243.
    split; [vm_compute; tauto | unfold latin1_supplement; lia].
Defined.

Lemma split_description_recovers_fields_three :
  split_standard_description (VStr (lit "Z1 - Norte " ++ [en_dash] ++ lit "001"))
  = [lit "Z1"; lit "Norte"; lit "001"; lit "x"; lit "x"].
Proof.
  apply (split_description_recovers_fields (lit "Z1") three_fields);
    reflexivity.
Defined.

Section Conversions.

Variable lower upper : str -> str.
Variable fr : Q -> str.

(** X9. When the table is rectangular and has a geometry and a label
    column, [convert_mymaps_csv] returns a rectangular table with the ten
    columns of [final_cols_order], in this order, and one row per row of
    the input: no row is dropped, whether its geometry can be read or
    not. *)
Theorem conversion_keeps_every_row (df : frame) (w n : str) :
  rectangular df ->
  find_wkt_col lower upper fr df = Some w ->
  find_nombre_col lower df w = Some n ->
  exists tr final,
    convert_mymaps_csv lower upper fr df = (tr, inl final)
    /\ columns final = final_cols_order
    /\ rectangular final
    /\ nrows final = nrows df.
Proof.
  intros Hr Hw Hn.
  destruct (convert_keeps_rows lower upper fr df w n Hr Hw Hn)
    as (tr & final & Hc & _ & Hcols & Hshape).
  assert (E : nrows final = nrows df).
  { apply nrows_shaped; [exact Hshape|]. intros ->. discriminate Hcols. }
  exists tr, final. split; [exact Hc|]. split; [exact Hcols|].
  split; [|exact E]. unfold rectangular. rewrite E. exact Hshape.
Qed.

(** X10. Row by row, the columns [Lat] and [Lng] of the result of
    [convert_mymaps_csv] hold what [extract_lon_lat_from_wkt] finds in the
    geometry cell of the same row (a missing cell read as the empty text):
    the two numbers when it finds a point, and two missing values
    otherwise. The label column must not itself be called [Lat] or
    [Lng]. *)
Theorem conversion_coordinates_by_row (df : frame) (w n : str)
        (tr : list event) (final : frame) (cells : column) (i : nat)
        (cell : value) :
  lower_on_ascii lower ->
  find_wkt_col lower upper fr df = Some w ->
  find_nombre_col lower df w = Some n ->
  n <> lit "Lat" -> n <> lit "Lng" ->
  convert_mymaps_csv lower upper fr df = (tr, inl final) ->
  assoc_get df w = Some cells ->
  nth_error cells i = Some cell ->
  exists lat_col lng_col lat lng,
    assoc_get final (lit "Lat") = Some lat_col
    /\ assoc_get final (lit "Lng") = Some lng_col
    /\ nth_error lat_col i = Some lat
    /\ nth_error lng_col i = Some lng
    /\ match coordinates_of fr cell with
       | (VFloat a, VFloat b) => lat = VFloat a /\ lng = VFloat b
       | _ => isna lat = true /\ isna lng = true
       end.
Proof.
  intros Hlow Hw Hn NLat NLng Hc Hcells Hi.
  destruct (convert_coordinates lower upper fr Hlow df w n tr final
              Hw Hn NLat NLng Hc) as (cells' & Hcells' & HLat & HLng).
  rewrite Hcells in Hcells'. injection Hcells' as <-.
  unfold coordinates_of in *.
  set (f := fun v => extract_lon_lat_from_wkt
                       (VStr (astype_str fr (fillna (VStr []) v)))) in *.
  change (extract_lon_lat_from_wkt
            (VStr (astype_str fr (fillna (VStr []) cell)))) with (f cell).
  assert (H1 : nth_error (map (fun v => fst (f v)) cells) i
               = Some (fst (f cell)))
    by (rewrite nth_error_map, Hi; reflexivity).
  assert (H2 : nth_error (map (fun v => snd (f v)) cells) i
               = Some (snd (f cell)))
    by (rewrite nth_error_map, Hi; reflexivity).
  destruct (extract_both_or_none
              (VStr (astype_str fr (fillna (VStr []) cell))))
    as [(a & b & E) | E]; fold (f cell) in E; rewrite E in *;
    cbn [fst snd] in H1, H2.
  - apply column_of_list_float in H1, H2.
    eexists _, _, (VFloat a), (VFloat b).
    split; [exact HLat|]. split; [exact HLng|].
    split; [exact H1|]. split; [exact H2|]. split; reflexivity.
  - apply column_of_list_absent in H1, H2.
    destruct H1 as (la & H1 & N1). destruct H2 as (lo & H2 & N2).
    eexists _, _, la, lo.
    split; [exact HLat|]. split; [exact HLng|].
    split; [exact H1|]. split; [exact H2|]. split; assumption.
Qed.

End Conversions.

Lemma conversion_keeps_every_row_mojibake :
  exists tr final,
    converted mojibake_table = (tr, inl final)
    /\ columns final = final_cols_order
    /\ rectangular final
    /\ nrows final = 2%nat.
Proof.
  apply (conversion_keeps_every_row ascii_lower ascii_upper repr_unused
           mojibake_table (lit "WKT") (lit "nombre")).
  - vm_compute. repeat constructor.
  - reflexivity.
  - reflexivity.
Defined.

Lemma conversion_coordinates_by_row_mojibake :
  exists lat_col lng_col lat lng,
    assoc_get (final_of mojibake_table) (lit "Lat") = Some lat_col
    /\ assoc_get (final_of mojibake_table) (lit "Lng") = Some lng_col
    /\ nth_error lat_col 1 = Some lat
    /\ nth_error lng_col 1 = Some lng
    /\ match coordinates_of repr_unused (VStr (lit "sin datos")) with
       | (VFloat a, VFloat b) => lat = VFloat a /\ lng = VFloat b
       | _ => isna lat = true /\ isna lng = true
       end.
Proof.
  apply (conversion_coordinates_by_row ascii_lower ascii_upper repr_unused
           mojibake_table (lit "WKT") (lit "nombre")
           (trace_of mojibake_table) (final_of mojibake_table)
           [VStr (lit "POINT (-77.03 -12.05)"); VStr (lit "sin datos")]).
  - intros s _. reflexivity.
  - reflexivity.
  - reflexivity.
  - discriminate.
  - discriminate.
  - vm_compute. reflexivity.
  - reflexivity.
  - reflexivity.
Defined.

Lemma convert_parsed_columns_address :
  exists descr,
    assoc_get (final_of address_table) (lit "DescripcionOriginal") = Some descr
    /\ assoc_get (final_of address_table) (lit "CodigoZona")
       = Some (map (field_cell 0) descr)
    /\ assoc_get (final_of address_table) (lit "ZonaNombre")
       = Some (map (field_cell 1) descr)
    /\ assoc_get (final_of address_table) (lit "CodigoCliente")
       = Some (map (field_cell 2) descr)
    /\ assoc_get (final_of address_table) (lit "NombreCliente")
       = Some (map (field_cell 3) descr)
    /\ assoc_get (final_of address_table) (lit "Referencias")
       = Some (map (field_cell 4) descr).
Proof.
  apply (convert_parsed_columns ascii_lower ascii_upper repr_unused
           address_table (trace_of address_table)).
  vm_compute. reflexivity.
Defined.

Lemma convert_without_description_plain :
  assoc_get (final_of plain_table) (lit "DescripcionOriginal")
  = Some (repeat (VStr []) (nrows plain_table))
  /\ (forall name, In name field_columns ->
        assoc_get (final_of plain_table) name
        = Some (repeat (VStr x_field) (nrows plain_table))).
Proof.
  apply (convert_without_description ascii_lower ascii_upper repr_unused
           plain_table (trace_of plain_table)).
  - reflexivity.
  - vm_compute. reflexivity.
Defined.

Lemma convert_summary_mojibake :
  exists cells tr final,
    assoc_get mojibake_table (lit "WKT") = Some cells
    /\ converted mojibake_table = (tr, inl final)
    /\ In (EPrint (MSummary (nrows mojibake_table)
                            (unparsed_count repr_unused cells))) tr.
Proof.
  apply (convert_summary ascii_lower ascii_upper repr_unused mojibake_table
           (lit "WKT") (lit "nombre")).
  - intros s _. reflexivity.
  - vm_compute. repeat constructor.
  - reflexivity.
  - reflexivity.
  - discriminate.
  - discriminate.
Defined.

Lemma convert_outcomes_geometry_only :
  converted geometry_only = (notices ascii_lower geometry_only, inr KeyError).
Proof.
  apply (convert_outcomes ascii_lower ascii_upper repr_unused geometry_only).
  vm_compute. repeat constructor.
Defined.

Section Label.

Variable lower upper : str -> str.
Variable fr : Q -> str.
Hypothesis lower_ascii : lower_on_ascii lower.

Lemma column_is_not_the_added_one (df : frame) (c : str) :
  In c (columns df) -> find_descr_col lower df = None -> c <> descr_missing.
Proof.
  intros Hc Hd ->. apply (cols_lower_has_key lower) in Hc.
  revert Hd. apply first_key_present with (k := lower descr_missing);
    [exact Hc|].
  rewrite lower_ascii by reflexivity. reflexivity.
Qed.

Lemma repair_texts_label (df : frame) (n dc : str) (tr : list event)
      (df2 : frame) (src : column) :
  repair_texts fr df (Some n) dc = (tr, inl df2) ->
  assoc_get df n = Some src ->
  assoc_get df2 n
  = Some (map (fun v => Nat.iter (if str_eqb n dc then 2 else 1)
                                 (repair_cell fr) v) src).
Proof.
  unfold repair_texts. intros H Hsrc.
  apply bind_inl in H. destruct H as (t1 & ncells & t2 & Hn & H & _).
  apply getitem_inl in Hn. destruct Hn as (_ & k & Ek & Hn).
  inversion Ek; subst k. rewrite Hsrc in Hn. inversion Hn; subst ncells.
  apply bind_inl in H. destruct H as (t3 & dcells & t4 & Hd & H & _).
  apply getitem_inl in Hd. destruct Hd as (_ & k & Ek' & Hd).
  inversion Ek'; subst k. inversion H; subst df2.
  destruct (str_eqb n dc) eqn:E.
  - apply str_eqb_eq in E. subst dc.
    rewrite assoc_get_set_same in Hd. inversion Hd; subst dcells.
    rewrite assoc_get_set_same. f_equal. unfold repair_column.
    rewrite map_map. apply map_ext. intros v. reflexivity.
  - apply str_eqb_neq in E.
    rewrite assoc_get_set_other by (intros Q; apply E; symmetry; exact Q).
    rewrite assoc_get_set_same. f_equal.
Qed.

Lemma build_final_botica (df : frame) (n dc : str) (dir : option str)
      (tr : list event) (fin : frame) (cells : column) :
  build_final fr df (Some n) dc dir = (tr, inl fin) ->
  assoc_get df n = Some cells ->
  assoc_get fin (lit "Botica")
  = Some (map (fun v => str_strip (fillna (VStr []) (VStr (astype_str fr v))))
              cells).
Proof.
  unfold build_final. intros H Hcells.
  repeat (apply bind_inl in H;
          let t1 := fresh "t" in let a := fresh "a" in
          let t2 := fresh "t" in let Ha := fresh "Ha" in
          destruct H as (t1 & a & t2 & Ha & H & _)).
  match goal with
  | Hg : getitem df (Some n) = (_, inl _) |- _ =>
      apply getitem_inl in Hg; destruct Hg as (_ & k1 & Ek1 & Hg);
      inversion Ek1; subst k1; rewrite Hcells in Hg; inversion Hg; subst
  end.
  inversion H as [[Etr Efin]]. reflexivity.
Qed.

Lemma build_final_no_address (df : frame) (nc : option str) (dc : str)
      (tr : list event) (fin : frame) :
  build_final fr df nc dc None = (tr, inl fin) ->
  exists k, assoc_get fin (lit "Direccion") = Some (repeat (VStr []) k).
Proof.
  unfold build_final. intros H.
  repeat (apply bind_inl in H;
          let t1 := fresh "t" in let a := fresh "a" in
          let t2 := fresh "t" in let Ha := fresh "Ha" in
          destruct H as (t1 & a & t2 & Ha & H & _)).
  match goal with
  | Hg : ret (repeat (VStr []) ?k) = (_, inl _) |- _ =>
      inversion Hg; subst; exists k
  end.
  inversion H as [[Etr Efin]]. reflexivity.
Qed.

(** X11. The column [Botica] of the result of [convert_mymaps_csv]
    holds, row by row, the text of the label column, repaired by
    [fix_mojibake_text] (twice when the label column is also the
    description column) and with the blanks at both ends removed. The label
    column must not itself be called [Lat] or [Lng]. *)
Theorem botica_is_stripped_label (df : frame) (w n : str)
        (tr : list event) (final : frame) :
  find_wkt_col lower upper fr df = Some w ->
  find_nombre_col lower df w = Some n ->
  n <> lit "Lat" -> n <> lit "Lng" ->
  convert_mymaps_csv lower upper fr df = (tr, inl final) ->
  exists cells,
    assoc_get df n = Some cells
    /\ assoc_get final (lit "Botica")
       = Some (map (fun v =>
                      str_strip (Nat.iter (repair_passes lower upper fr df)
                                          (repair_cell fr) v))
                   cells).
Proof.
  intros Hw Hn NLat NLng H.
  destruct (convert_anatomy lower upper fr df tr final H)
    as (w' & n' & st & df1 & df2 & fin & t0 & t1 & t2 & t3 & t4
        & Hw' & Hn' & Hst & Hdf1 & Hdf2 & Hfin & Hout).
  rewrite Hw in Hw'. injection Hw' as <-.
  rewrite Hn in Hn'. injection Hn' as <-.
  pose proof (find_nombre_col_in lower upper df w n Hn) as Hin.
  destruct (assoc_get df n) as [cells|] eqn:Hcells.
  2:{ exfalso. destruct (assoc_get_in df n Hin) as [c Hc].
      rewrite Hcells in Hc. discriminate Hc. }
  exists cells. split; [reflexivity|].
  destruct (ensure_descr_inl lower df t0 st Hst) as [Edc _].
  assert (G0 : assoc_get (fst st) n = Some cells).
  { rewrite (ensure_descr_keeps lower df t0 st n Hst); [exact Hcells|].
    apply column_is_not_the_added_one. exact Hin. }
  assert (G1 : assoc_get df1 n = Some cells).
  { rewrite (add_coordinates_inl fr _ _ _ _ Hdf1 n NLat NLng). exact G0. }
  pose proof (repair_texts_label _ _ _ _ _ _ Hdf2 G1) as G2.
  rewrite (select_inl _ _ _ _ Hout) by (vm_compute; tauto).
  rewrite (build_final_botica _ _ _ _ _ _ _ Hfin G2).
  unfold repair_passes. rewrite Hw, Hn, Edc. f_equal. rewrite map_map.
  apply map_ext. intros v.
  destruct (str_eqb n (descr_name lower df)); reflexivity.
Qed.

(** X12. When no column is named after one of the address keywords,
    the column [Direccion] of the result of [convert_mymaps_csv] on a
    rectangular table holds the empty text in every row. *)
Theorem direccion_empty_without_address (df : frame) (tr : list event)
        (final : frame) :
  rectangular df ->
  find_direccion_col lower df = None ->
  convert_mymaps_csv lower upper fr df = (tr, inl final) ->
  assoc_get final (lit "Direccion") = Some (repeat (VStr []) (nrows df)).
Proof.
  intros Hr Hdir H.
  destruct (convert_anatomy lower upper fr df tr final H)
    as (w & n & st & df1 & df2 & fin & t0 & t1 & t2 & t3 & t4
        & Hw & Hn & Hst & Hdf1 & Hdf2 & Hfin & Hout).
  rewrite Hdir in Hfin.
  destruct (build_final_no_address _ _ _ _ _ Hfin) as [k Hk].
  destruct (convert_keeps_rows lower upper fr df w n Hr Hw Hn)
    as (tr' & final' & H' & _ & _ & Hshape).
  rewrite H in H'. injection H' as _ <-.
  rewrite (select_inl _ _ _ _ Hout) by (vm_compute; tauto).
  assert (G : assoc_get final (lit "Direccion") = Some (repeat (VStr []) k)).
  { rewrite (select_inl _ _ _ _ Hout) by (vm_compute; tauto). exact Hk. }
  pose proof (shaped_get _ _ _ _ Hshape G) as L. rewrite repeat_length in L.
  rewrite Hk, L. reflexivity.
Qed.

End Label.

Lemma botica_is_stripped_label_mojibake :
  exists cells,
    assoc_get mojibake_table (lit "nombre") = Some cells
    /\ assoc_get (final_of mojibake_table) (lit "Botica")
       = Some (map (fun v =>
                      str_strip
                        (Nat.iter (repair_passes ascii_lower ascii_upper
                                                 repr_unused mojibake_table)
                                  (repair_cell repr_unused) v))
                   cells).
Proof.
  apply (botica_is_stripped_label ascii_lower ascii_upper repr_unused
           (fun s _ => eq_refl) mojibake_table (lit "WKT") (lit "nombre")
           (trace_of mojibake_table)).
  - reflexivity.
  - reflexivity.
  - discriminate.
  - discriminate.
  - vm_compute. reflexivity.
Defined.

Lemma direccion_empty_without_address_mojibake :
  assoc_get (final_of mojibake_table) (lit "Direccion")
  = Some (repeat (VStr []) (nrows mojibake_table)).
Proof.
  apply (direccion_empty_without_address ascii_lower ascii_upper repr_unused
           mojibake_table (trace_of mojibake_table)).
  - vm_compute. repeat constructor.
  - reflexivity.
  - vm_compute. reflexivity.
Defined.

(* ================================================================= *)
(** ** The script as a whole *)

Section Without.

Variable p : event -> bool.
Hypothesis p_error : forall cols, p (EPrint (MNoWktColumn cols)) = false.
Hypothesis p_notice : p (EPrint MNoDescrColumn) = false.
Hypothesis p_directory : p EEnsureOutDir = false.

Lemma without_ret {A : Type} (a : A) : without p (ret a).
Proof. reflexivity. Qed.

Lemma without_raise {A : Type} (h : halt) : without p (@raise A h).
Proof. reflexivity. Qed.

Lemma without_bind {A B : Type} (m : M A) (f : A -> M B) :
  without p m -> (forall a, without p (f a)) -> without p (bind m f).
Proof.
  unfold without, bind. intros Hm Hf. destruct m as [tr [a|h]]; [|exact Hm].
  specialize (Hf a). destruct (f a) as [tr' r]. cbn [fst] in *.
  rewrite existsb_app, Hm, Hf. reflexivity.
Qed.

Lemma without_getitem (df : frame) (c : option str) :
  without p (getitem df c).
Proof.
  unfold getitem. destruct c as [name|]; [|reflexivity].
  destruct (assoc_get df name); reflexivity.
Qed.

Lemma without_select (df : frame) (names : list str) :
  without p (select df names).
Proof.
  induction names as [|n names IH]; [reflexivity|].
  cbn [select]. apply without_bind; [apply without_getitem|]. intros col.
  apply without_bind; [exact IH|]. intros more. reflexivity.
Qed.

Lemma without_ensure_descr (lower : str -> str) (df : frame) :
  without p (ensure_descr lower df).
Proof.
  unfold ensure_descr, without. destruct (find_descr_col lower df);
    [reflexivity|].
  cbn [bind emit ret fst app existsb]. rewrite p_notice. reflexivity.
Qed.

Lemma without_add_coordinates (fr : Q -> str) (df : frame) (w : str) :
  without p (add_coordinates fr df w).
Proof.
  unfold add_coordinates.
  repeat first [ apply without_ret | apply without_raise
               | apply without_getitem | apply without_select
               | apply without_bind; [|intros ?] ].
Qed.

Lemma without_repair_texts (fr : Q -> str) (df : frame) (nc : option str)
      (dc : str) : without p (repair_texts fr df nc dc).
Proof.
  unfold repair_texts.
  repeat first [ apply without_ret | apply without_raise
               | apply without_getitem | apply without_select
               | apply without_bind; [|intros ?] ].
Qed.

Lemma without_build_final (fr : Q -> str) (df : frame) (nc : option str)
      (dc : str) (dir : option str) : without p (build_final fr df nc dc dir).
Proof.
  unfold build_final, parsed_field, frame_of_rows.
  repeat first [ apply without_ret | apply without_raise
               | apply without_getitem | apply without_select
               | apply without_bind; [|intros ?] ].
  - destruct (forallb _ _); [apply without_ret | apply without_raise].
  - destruct dir as [c|]; [destruct (is_empty c)|];
      repeat first [ apply without_ret | apply without_getitem
                   | apply without_bind; [|intros ?] ].
Qed.

Lemma fails_without {A : Type} (m : M A) :
  without p m -> without_on_failure p m.
Proof. intros H tr h E. rewrite E in H. exact H. Qed.

Lemma bind_fails {A B : Type} (m : M A) (f : A -> M B) :
  without p m ->
  (forall tr a, m = (tr, inl a) -> without_on_failure p (f a)) ->
  without_on_failure p (bind m f).
Proof.
  unfold without, without_on_failure, bind. intros Hm Hf tr h.
  destruct m as [tr1 [a|h1]]; cbn [fst] in Hm.
  - specialize (Hf tr1 a eq_refl). destruct (f a) as [tr2 r].
    intros [= <- ->]. rewrite existsb_app, Hm, (Hf tr2 h eq_refl). reflexivity.
  - intros [= <- _]. exact Hm.
Qed.

Lemma select_has (df : frame) (names : list str) :
  forall (tr : list event) (out : frame),
    select df names = (tr, inl out) ->
    forall k, In k names -> exists col, assoc_get out k = Some col.
Proof.
  intros tr out H k Hk. rewrite (select_inl df names tr out H k Hk).
  revert tr out H. induction names as [|n names IH]; [destruct Hk|].
  intros tr out H. cbn [select] in H.
  apply bind_inl in H. destruct H as (t1 & col & t1' & Hcol & H & _).
  apply bind_inl in H. destruct H as (t2 & more & t2' & Hmore & _ & _).
  destruct Hk as [<- | Hk].
  - apply getitem_inl in Hcol. destruct Hcol as (_ & name & [= <-] & Hc).
    exists col. exact Hc.
  - exact (IH Hk _ _ Hmore).
Qed.

(** A conversion that fails has none of these events. *)
Lemma convert_fails_without (lower upper : str -> str) (fr : Q -> str)
      (df : frame) :
  without_on_failure p (convert_mymaps_csv lower upper fr df).
Proof.
  unfold convert_mymaps_csv.
  destruct (find_wkt_col lower upper fr df) as [w|];
    [|apply fails_without; unfold without, bind, emit, raise;
      cbn [fst app existsb]; rewrite p_error; reflexivity].
  apply bind_fails; [apply without_ensure_descr|]. intros t0 st _.
  apply bind_fails; [apply without_add_coordinates|]. intros t1 df1 _.
  apply bind_fails; [apply without_repair_texts|]. intros t2 df2 _.
  apply bind_fails; [apply without_build_final|]. intros t3 fin _.
  apply bind_fails;
    [unfold without; cbn [emit fst existsb]; rewrite p_directory; reflexivity|].
  intros t4 u4 _.
  apply bind_fails; [apply without_select|]. intros t5 out Hout.
  destruct (select_has fin final_cols_order t5 out Hout (lit "Lat"))
    as (lat & Hlat); [vm_compute; tauto|].
  rewrite (getitem_some out (lit "Lat") lat Hlat).
  intros tr h H. discriminate H.
Qed.

End Without.

Lemma notices_silent (lower : str -> str) (df : frame) :
  filter is_output_event (notices lower df) = [].
Proof. unfold notices. destruct (find_descr_col lower df); reflexivity. Qed.

(** X13. The script as a whole: without the input file it stops with exit
    status 1 after the error message, having created only the directory of
    the backups. With the input file it first copies the backup and says
    so, then converts; when the conversion succeeds the run ends normally
    with the banner as its last event and the output file written exactly
    once; when the conversion stops, for whatever reason, the run stops in
    the same way, the output file has not been written and the banner is
    not printed. *)
Theorem output_written_only_on_success (lower upper : str -> str)
        (fr : Q -> str) (input : option frame) :
  let run := script lower upper fr input in
  match input with
  | None => run = ([EMakedirsBackups; EPrint MInputNotFound], inr (SysExit 1))
  | Some df =>
      match convert_mymaps_csv lower upper fr df with
      | (tr, inl _) =>
          run = ([EMakedirsBackups; ECopyBackup; EPrint MBackupCreated]
                 ++ tr ++ [EPrint MScriptDone], inl tt)
          /\ length (filter is_output_event (fst run)) = 1%nat
      | (tr, inr h) =>
          run = ([EMakedirsBackups; ECopyBackup; EPrint MBackupCreated] ++ tr,
                 inr h)
          /\ existsb is_output_event (fst run) = false
          /\ existsb is_banner (fst run) = false
      end
  end.
Proof.
  cbv zeta. destruct input as [df|]; [|reflexivity].
  destruct (convert_mymaps_csv lower upper fr df) as [tr [final|h]] eqn:E.
  - assert (R : script lower upper fr (Some df)
                = ([EMakedirsBackups; ECopyBackup; EPrint MBackupCreated]
                   ++ tr ++ [EPrint MScriptDone], inl tt)).
    { unfold script, bind, emit. rewrite E. reflexivity. }
    split; [exact R|]. rewrite R. cbn [fst].
    destruct (convert_trace lower upper fr df tr final E) as (lat & _ & ->).
    rewrite !filter_app, notices_silent. reflexivity.
  - assert (R : script lower upper fr (Some df)
                = ([EMakedirsBackups; ECopyBackup; EPrint MBackupCreated]
                   ++ tr, inr h)).
    { unfold script, bind, emit. rewrite E. reflexivity. }
    split; [exact R|]. rewrite R. cbn [fst].
    rewrite !existsb_app. cbn [existsb is_output_event is_banner orb].
    split.
    + apply (convert_fails_without is_output_event) with (4 := E);
        reflexivity.
    + apply (convert_fails_without is_banner) with (4 := E); reflexivity.
Qed.

(* ================================================================= *)
(** ** The dashboard *)

Section DashboardFacts.
Import Dashboard.

Variable cell : Type.
Variable cell_eqb : cell -> cell -> bool.
Variable missing : cell -> bool.
Variable cell_text : cell -> option str.
Variable mean : list cell -> option cell.
Variable sorted : list cell -> option (list cell).

Lemma update_session_flag (s : session cell) (sel : list cell) (button : bool) :
  flag_iff_stored s ->
  fst (update_session s sel button) = true
  <-> snd (update_session s sel button) <> [].
Proof.
  destruct s as [[on|] [kept|]]; unfold flag_iff_stored, update_session,
    init_session; cbn [filtrar_boticas boticas_filtradas]; intros H;
    try contradiction.
  - destruct button, sel as [|v sel], on; cbn [fst snd]; split; intros E;
      try congruence; try reflexivity; try (apply H; exact E);
      try (exfalso; apply E; reflexivity).
  - destruct button, sel as [|v sel]; cbn [fst snd]; split; intros E;
      try congruence; try reflexivity; try (exfalso; apply E; reflexivity).
Qed.

Lemma run_state (df : table cell) (s : session cell) (zs bs : list cell)
      (button : bool) :
  state_of (app cell_eqb missing cell_text mean sorted df s zs bs button) = s
  \/ state_of (app cell_eqb missing cell_text mean sorted df s zs bs button)
     = Session (Some (fst (update_session s bs button)))
               (Some (snd (update_session s bs button))).
Proof.
  unfold app.
  destruct (option_bind _ _); [|left; reflexivity].
  destruct (rows_of_zones _ _ _) as [dz|]; [|left; reflexivity].
  destruct (if empty dz then _ else _); [|left; reflexivity].
  destruct (update_session s bs button) as [on kept]. cbn [fst snd].
  destruct (rows_to_show _ _ _ _) as [[dfil said]|]; [|right; reflexivity].
  destruct (show _ _ _) as [shown []]; right; reflexivity.
Qed.

Lemma run_keeps_flag (df : table cell) (s : session cell) (zs bs : list cell)
      (button : bool) :
  flag_iff_stored s ->
  flag_iff_stored
    (state_of (app cell_eqb missing cell_text mean sorted df s zs bs button)).
Proof.
  intros H. destruct (run_state df s zs bs button) as [-> | ->]; [exact H|].
  unfold flag_iff_stored. cbn [filtrar_boticas boticas_filtradas].
  apply update_session_flag. exact H.
Qed.

Lemma replay_from (history : list (interaction cell)) (s : session cell) :
  flag_iff_stored s ->
  flag_iff_stored
    (fold_left
       (fun s i =>
          state_of (app cell_eqb missing cell_text mean sorted
                        (shown_table i) s (zones_chosen i) (boticas_chosen i)
                        (button_pressed i)))
       history s).
Proof.
  revert s. induction history as [|i history IH]; intros s H; [exact H|].
  cbn [fold_left]. apply IH. apply run_keeps_flag. exact H.
Qed.

Lemma col_take_rows (mask : list bool) (t : table cell) (name : string) :
  col (take_rows mask t) name = option_map (pick mask) (col t name).
Proof.
  unfold col. induction t as [|[k c] t IH]; [reflexivity|].
  cbn [take_rows map assoc_get fst snd].
  destruct (str_eqb k (lit name)); [reflexivity|]. exact IH.
Qed.

Lemma Forall_pick (P : cell -> Prop) (mask : list bool) (s : list cell) :
  Forall P s -> Forall P (pick mask s).
Proof.
  revert s. induction mask as [|b mask IH]; intros s H; [constructor|].
  destruct s as [|v s]; [constructor|]. inversion H; subst.
  cbn [pick]. destruct b; [constructor; [assumption|]|]; apply IH; assumption.
Qed.

Lemma pick_isin (vs s : list cell) :
  Forall (among cell_eqb vs) (pick (isin cell_eqb vs s) s).
Proof.
  unfold isin. induction s as [|v s IH]; [constructor|].
  cbn [map pick]. destruct (existsb (cell_eqb v) vs) eqn:E; [|exact IH].
  constructor; [exact E | exact IH].
Qed.

Lemma pick_present (lat lng : list cell) :
  Forall (fun v => missing v = false) (pick (both_present missing lat lng) lat)
  /\ Forall (fun v => missing v = false)
            (pick (both_present missing lat lng) lng).
Proof.
  revert lng. induction lat as [|a lat IH]; intros [|b lng];
    cbn [both_present pick]; try (split; constructor).
  destruct (IH lng) as [H1 H2].
  destruct (missing a) eqn:Ea, (missing b) eqn:Eb; cbn [negb andb];
    try (split; assumption).
  split; constructor; assumption.
Qed.

Lemma column_all_take_rows (name : string) (P : cell -> Prop)
      (mask : list bool) (t : table cell) :
  column_all name P t -> column_all name P (take_rows mask t).
Proof.
  intros H s. rewrite col_take_rows.
  destruct (col t name) as [c|] eqn:E; [|discriminate].
  intros [= <-]. apply Forall_pick. apply H. exact E.
Qed.

Lemma column_all_isin (name : string) (vs s : list cell) (t : table cell) :
  col t name = Some s ->
  column_all name (among cell_eqb vs) (take_rows (isin cell_eqb vs s) t).
Proof.
  intros E c. rewrite col_take_rows, E. intros [= <-]. apply pick_isin.
Qed.

Lemma cargar_datos_present (raw df : table cell) :
  cargar_datos missing raw = Some df ->
  column_all "Lat" (fun v => missing v = false) df
  /\ column_all "Lng" (fun v => missing v = false) df.
Proof.
  unfold cargar_datos.
  destruct (col raw "Lat") as [lat|] eqn:E1; [|discriminate].
  destruct (col raw "Lng") as [lng|] eqn:E2; [|discriminate].
  intros [= <-]. destruct (pick_present lat lng) as [H1 H2].
  split; intros c; rewrite col_take_rows; [rewrite E1 | rewrite E2];
    intros [= <-]; assumption.
Qed.

Lemma rows_of_zones_chosen (df dz : table cell) (zs : list cell) :
  rows_of_zones cell_eqb df zs = Some dz ->
  column_all "CodigoZona" (among cell_eqb zs) dz
  /\ (forall name P, column_all name P df -> column_all name P dz).
Proof.
  unfold rows_of_zones. destruct zs as [|z zs].
  - intros [= <-]. split; [|intros name P _]; intros c; discriminate.
  - destruct (col df "CodigoZona") as [zona|] eqn:E; [|discriminate].
    intros [= <-]. split.
    + apply column_all_isin. exact E.
    + intros name P H. apply column_all_take_rows. exact H.
Qed.

Lemma rows_to_show_filtered (dz rows : table cell) (on : bool)
      (kept : list cell) (said : list (display cell)) :
  rows_to_show cell_eqb dz on kept = Some (rows, said) ->
  (forall name P, column_all name P dz -> column_all name P rows)
  /\ (forall d, In d said -> d = Info \/ exists n, d = Success n)
  /\ (forall n, In (Success n) said ->
        on = true /\ kept <> [] /\ n = len rows
        /\ column_all "Botica" (among cell_eqb kept) rows).
Proof.
  unfold rows_to_show. destruct (empty dz).
  - intros [= <- <-]. split; [|split].
    + intros name P _ c. discriminate.
    + intros d [<-|[]]. left. reflexivity.
    + intros n [H|[]]. discriminate.
  - destruct on; [destruct kept as [|k kept]|].
    + intros [= <- <-]. split; [|split];
        [intros name P H; exact H | intros d [] | intros n []].
    + destruct (col dz "Botica") as [botica|] eqn:E; [|discriminate].
      intros [= <- <-]. split; [|split].
      * intros name P H. apply column_all_take_rows. exact H.
      * intros d [<-|[]]. right. eexists. reflexivity.
      * intros n [[= <-]|[]]. split; [reflexivity|]. split; [discriminate|].
        split; [reflexivity|]. apply column_all_isin. exact E.
    + intros [= <- <-]. split; [|split];
        [intros name P H; exact H | intros d [] | intros n []].
Qed.

Lemma markers_of_cells (lat lng zona botica znom ccli ncli refs dir : list cell)
      (m : marker cell) :
  In m (markers_of cell_text lat lng zona botica znom ccli ncli refs dir) ->
  In (fst (location m)) lat /\ In (snd (location m)) lng
  /\ In (tooltip m) botica
  /\ exists z, In z zona /\ color m = color_of cell_text z
               /\ nth_error (popup m) 2 = Some z.
Proof.
  revert lng zona botica znom ccli ncli refs dir.
  induction lat as [|a lat IH];
    intros [|b lng] [|z zona] [|t botica] [|zn znom] [|cc ccli] [|nc ncli]
           [|r refs] [|d dir]; cbn [markers_of]; try (intros []; fail).
  intros [<- | H].
  - cbn [location tooltip color popup fst snd nth_error].
    repeat split; try (left; reflexivity).
    exists z. repeat split. left; reflexivity.
  - destruct (IH _ _ _ _ _ _ _ _ H) as (H1 & H2 & H3 & z' & H4 & H5 & H6).
    repeat split; try (right; assumption).
    exists z'. repeat split; try assumption. right; assumption.
Qed.

Lemma map_of_markers (rows : table cell) (c : cell * cell)
      (ms : list (marker cell)) :
  map_of cell_text mean rows = Some (Map c ms) ->
  exists lat lng zona botica znom ccli ncli refs dir,
    col rows "Lat" = Some lat /\ col rows "Lng" = Some lng
    /\ col rows "CodigoZona" = Some zona /\ col rows "Botica" = Some botica
    /\ col rows "ZonaNombre" = Some znom
    /\ col rows "CodigoCliente" = Some ccli
    /\ col rows "NombreCliente" = Some ncli
    /\ col rows "Referencias" = Some refs
    /\ col rows "Direccion" = Some dir
    /\ ms = markers_of cell_text lat lng zona botica znom ccli ncli refs dir.
Proof.
  unfold map_of.
  destruct (col rows "Lat") as [lat|]; [|discriminate].
  destruct (col rows "Lng") as [lng|]; [|discriminate].
  destruct (mean lat) as [clat|]; [|discriminate].
  destruct (mean lng) as [clng|]; [|discriminate].
  destruct (col rows "CodigoZona") as [zona|]; [|discriminate].
  destruct (col rows "Botica") as [botica|]; [|discriminate].
  destruct (col rows "ZonaNombre") as [znom|]; [|discriminate].
  destruct (col rows "CodigoCliente") as [ccli|]; [|discriminate].
  destruct (col rows "NombreCliente") as [ncli|]; [|discriminate].
  destruct (col rows "Referencias") as [refs|]; [|discriminate].
  destruct (col rows "Direccion") as [dir|]; [|discriminate].
  intros [= <- <-].
  exists lat, lng, zona, botica, znom, ccli, ncli, refs, dir.
  repeat split; reflexivity.
Qed.

Lemma map_of_is_map (rows : table cell) (d : display cell) :
  map_of cell_text mean rows = Some d -> exists c ms, d = Map c ms.
Proof.
  unfold map_of.
  destruct (col rows "Lat") as [lat|]; [|discriminate].
  destruct (col rows "Lng") as [lng|]; [|discriminate].
  destruct (mean lat) as [clat|]; [|discriminate].
  destruct (mean lng) as [clng|]; [|discriminate].
  destruct (col rows "CodigoZona") as [zona|]; [|discriminate].
  destruct (col rows "Botica") as [botica|]; [|discriminate].
  destruct (col rows "ZonaNombre") as [znom|]; [|discriminate].
  destruct (col rows "CodigoCliente") as [ccli|]; [|discriminate].
  destruct (col rows "NombreCliente") as [ncli|]; [|discriminate].
  destruct (col rows "Referencias") as [refs|]; [|discriminate].
  destruct (col rows "Direccion") as [dir|]; [|discriminate].
  intros [= <-]. eexists _, _. reflexivity.
Qed.

(** What the last part of the script displays: no count, no table but the
    one it was given, and a map only after that table. *)
Lemma show_shown (rows : table cell) (shown : list (display cell))
      (finished : bool) :
  show cell_text mean rows = (shown, finished) ->
  (forall n, ~ In (Success n) shown)
  /\ (forall r, In (Data r) shown -> r = rows /\ empty rows = false)
  /\ (forall c ms, In (Map c ms) shown ->
        finished = true /\ In (Data rows) shown
        /\ map_of cell_text mean rows = Some (Map c ms)).
Proof.
  unfold show. destruct (empty rows).
  { intros [= <- <-]. split; [|split].
    - intros n [H|[]]; discriminate.
    - intros r [H|[]]; discriminate.
    - intros c ms [H|[]]; discriminate. }
  destruct (map_of cell_text mean rows) as [m|] eqn:Em.
  - destruct (map_of_is_map rows m Em) as (c0 & ms0 & ->).
    intros [= <- <-]. split; [|split].
    + intros n [H|[H|[]]]; discriminate.
    + intros r [[= <-]|[H|[]]]; [split; reflexivity | discriminate].
    + intros c ms [H|[[= <- <-]|[]]]; [discriminate|].
      split; [reflexivity|]. split; [left; reflexivity | reflexivity].
  - intros [= <- <-]. split; [|split].
    + intros n [H|[]]; discriminate.
    + intros r [[= <-]|[]]. split; reflexivity.
    + intros c ms [H|[]]; discriminate.
Qed.

(** What a run has computed on the way when it has displayed something. *)
Lemma app_said (df : table cell) (s : session cell) (zs bs : list cell)
      (button : bool) :
  said_of (app cell_eqb missing cell_text mean sorted df s zs bs button) = []
  \/ exists dz rows said shown finished,
       rows_of_zones cell_eqb df zs = Some dz
       /\ rows_to_show cell_eqb dz (fst (update_session s bs button))
                       (snd (update_session s bs button)) = Some (rows, said)
       /\ show cell_text mean rows = (shown, finished)
       /\ said_of (app cell_eqb missing cell_text mean sorted df s zs bs
                       button) = said ++ shown
       /\ state_of (app cell_eqb missing cell_text mean sorted df s zs bs
                        button)
          = Session (Some (fst (update_session s bs button)))
                    (Some (snd (update_session s bs button))).
Proof.
  unfold app.
  destruct (option_bind _ _); [|left; reflexivity].
  destruct (rows_of_zones cell_eqb df zs) as [dz|]; [|left; reflexivity].
  destruct (if empty dz then _ else _); [|left; reflexivity].
  destruct (update_session s bs button) as [on kept]. cbn [fst snd].
  destruct (rows_to_show cell_eqb dz on kept) as [[rows said]|] eqn:E;
    [|left; reflexivity].
  destruct (show cell_text mean rows) as [shown finished] eqn:Es.
  right. exists dz, rows, said, shown, finished.
  destruct finished; cbn [said_of state_of];
    (split; [reflexivity|]; split; [exact E|]; split; [exact Es|];
     split; reflexivity).
Qed.

(** The table and the map a run displays. *)
Lemma app_displays (df : table cell) (s : session cell) (zs bs : list cell)
      (button : bool) (d : display cell) :
  In d (said_of (app cell_eqb missing cell_text mean sorted df s zs bs
                     button)) ->
  exists dz rows said shown finished,
    rows_of_zones cell_eqb df zs = Some dz
    /\ rows_to_show cell_eqb dz (fst (update_session s bs button))
                    (snd (update_session s bs button)) = Some (rows, said)
    /\ show cell_text mean rows = (shown, finished)
    /\ state_of (app cell_eqb missing cell_text mean sorted df s zs bs
                     button)
       = Session (Some (fst (update_session s bs button)))
                 (Some (snd (update_session s bs button)))
    /\ (forall n, d = Success n -> In d said)
    /\ (forall r, d = Data r -> r = rows /\ empty rows = false)
    /\ (forall c ms, d = Map c ms ->
          map_of cell_text mean rows = Some (Map c ms)).
Proof.
  intros H. destruct (app_said df s zs bs button) as [E|E].
  { rewrite E in H. destruct H. }
  destruct E as (dz & rows & said & shown & finished & Hz & Hr & Hs & E & Est).
  rewrite E in H. exists dz, rows, said, shown, finished.
  split; [exact Hz|]. split; [exact Hr|]. split; [exact Hs|].
  split; [exact Est|].
  destruct (rows_to_show_filtered _ _ _ _ _ Hr) as (_ & Hsaid & _).
  destruct (show_shown _ _ _ Hs) as (Hno & Hdata & Hmap).
  apply in_app_or in H. split; [|split].
  - intros n ->. destruct H as [H|H]; [exact H|]. exfalso. exact (Hno _ H).
  - intros r ->. destruct H as [H|H]; [|exact (Hdata _ H)].
    exfalso. destruct (Hsaid _ H) as [F|[n F]]; discriminate.
  - intros c ms ->. destruct H as [H|H]; [|exact (proj2 (proj2 (Hmap _ _ H)))].
    exfalso. destruct (Hsaid _ H) as [F|[n F]]; discriminate.
Qed.

End DashboardFacts.

Section DashboardResults.
Import Dashboard.

Variable cell : Type.
Variable cell_eqb : cell -> cell -> bool.
Variable missing : cell -> bool.
Variable cell_text : cell -> option str.
Variable mean : list cell -> option cell.
Variable sorted : list cell -> option (list cell).

Lemma pick_length (mask : list bool) (s s' : list cell) :
  length s = length s' -> length (pick mask s) = length (pick mask s').
Proof.
  revert s s'. induction mask as [|b mask IH]; intros [|v s] [|v' s'] H;
    try reflexivity; try discriminate.
  cbn [pick]. injection H as H. destruct b; cbn [length]; rewrite (IH s s' H);
    reflexivity.
Qed.

Lemma take_rows_aligned (n : nat) (mask : list bool) (t : table cell) :
  rows_aligned n t -> exists n', rows_aligned n' (take_rows mask t).
Proof.
  intros H. destruct t as [|[k c] t].
  - exists O. constructor.
  - exists (length (pick mask c)). unfold rows_aligned, take_rows in *.
    rewrite Forall_forall in *. intros x Hx. apply in_map_iff in Hx.
    destruct Hx as (y & <- & Hy). cbn [snd].
    apply pick_length. rewrite (H y Hy). symmetry.
    apply (H (k, c)). left. reflexivity.
Qed.

Lemma col_aligned (n : nat) (t : table cell) (name : string) (s : list cell) :
  rows_aligned n t -> col t name = Some s -> length s = n.
Proof.
  unfold col, rows_aligned. intros H. induction t as [|[k c] t IH];
    [discriminate|].
  inversion H; subst. cbn [assoc_get].
  destruct (str_eqb k (lit name)); [intros [= <-]; reflexivity|].
  apply IH. assumption.
Qed.

Lemma len_aligned (n : nat) (t : table cell) :
  rows_aligned n t -> t <> [] -> len t = n.
Proof.
  intros H Hn. destruct t as [|[k c] t]; [contradiction|].
  inversion H; subst. reflexivity.
Qed.

Lemma markers_of_length (n : nat)
      (lat lng zona botica znom ccli ncli refs dir : list cell) :
  length lat = n -> length lng = n -> length zona = n -> length botica = n ->
  length znom = n -> length ccli = n -> length ncli = n -> length refs = n ->
  length dir = n ->
  length (markers_of cell_text lat lng zona botica znom ccli ncli refs dir) = n.
Proof.
  revert lat lng zona botica znom ccli ncli refs dir.
  induction n as [|n IH];
    intros [|a lat] [|b lng] [|z zona] [|t botica] [|zn znom] [|cc ccli]
           [|nc ncli] [|r refs] [|d dir]; cbn [length];
    try discriminate; try reflexivity.
  intros. cbn [markers_of length]. f_equal. apply IH; congruence.
Qed.

(** X14. In the dashboard, whatever the user has done since the session
    started, the flag [filtrar_boticas] of the session state is set exactly
    when the list [boticas_filtradas] is not empty, at the end of each run
    and when line 83 reads them: the second test of that line never
    decides. *)
Theorem stored_boticas_follow_flag (history : list (interaction cell))
        (boticas_sel : list cell) (button : bool) :
  let s := replay cell_eqb missing cell_text mean sorted history in
  flag_iff_stored s
  /\ (fst (update_session s boticas_sel button) = true
      <-> snd (update_session s boticas_sel button) <> []).
Proof.
  cbv zeta.
  assert (H : flag_iff_stored
                (replay cell_eqb missing cell_text mean sorted history)).
  { unfold replay. apply replay_from. exact I. }
  split; [exact H|]. apply update_session_flag. exact H.
Qed.

(** X15. In the dashboard, when no zone is selected and the table has a
    column [CodigoZona] whose values can be sorted, the run ends normally,
    displays the hint to select a zone and the warning that there is
    nothing to show, no table and no map, and leaves the session state that
    lines 64 to 77 compute. *)
Theorem no_zone_no_map (df : table cell) (s : session cell)
        (zona sorted_zones boticas_sel : list cell) (button : bool) :
  col df "CodigoZona" = Some zona ->
  options cell_eqb missing sorted zona = Some sorted_zones ->
  app cell_eqb missing cell_text mean sorted df s [] boticas_sel button
  = Finished (Session (Some (fst (update_session s boticas_sel button)))
                      (Some (snd (update_session s boticas_sel button))))
             [Info; Warning].
Proof.
  intros E1 E2. unfold app. rewrite E1. cbn [option_bind]. rewrite E2.
  cbn [rows_of_zones empty].
  destruct (update_session s boticas_sel button) as [on kept].
  reflexivity.
Qed.

(** X16. In the dashboard, every marker of the map stands on a row with
    both coordinates present, since [cargar_datos] drops the others, and
    belongs to one of the selected zones; its colour is the colour of that
    zone, which its popup shows in third place. *)
Theorem markers_located_in_chosen_zones (raw df : table cell)
        (s : session cell) (zonas_sel boticas_sel : list cell) (button : bool)
        (centre : cell * cell) (markers : list (marker cell))
        (m : marker cell) :
  cargar_datos missing raw = Some df ->
  In (Map centre markers)
     (said_of (app cell_eqb missing cell_text mean sorted df s zonas_sel
                   boticas_sel button)) ->
  In m markers ->
  missing (fst (location m)) = false
  /\ missing (snd (location m)) = false
  /\ exists z, nth_error (popup m) 2 = Some z
               /\ among cell_eqb zonas_sel z
               /\ color m = color_of cell_text z.
Proof.
  intros Hload Hsaid Hm.
  destruct (app_displays cell cell_eqb missing cell_text mean sorted
              df s zonas_sel boticas_sel button _ Hsaid)
    as (dz & rows & said & shown & fin & Hz & Hr & _ & _ & _ & _ & Hmap).
  destruct (cargar_datos_present cell missing raw df Hload) as [Hlat Hlng].
  destruct (rows_of_zones_chosen cell cell_eqb df dz zonas_sel Hz)
    as [Hzone Hkeep].
  destruct (rows_to_show_filtered cell cell_eqb dz rows _ _ said Hr)
    as (Hkeep' & _ & _).
  destruct (map_of_markers cell cell_text mean rows centre markers
              (Hmap _ _ eq_refl))
    as (lat & lng & zona & botica & znom & ccli & ncli & refs & dir
        & E1 & E2 & E3 & _ & _ & _ & _ & _ & _ & ->).
  destruct (markers_of_cells cell cell_text _ _ _ _ _ _ _ _ _ m Hm)
    as (M1 & M2 & _ & z & M4 & M5 & M6).
  assert (A1 := Hkeep' _ _ (Hkeep _ _ Hlat) lat E1).
  assert (A2 := Hkeep' _ _ (Hkeep _ _ Hlng) lng E2).
  assert (A3 := Hkeep' _ _ Hzone zona E3).
  rewrite Forall_forall in A1, A2, A3.
  split; [exact (A1 _ M1)|]. split; [exact (A2 _ M2)|].
  exists z. split; [exact M6|]. split; [exact (A3 _ M4) | exact M5].
Qed.

(** X17. In the dashboard, when a run reports the number of filtered
    boticas, the filter is on, the stored list of boticas is not empty, the
    number reported is the number of rows of the table the run displays,
    and the botica of every marker of the map it displays (the tooltip of
    the marker) is one of the stored ones. *)
Theorem filtered_markers_are_stored_boticas (df : table cell)
        (s : session cell) (zonas_sel boticas_sel : list cell) (button : bool)
        (count : nat) :
  let r := app cell_eqb missing cell_text mean sorted df s zonas_sel
               boticas_sel button in
  In (Success count) (said_of r) ->
  exists kept,
    state_of r = Session (Some true) (Some kept)
    /\ kept <> []
    /\ (forall rows, In (Data rows) (said_of r) -> count = len rows)
    /\ (forall centre markers m,
          In (Map centre markers) (said_of r) -> In m markers ->
          among cell_eqb kept (tooltip m)).
Proof.
  cbv zeta. intros Hcount.
  destruct (app_displays cell cell_eqb missing cell_text mean sorted
              df s zonas_sel boticas_sel button _ Hcount)
    as (dz & rows & said & shown & fin & Hz & Hr & Hs & Hst & Hsucc & _ & _).
  destruct (rows_to_show_filtered cell cell_eqb dz rows _ _ said Hr)
    as (_ & _ & Hfilter).
  destruct (Hfilter _ (Hsucc _ eq_refl)) as (Hon & Hkept & Hn & Hbot).
  exists (snd (update_session s boticas_sel button)).
  rewrite Hst, Hon. split; [reflexivity|]. split; [exact Hkept|]. split.
  - intros rows' Hd.
    destruct (app_displays cell cell_eqb missing cell_text mean sorted
                df s zonas_sel boticas_sel button _ Hd)
      as (dz' & rows2 & said' & shown' & fin' & Hz' & Hr' & _ & _ & _
          & Hdata & _).
    rewrite Hz in Hz'. injection Hz' as <-.
    rewrite Hr in Hr'. injection Hr' as <- <-.
    destruct (Hdata _ eq_refl) as [-> _]. exact Hn.
  - intros centre markers m Hd Hm.
    destruct (app_displays cell cell_eqb missing cell_text mean sorted
                df s zonas_sel boticas_sel button _ Hd)
      as (dz' & rows2 & said' & shown' & fin' & Hz' & Hr' & _ & _ & _
          & _ & Hmap).
    rewrite Hz in Hz'. injection Hz' as <-.
    rewrite Hr in Hr'. injection Hr' as <- <-.
    destruct (map_of_markers cell cell_text mean rows centre markers
                (Hmap _ _ eq_refl))
      as (lat & lng & zona & botica & znom & ccli & ncli & refs & dir
          & _ & _ & _ & E4 & _ & _ & _ & _ & _ & ->).
    destruct (markers_of_cells cell cell_text _ _ _ _ _ _ _ _ _ m Hm)
      as (_ & _ & M3 & _).
    assert (A := Hbot botica E4). rewrite Forall_forall in A. exact (A _ M3).
Qed.

(** X18. In the dashboard, the table a run displays, filtered from a
    table whose columns all have the same number of cells, has at least one
    row, and the map displayed after it has exactly one marker per row of
    that table. *)
Theorem one_marker_per_row (n : nat) (df rows : table cell)
        (s : session cell) (zonas_sel boticas_sel : list cell) (button : bool)
        (centre : cell * cell) (markers : list (marker cell)) :
  let r := app cell_eqb missing cell_text mean sorted df s zonas_sel
               boticas_sel button in
  rows_aligned n df ->
  In (Data rows) (said_of r) ->
  In (Map centre markers) (said_of r) ->
  length markers = len rows /\ (0 < len rows)%nat.
Proof.
  cbv zeta. intros Hal Hdata Hsaid.
  destruct (app_displays cell cell_eqb missing cell_text mean sorted
              df s zonas_sel boticas_sel button _ Hsaid)
    as (dz & rows1 & said & shown & fin & Hz & Hr & _ & _ & _ & _ & Hmap).
  destruct (app_displays cell cell_eqb missing cell_text mean sorted
              df s zonas_sel boticas_sel button _ Hdata)
    as (dz' & rows2 & said' & shown' & fin' & Hz' & Hr' & _ & _ & _
        & Hd & _).
  rewrite Hz in Hz'. injection Hz' as <-.
  rewrite Hr in Hr'. injection Hr' as <- <-.
  destruct (Hd _ eq_refl) as [-> Hne].
  assert (Hdz : exists k, rows_aligned k dz).
  { unfold rows_of_zones in Hz. destruct zonas_sel as [|z zs].
    - injection Hz as <-. exists O. constructor.
    - destruct (col df "CodigoZona"); [|discriminate]. injection Hz as <-.
      apply (take_rows_aligned n). exact Hal. }
  destruct Hdz as [k Hk].
  assert (Hrows : exists k', rows_aligned k' rows1).
  { unfold rows_to_show in Hr. destruct (empty dz).
    - injection Hr as <- _. exists O. constructor.
    - destruct (fst (update_session s boticas_sel button));
        [destruct (snd (update_session s boticas_sel button))|].
      + injection Hr as <- _. exists k. exact Hk.
      + destruct (col dz "Botica"); [|discriminate]. injection Hr as <- _.
        apply (take_rows_aligned k). exact Hk.
      + injection Hr as <- _. exists k. exact Hk. }
  destruct Hrows as [k' Hk'].
  destruct (map_of_markers cell cell_text mean rows1 centre markers
              (Hmap _ _ eq_refl))
    as (lat & lng & zona & botica & znom & ccli & ncli & refs & dir
        & E1 & E2 & E3 & E4 & E5 & E6 & E7 & E8 & E9 & ->).
  assert (Hlen : len rows1 = k').
  { apply len_aligned; [exact Hk'|]. intros ->. discriminate. }
  rewrite Hlen. split.
  - apply markers_of_length; eapply col_aligned; eassumption.
  - destruct rows1 as [|[name c] rows1]; [discriminate|].
    cbn [empty] in Hne. destruct c as [|v c]; [discriminate|].
    inversion Hk' as [|x l Hx Hl]. cbn [snd length] in Hx. lia.
Qed.

End DashboardResults.

Lemma no_zone_no_map_clientes :
  run_clientes loaded_clientes fresh_session [] [] true
  = Dashboard.Finished (Dashboard.Session (Some false) (Some [])) [Dashboard.Info; Dashboard.Warning].
Proof.
  exact (no_zone_no_map value value_eqb isna value_text value_mean
           value_sorted loaded_clientes fresh_session
           [txt "SU01"; txt "SU02"] [txt "SU01"; txt "SU02"] [] true
           eq_refl eq_refl).
Defined.

Lemma markers_located_in_chosen_zones_clientes :
  isna (fst (Dashboard.location marker_a)) = false
  /\ isna (snd (Dashboard.location marker_a)) = false
  /\ exists z, nth_error (Dashboard.popup marker_a) 2 = Some z
               /\ among value_eqb [txt "SU01"] z
               /\ Dashboard.color marker_a = Dashboard.color_of value_text z.
Proof.
  apply (markers_located_in_chosen_zones value value_eqb isna value_text
           value_mean value_sorted clientes loaded_clientes
           fresh_session [txt "SU01"] [] false centre_su01 [marker_a]
           marker_a).
  - reflexivity.
  - vm_compute. right. left. reflexivity.
  - left. reflexivity.
Defined.

Lemma filtered_markers_are_stored_boticas_clientes :
  exists kept,
    Dashboard.state_of
      (run_clientes loaded_clientes fresh_session [txt "SU01"; txt "SU02"]
                    [txt "Botica A"] true)
    = Dashboard.Session (Some true) (Some kept)
    /\ kept <> []
    /\ (forall rows,
          In (Dashboard.Data rows)
             (Dashboard.said_of
                (run_clientes loaded_clientes fresh_session
                              [txt "SU01"; txt "SU02"] [txt "Botica A"] true))
          -> 1%nat = Dashboard.len rows)
    /\ (forall centre markers m,
          In (Dashboard.Map centre markers)
             (Dashboard.said_of
                (run_clientes loaded_clientes fresh_session
                              [txt "SU01"; txt "SU02"] [txt "Botica A"] true))
          -> In m markers -> among value_eqb kept (Dashboard.tooltip m)).
Proof.
  apply (filtered_markers_are_stored_boticas value value_eqb isna value_text
           value_mean value_sorted loaded_clientes fresh_session
           [txt "SU01"; txt "SU02"] [txt "Botica A"] true 1).
  vm_compute. left. reflexivity.
Defined.

Lemma one_marker_per_row_clientes :
  length [marker_a] = Dashboard.len rows_su01
  /\ (0 < Dashboard.len rows_su01)%nat.
Proof.
  apply (one_marker_per_row value value_eqb isna value_text value_mean
           value_sorted 2 loaded_clientes rows_su01 fresh_session
           [txt "SU01"] [] false centre_su01 [marker_a]).
  - vm_compute. repeat constructor.
  - vm_compute. left. reflexivity.
  - vm_compute. right. left. reflexivity.
Defined.
